(** * Accumulator betting bot: a shallow embedding of [accumulator_bot_mock.py]

    The Python module is embedded as Rocq functions over an explicit world:
    - Python floats are the kernel's binary64 floats ([PrimFloat]);
    - dicts and lists that the program shares by reference live in a heap of
      objects addressed by location, so in-place mutation and aliasing are
      visible;
    - exceptions are an error value threaded by a small state-and-error monad;
    - [random], [datetime.utcnow], [time.sleep], the logger and the output file
      are fields of the world: the first two as oracles that are read in order,
      the others as an append-only trace of observable events. *)

From Stdlib Require Import ZArith List String Floats Lia Bool.
From stdpp Require Import base option list sorting gmap strings pretty.

Set Warnings "-inexact-float".

Local Open Scope string_scope.
Local Open Scope Z_scope.

(** ** Floats *)

Module PyFloat.

Definition two53 : Z := 2 ^ 53.

(** Nearest integer to [p / q], ties to even ([q > 0], [p >= 0]). *)
Definition div_half_even (p q : Z) : Z :=
  let d := p / q in
  let r := p mod q in
  match 2 * r ?= q with
  | Lt => d
  | Gt => d + 1
  | Eq => if Z.even d then d else d + 1
  end.

(** The binary64 number nearest to the positive rational [p / q], ties to
    even, for a quotient in the normal range: the mantissa is scaled into
    [2^52, 2^53) and rounded once. *)
Definition scaled_mantissa (p q e : Z) : Z :=
  if 0 <=? e then div_half_even p (q * 2 ^ e) else div_half_even (p * 2 ^ (- e)) q.

Definition nearest_float (neg : bool) (p q : Z) : float :=
  if p =? 0 then (if neg then (-0)%float else 0%float)
  else
    let e0 := Z.log2 p - Z.log2 q - 53 in
    let e1 := if scaled_mantissa p q e0 <? two53 then e0 else e0 + 1 in
    let e2 := if scaled_mantissa p q e1 <? two53 then e1 else e1 + 1 in
    let m := scaled_mantissa p q e2 in
    let '(m, e) := if m <? two53 then (m, e2) else (m / 2, e2 + 1) in
    SF2Prim (S754_finite neg (Z.to_pos m) e).

(** [round(x, 2)]: CPython prints [x] correctly rounded (half to even on the
    exact binary value) to two decimals and reads the decimal back, so the
    result is the float nearest to [n / 100] where [n] is the integer nearest
    to [100 * x]. Infinities, NaN and floats that are integers come back
    unchanged. *)
Definition round2 (x : float) : float :=
  match Prim2SF x with
  | S754_finite s m e =>
      if 0 <=? e then x
      else nearest_float s (div_half_even (100 * Zpos m) (2 ^ (- e))) 100
  | _ => x
  end.

(** [max(a, b)] on two arguments keeps [a] unless [b > a]. *)
Definition max (a b : float) : float := if (a <? b)%float then b else a.

(** [x >= y] and [x > y]. *)
Definition geb (x y : float) : bool := (y <=? x)%float.
Definition gtb (x y : float) : bool := (y <? x)%float.

End PyFloat.

(** Where a float that is not NaN stands on the line. *)
Module FloatOrder.




End FloatOrder.

(** ** Values of the program *)

(** Object identity: the address of a dict or a list. *)
Definition loc := nat.

(** A match dict as [get_available_matches] builds it. Every dict this program
    builds carries all of its keys, so a key is a field. *)
Record Match := mkMatch {
  match_id : string;
  teams : string * string;
  start_time : string;
  odds : float;
  available : bool
}.

(** A leg dict of the placement payload. *)
Record Leg := mkLeg {
  leg_match_id : string;
  leg_selection : string;
  leg_odds : float;
  leg_available : bool
}.

Inductive obj :=
| OMatch (m : Match)
| OLeg (g : Leg)
| OList (xs : list loc).

(** The placement dict [{"legs": ..., "stake": ...}]; it is never mutated, its
    ["legs"] entry is a reference to the list of leg dicts. *)
Record Placement := mkPlacement {
  p_legs : loc;
  p_stake : float
}.

(** The dict a placement call returns; [.get("bet_id")] may find nothing. *)
Record PlacementResult := mkPlacementResult {
  pr_bet_id : option string;
  pr_status : string;
  pr_total_odd : float;
  pr_potential_return : float
}.

(** A record of [MockBettingAPI._bets]. *)
Record BetInfo := mkBetInfo {
  bet_id : string;
  bet_user : string;
  bet_legs : loc;
  bet_stake : float;
  bet_placed_at : string;
  bet_status : string;
  bet_total_odd : float;
  bet_potential_return : float
}.

Record Session := mkSession {
  session_user : string;
  session_issued : Z
}.

Inductive exn :=
| MockAPIError (msg : string)
| RuntimeError (msg : string)
| TypeError (msg : string)
| IndexError (msg : string)
| KeyError (key : string).

(** A call that crosses the boundary to the remote service, with its arguments
    as they are when the call is made (for a placement, the contents of the leg
    dicts at that moment). *)
Inductive remote_call :=
| CallAuthenticate (username password : string)
| CallGetAvailableMatches
| CallPlaceAccumulator (token : string) (legs : loc) (sent : list Leg) (stake : float)
| CallGetBet (id : string).

Inductive level := INFO | WARNING | ERROR.

(** A log record: the call site and its arguments (the logger formats them). *)
Inductive log_record :=
| LogLoggingIn (username : string)
| LogAuthenticated (token : string)
| LogFetching (mode : string) (legs : Z)
| LogSelected (ids : list string)
| LogPlacing (stake : float) (n : nat)
| LogPlacementResult (r : PlacementResult)
| LogConfirming (id : string)
| LogBetInfo (info : BetInfo)
| LogFinal (id : string) (stake total_odd potential_return : float)
| LogPersisted (file : string)
| LogNoBetId
| LogRunFailed (e : exn)
| LogAttemptFailed (attempt max_retries : Z) (e : exn) (wait : float)
| LogAllFailed (max_retries : Z) (last : option exn).

(** What a run does to the outside, in order. *)
Inductive event :=
| EvCall (c : remote_call)
| EvSleep (seconds : float)
| EvLog (lvl : level) (r : log_record)
| EvPersist (file : string) (info : BetInfo).

(** ** The world *)

(** The [random] module read as an oracle: the floats [random.random()] will
    return and the raw integers behind [_randbelow], each with a cursor. *)
Record Random := mkRandom {
  floats : nat -> float;
  ints : nat -> nat;
  fpos : nat;
  ipos : nat
}.

(** [datetime.utcnow()] as an oracle of microsecond counts. *)
Record Clock := mkClock {
  times : nat -> Z;
  ticks : nat
}.

Record World (S : Type) := mkWorld {
  heap : gmap loc obj;
  rng : Random;
  clock : Clock;
  trace : list event;
  session_token : option string;
  remote : S
}.
Arguments mkWorld {S}.
Arguments heap {S}.
Arguments rng {S}.
Arguments clock {S}.
Arguments trace {S}.
Arguments session_token {S}.
Arguments remote {S}.

Inductive Outcome (A : Type) :=
| Ok (a : A)
| Raise (e : exn).
Arguments Ok {A}.
Arguments Raise {A}.

Definition M (S A : Type) : Type := World S -> Outcome A * World S.

Definition ret {S A} (a : A) : M S A := fun w => (Ok a, w).

Definition raise {S A} (e : exn) : M S A := fun w => (Raise e, w).

Definition bind {S A B} (c : M S A) (k : A -> M S B) : M S B :=
  fun w =>
    match c w with
    | (Ok a, w') => k a w'
    | (Raise e, w') => (Raise e, w')
    end.

(** [try: c  except Exception as e: h e]. *)
Definition try_except {S A} (c : M S A) (h : exn -> M S A) : M S A :=
  fun w =>
    match c w with
    | (Ok a, w') => (Ok a, w')
    | (Raise e, w') => h e w'
    end.

Notation "'let!' x ':=' c 'in' k" := (bind c (fun x => k))
  (at level 10, x pattern, c at level 100, k at level 200).
Notation "c ';;' k" := (bind c (fun _ => k))
  (at level 100, k at level 200, right associativity).

Section Runtime.
Context {S : Type}.

Definition set_heap (h : gmap loc obj) (w : World S) : World S :=
  mkWorld h (rng w) (clock w) (trace w) (session_token w) (remote w).
Definition set_rng (r : Random) (w : World S) : World S :=
  mkWorld (heap w) r (clock w) (trace w) (session_token w) (remote w).
Definition set_clock (c : Clock) (w : World S) : World S :=
  mkWorld (heap w) (rng w) c (trace w) (session_token w) (remote w).
Definition set_trace (t : list event) (w : World S) : World S :=
  mkWorld (heap w) (rng w) (clock w) t (session_token w) (remote w).
Definition set_session_token (t : option string) (w : World S) : World S :=
  mkWorld (heap w) (rng w) (clock w) (trace w) t (remote w).
Definition set_remote (s : S) (w : World S) : World S :=
  mkWorld (heap w) (rng w) (clock w) (trace w) (session_token w) s.

Definition emit (e : event) : M S unit :=
  fun w => (Ok tt, set_trace (trace w ++ [e]) w).

Definition log (lvl : level) (r : log_record) : M S unit := emit (EvLog lvl r).

(** [time.sleep(seconds)]. *)
Definition sleep (seconds : float) : M S unit := emit (EvSleep seconds).

(** [random.random()]. *)
Definition random_random : M S float :=
  fun w =>
    let r := rng w in
    (Ok (floats r (fpos r)),
     set_rng (mkRandom (floats r) (ints r) (Datatypes.S (fpos r)) (ipos r)) w).

(** [random._randbelow(n)], [n > 0]: the next raw integer brought into range. *)
Definition randbelow (n : nat) : M S nat :=
  fun w =>
    let r := rng w in
    (Ok (ints r (ipos r) mod n)%nat,
     set_rng (mkRandom (floats r) (ints r) (fpos r) (Datatypes.S (ipos r))) w).

(** [random.uniform(a, b)] is [a + (b - a) * random()]. *)
Definition random_uniform (a b : float) : M S float :=
  let! r := random_random in ret (a + (b - a) * r)%float.

(** [random.randint(a, b)] is [a + _randbelow(b - a + 1)]. *)
Definition random_randint (a b : Z) : M S Z :=
  let! k := randbelow (Z.to_nat (b - a + 1)) in ret (a + Z.of_nat k).

(** [datetime.utcnow()]. *)
Definition utcnow : M S Z :=
  fun w =>
    let c := clock w in
    (Ok (times c (ticks c)), set_clock (mkClock (times c) (Datatypes.S (ticks c))) w).

(** *** Objects *)

Definition alloc (o : obj) : M S loc :=
  fun w =>
    let l := fresh (dom (heap w)) in
    (Ok l, set_heap (<[l := o]> (heap w)) w).

Definition read_list (l : loc) : M S (list loc) :=
  fun w =>
    match heap w !! l with
    | Some (OList xs) => (Ok xs, w)
    | _ => (Raise (TypeError "object is not a list"), w)
    end.

Definition write_list (l : loc) (xs : list loc) : M S unit :=
  fun w =>
    match heap w !! l with
    | Some (OList _) => (Ok tt, set_heap (<[l := OList xs]> (heap w)) w)
    | _ => (Raise (TypeError "object is not a list"), w)
    end.

Definition read_match (l : loc) : M S Match :=
  fun w =>
    match heap w !! l with
    | Some (OMatch m) => (Ok m, w)
    | _ => (Raise (TypeError "object is not a match dict"), w)
    end.

Definition read_leg (l : loc) : M S Leg :=
  fun w =>
    match heap w !! l with
    | Some (OLeg g) => (Ok g, w)
    | _ => (Raise (TypeError "object is not a leg dict"), w)
    end.

(** [leg["odds"] = v]. *)
Definition set_leg_odds (l : loc) (v : float) : M S unit :=
  fun w =>
    match heap w !! l with
    | Some (OLeg g) =>
        (Ok tt,
         set_heap (<[l := OLeg (mkLeg (leg_match_id g) (leg_selection g) v (leg_available g))]>
                     (heap w)) w)
    | _ => (Raise (TypeError "object is not a leg dict"), w)
    end.

(** [[f(x) for x in xs]], left to right. *)
Fixpoint mapM {A B} (f : A -> M S B) (xs : list A) : M S (list B) :=
  match xs with
  | [] => ret []
  | x :: rest => let! y := f x in let! ys := mapM f rest in ret (y :: ys)
  end.

(** [for x in xs: f(x)]. *)
Fixpoint forM_ {A} (f : A -> M S unit) (xs : list A) : M S unit :=
  match xs with
  | [] => ret tt
  | x :: rest => f x;; forM_ f rest
  end.

End Runtime.

(** ** Lists as Python has them *)

Module PyList.

Section Sort.
Context {K A : Type} (ltb : K -> K -> bool).

(** [x] stood before every element of the sorted [ys]: it moves right only
    past the elements whose key is strictly smaller than its own. *)
Fixpoint insert (x : K * A) (ys : list (K * A)) : list (K * A) :=
  match ys with
  | [] => [x]
  | y :: rest => if ltb (fst y) (fst x) then y :: insert x rest else x :: y :: rest
  end.

(** The stable ascending sort on keys that [list.sort] computes with [<]
    alone. *)
Definition stable_sort (xs : list (K * A)) : list (K * A) :=
  foldr insert [] xs.

(** [list.sort(key=..., reverse=...)] on the list decorated with its keys:
    with [reverse] the list is reversed, sorted and reversed again, which
    keeps equal keys in their original order. *)
Definition sorted (reverse : bool) (xs : list (K * A)) : list A :=
  map snd (if reverse then rev (stable_sort (rev xs)) else stable_sort xs).
End Sort.

(** The same sort seen on the undecorated list, each element compared
    through its key. *)
Section Keyed.
Context {K A : Type} (ltb : K -> K -> bool) (key : A -> K).

Fixpoint insert_by (x : A) (ys : list A) : list A :=
  match ys with
  | [] => [x]
  | y :: rest => if ltb (key y) (key x) then y :: insert_by x rest else x :: y :: rest
  end.

Definition sort_by (xs : list A) : list A := foldr insert_by [] xs.

Definition sorted_by (reverse : bool) (xs : list A) : list A :=
  if reverse then rev (sort_by (rev xs)) else sort_by xs.
End Keyed.

(** [xs[:k]]: a negative [k] counts from the end. *)
Definition slice_to {A} (xs : list A) (k : Z) : list A :=
  if 0 <=? k then firstn (Z.to_nat k) xs
  else firstn (length xs - Z.to_nat (- k)) xs.

End PyList.

(** ** Configuration *)

(** The module-level settings, read from the environment when the module is
    loaded. *)
Record Config := mkConfig {
  USERNAME : string;
  PASSWORD : string;
  DEFAULT_STAKE : float;
  MAX_LEGS : Z;
  MIN_ODDS : float;
  MAX_RETRIES : Z;
  RETRY_BACKOFF_BASE : float;
  MATCH_SELECTION_MODE : string;
  SIMULATED_NETWORK_FAILURE_RATE : float
}.

(** The values the module takes when the environment sets none of them. *)
Definition default_config : Config :=
  {| USERNAME := "test_user";
     PASSWORD := "test_pass";
     DEFAULT_STAKE := 5.0%float;
     MAX_LEGS := 4;
     MIN_ODDS := 1.20%float;
     MAX_RETRIES := 5;
     RETRY_BACKOFF_BASE := 1.5%float;
     MATCH_SELECTION_MODE := "top";
     SIMULATED_NETWORK_FAILURE_RATE := 0.05%float |}.

(** Library functions the module calls and this development leaves open:
    [float ** int] (the C library's [pow]) and [datetime.isoformat] on a
    microsecond count. *)
Record Platform := mkPlatform {
  float_pow : float -> Z -> float;
  isoformat : Z -> string
}.

(** ** Helper utilities *)

Section Helpers.
Context {S : Type}.
Variable lib : Platform.
Variable cfg : Config.

Definition exponential_backoff (attempt : Z) : M S float :=
  let base := float_pow lib (RETRY_BACKOFF_BASE cfg) (attempt - 1) in
  let! r := random_random in
  ret (base + r * 0.5)%float.

(** The [for attempt in range(1, max_retries + 1)] loop with [n] iterations
    left, the next one numbered [attempt]. *)
Fixpoint retry_loop {A} (fn : M S A) (max_retries : Z)
    (n : nat) (attempt : Z) (last_exc : option exn) : M S A :=
  match n with
  | O =>
      log ERROR (LogAllFailed max_retries last_exc);;
      match last_exc with
      | Some e => raise e
      | None => raise (TypeError "exceptions must derive from BaseException")
      end
  | Datatypes.S n' =>
      try_except fn (fun e =>
        let! wait := exponential_backoff attempt in
        log WARNING (LogAttemptFailed attempt max_retries e wait);;
        sleep wait;;
        retry_loop fn max_retries n' (attempt + 1) (Some e))
  end.

Definition retry_on_exception {A} (fn : M S A) (max_retries : Z) : M S A :=
  retry_loop fn max_retries (Z.to_nat max_retries) 1 None.

(** *** Match selection logic *)

Definition passes (m : Match) : bool :=
  available m && PyFloat.geb (odds m) (MIN_ODDS cfg).

(** [[m for m in matches if m.get("available", True) and
     m.get("odds", 0) >= MIN_ODDS]]. *)
Fixpoint comprehension (ms : list loc) : M S (list loc) :=
  match ms with
  | [] => ret []
  | l :: rest =>
      let! m := read_match l in
      let! tl := comprehension rest in
      ret (if passes m then l :: tl else tl)
  end.

(** [x[i], x[j] = x[j], x[i]] on the list object [x]. *)
Definition swap (x : loc) (i j : nat) : M S unit :=
  let! xs := read_list x in
  match xs !! j, xs !! i with
  | Some a, Some b => write_list x (<[j := b]> (<[i := a]> xs))
  | _, _ => raise (IndexError "list index out of range")
  end.

(** [for i in reversed(range(1, n + 1)): j = randbelow(i + 1); swap]. *)
Fixpoint shuffle_from (x : loc) (n : nat) : M S unit :=
  match n with
  | O => ret tt
  | Datatypes.S n' =>
      let! j := randbelow (Datatypes.S n) in
      swap x n j;;
      shuffle_from x n'
  end.

(** [random.shuffle(x)]. *)
Definition random_shuffle (x : loc) : M S unit :=
  let! xs := read_list x in
  shuffle_from x (length xs - 1)%nat.

(** [x.sort(key=key, reverse=reverse)]: keys are computed once, up front. *)
Definition list_sort {K} (ltb : K -> K -> bool) (key : loc -> M S K)
    (reverse : bool) (x : loc) : M S unit :=
  let! xs := read_list x in
  let! ks := mapM key xs in
  write_list x (PyList.sorted ltb reverse (zip ks xs)).

Definition key_start_time (l : loc) : M S string :=
  let! m := read_match l in ret (start_time m).

Definition key_odds (l : loc) : M S float :=
  let! m := read_match l in ret (odds m).

(** [x[:k]] as a new list object. *)
Definition take_slice (x : loc) (k : Z) : M S loc :=
  let! xs := read_list x in alloc (OList (PyList.slice_to xs k)).

Definition choose_matches (matches : loc) (mode : string) (max_legs : Z) : M S loc :=
  let! ms := read_list matches in
  let! avail := comprehension ms in
  let! available := alloc (OList avail) in
  match avail with
  | [] => alloc (OList [])
  | _ :: _ =>
      if String.eqb mode "random" then
        random_shuffle available;;
        take_slice available max_legs
      else if String.eqb mode "from_feed" then
        list_sort String.ltb key_start_time false available;;
        take_slice available max_legs
      else
        list_sort PrimFloat.ltb key_odds true available;;
        take_slice available max_legs
  end.

End Helpers.

(** ** The betting API *)

(** What [AccumulatorBot] asks of its [api_client]: four fallible calls that
    may change the world. [MockBettingAPI] below is one implementation; the
    module's docstring asks for it to be replaced by a real client. *)
Record BettingAPI (S : Type) := mkBettingAPI {
  api_authenticate : string -> string -> M S string;
  api_get_available_matches : M S loc;
  api_place_accumulator : string -> loc -> float -> M S PlacementResult;
  api_get_bet : string -> M S BetInfo
}.
Arguments api_authenticate {S}.
Arguments api_get_available_matches {S}.
Arguments api_place_accumulator {S}.
Arguments api_get_bet {S}.

Module MockBettingAPI.

(** The instance fields [_sessions], [_bets] and [_next_bet_id]. *)
Record State := mkState {
  _sessions : gmap string Session;
  _bets : gmap string BetInfo;
  _next_bet_id : Z
}.

(** [__init__]; the seed fixes which oracle [random] is from here on. *)
Definition init : State := mkState ∅ ∅ 1000.

(** [f"{i:03}"]. *)
Definition pad3 (i : Z) : string :=
  let s := pretty i in
  String.concat "" (replicate (3 - String.length s)%nat "0") ++ s.

Definition minutes (n : Z) : Z := n * 60000000.

Section Methods.
Variable lib : Platform.
Variable cfg : Config.

Definition _maybe_network_failure : M State unit :=
  let! r := random_random in
  if (r <? SIMULATED_NETWORK_FAILURE_RATE cfg)%float
  then raise (MockAPIError "Simulated transient network error")
  else ret tt.

Definition authenticate (username password : string) : M State string :=
  _maybe_network_failure;;
  if String.eqb username "" || String.eqb password ""
  then raise (MockAPIError "Invalid credentials")
  else
    let! n := random_randint 10000 99999 in
    let token := "session-" ++ pretty n in
    let! now := utcnow in
    (fun w =>
       let s := remote w in
       (Ok tt, set_remote (mkState (<[token := mkSession username now]> (_sessions s))
                                   (_bets s) (_next_bet_id s)) w));;
    ret token.

(** One turn of the loop that fills [matches]. *)
Definition add_match (now : Z) (matches : loc) (i : Z) : M State unit :=
  let! u := random_uniform 1.15 3.5 in
  let! r := random_random in
  let! m := alloc (OMatch (mkMatch ("M" ++ pad3 i)
                             ("Team" ++ pretty i ++ "A", "Team" ++ pretty i ++ "B")
                             (isoformat lib (now + minutes (30 + i * 10)))
                             (PyFloat.round2 u)
                             (PyFloat.gtb r 0.02))) in
  let! xs := read_list matches in
  write_list matches (xs ++ [m]).

Definition get_available_matches : M State loc :=
  _maybe_network_failure;;
  let! now := utcnow in
  let! matches := alloc (OList []) in
  forM_ (add_match now matches) (map Z.of_nat (seq 1 20));;
  ret matches.

Definition validate_leg (l : loc) : M State unit :=
  let! leg := read_leg l in
  if negb (leg_available leg)
  then raise (MockAPIError ("Leg " ++ leg_match_id leg ++ " unavailable at placement"))
  else if (leg_odds leg <? MIN_ODDS cfg)%float
  then raise (MockAPIError ("Leg " ++ leg_match_id leg ++ " odds too low"))
  else ret tt.

(** [leg["odds"] = round(max(1.05, leg["odds"] * random.uniform(0.90, 1.12)), 2)]. *)
Definition change_odds (l : loc) : M State unit :=
  let! leg := read_leg l in
  let! u := random_uniform 0.90 1.12 in
  set_leg_odds l (PyFloat.round2 (PyFloat.max 1.05 (leg_odds leg * u)%float)).

(** [total_odd = 1.0; for leg in legs: total_odd *= leg["odds"]]. *)
Definition product (os : list float) : float :=
  fold_left PrimFloat.mul os 1.0%float.

Definition place_accumulator (session_token : string) (legs : loc) (stake : float)
    : M State PlacementResult :=
  _maybe_network_failure;;
  let! sessions := (fun w => (Ok (_sessions (remote w)), w)) in
  match sessions !! session_token with
  | None => raise (MockAPIError "Invalid session")
  | Some session =>
      let! ls := read_list legs in
      forM_ validate_leg ls;;
      let! r := random_random in
      (if (r <? 0.08)%float then
         forM_ change_odds ls;;
         let! r' := random_random in
         if (r' <? 0.5)%float
         then raise (MockAPIError "Odds changed during placement - please retry")
         else ret tt
       else ret tt);;
      let! n := (fun w => (Ok (_next_bet_id (remote w)), w)) in
      let bet_id := "B" ++ pretty n in
      (fun w =>
         let s := remote w in
         (Ok tt, set_remote (mkState (_sessions s) (_bets s) (_next_bet_id s + 1)) w));;
      let! gs := mapM read_leg ls in
      let total_odd := product (map leg_odds gs) in
      let potential_return := PyFloat.round2 (stake * total_odd)%float in
      let! now := utcnow in
      let info := mkBetInfo bet_id (session_user session) legs stake (isoformat lib now)
                    "ACCEPTED" (PyFloat.round2 total_odd) potential_return in
      (fun w =>
         let s := remote w in
         (Ok tt, set_remote (mkState (_sessions s) (<[bet_id := info]> (_bets s))
                                     (_next_bet_id s)) w));;
      ret (mkPlacementResult (Some bet_id) "ACCEPTED" (PyFloat.round2 total_odd)
             potential_return)
  end.

Definition get_bet (bet_id : string) : M State BetInfo :=
  _maybe_network_failure;;
  let! bets := (fun w => (Ok (_bets (remote w)), w)) in
  match bets !! bet_id with
  | None => raise (MockAPIError "Bet not found")
  | Some info => ret info
  end.

Definition client : BettingAPI State :=
  mkBettingAPI State authenticate get_available_matches place_accumulator get_bet.

End Methods.

End MockBettingAPI.

(** ** Main bot flow *)

(** The leg dicts behind the list [legs], as they are in the heap [h]. *)
Definition sent_legs (h : gmap loc obj) (legs : loc) : list Leg :=
  match h !! legs with
  | Some (OList xs) =>
      omap (fun l => match h !! l with Some (OLeg g) => Some g | _ => None end) xs
  | _ => []
  end.

Module AccumulatorBot.

(** The fields set by [__init__]; [session_token] is a field of the world
    because [login] assigns it. *)
Record Bot (S : Type) := mkBot {
  api : BettingAPI S;
  username : string;
  password : string
}.
Arguments api {S}.
Arguments username {S}.
Arguments password {S}.

(** Python truth of [self.session_token] and of a bet id: [None] and the
    empty string are false. *)
Definition truthy (s : option string) : option string :=
  match s with
  | Some "" => None
  | other => other
  end.

Section Methods.
Context {S : Type}.
Variable lib : Platform.
Variable cfg : Config.
Variable self : Bot S.

(** The calls handed to [retry_on_exception]; each records that it
    reached the service before the service runs. *)
Definition call_authenticate : M S string :=
  emit (EvCall (CallAuthenticate (username self) (password self)));;
  api_authenticate (api self) (username self) (password self).

Definition call_get_available_matches : M S loc :=
  emit (EvCall CallGetAvailableMatches);;
  api_get_available_matches (api self).

Definition call_place_accumulator (token : string) (legs : loc) (stake : float)
    : M S PlacementResult :=
  (fun w => emit (EvCall (CallPlaceAccumulator token legs (sent_legs (heap w) legs) stake)) w);;
  api_place_accumulator (api self) token legs stake.

Definition call_get_bet (id : string) : M S BetInfo :=
  emit (EvCall (CallGetBet id));;
  api_get_bet (api self) id.

Definition login : M S unit :=
  log INFO (LogLoggingIn (username self));;
  let! token := retry_on_exception lib cfg call_authenticate (MAX_RETRIES cfg) in
  (fun w => (Ok tt, set_session_token (Some token) w));;
  log INFO (LogAuthenticated token).

(** One dict of [legs_payload]. *)
Definition leg_of_match (l : loc) : M S loc :=
  let! m := read_match l in
  alloc (OLeg (mkLeg (match_id m) (fst (teams m) ++ " vs " ++ snd (teams m))
                 (odds m) (available m))).

Definition build_accumulator (stake : float) (mode : string) (legs_target : Z)
    : M S Placement :=
  log INFO (LogFetching mode legs_target);;
  let! matches := retry_on_exception lib cfg call_get_available_matches (MAX_RETRIES cfg) in
  let! selected := choose_matches cfg matches mode legs_target in
  let! sel := read_list selected in
  if (length sel <? 2)%nat
  then raise (RuntimeError "Not enough valid legs available to form an accumulator")
  else
    let! ms := mapM read_match sel in
    log INFO (LogSelected (map match_id ms));;
    let! legs := mapM leg_of_match sel in
    let! legs_payload := alloc (OList legs) in
    ret (mkPlacement legs_payload stake).

Definition place_accumulator (placement : Placement) : M S PlacementResult :=
  let! token := (fun w => (Ok (session_token w), w)) in
  match truthy token with
  | None => raise (RuntimeError "Not authenticated")
  | Some token =>
      let! legs := read_list (p_legs placement) in
      log INFO (LogPlacing (p_stake placement) (length legs));;
      let! result :=
        retry_on_exception lib cfg
          (call_place_accumulator token (p_legs placement) (p_stake placement))
          (MAX_RETRIES cfg) in
      log INFO (LogPlacementResult result);;
      ret result
  end.

Definition confirm_bet (id : string) : M S BetInfo :=
  log INFO (LogConfirming id);;
  let! info := retry_on_exception lib cfg (call_get_bet id) (MAX_RETRIES cfg) in
  log INFO (LogBetInfo info);;
  ret info.

Definition _persist_bet (info : BetInfo) : M S unit :=
  let out_file := "placed_bets.jsonl" in
  emit (EvPersist out_file info);;
  log INFO (LogPersisted out_file).

(** The first three steps of [run_once], up to the placement result. *)
Definition steps_to_placement (stake : float) : M S PlacementResult :=
  login;;
  let! placement := build_accumulator stake (MATCH_SELECTION_MODE cfg) (MAX_LEGS cfg) in
  place_accumulator placement.

(** What [run_once] hands back: Python's [None], or a bet record. *)
Definition run_once (stake : float) : M S (option BetInfo) :=
  try_except
    (login;;
     let! placement := build_accumulator stake (MATCH_SELECTION_MODE cfg) (MAX_LEGS cfg) in
     let! placement_result := place_accumulator placement in
     match truthy (pr_bet_id placement_result) with
     | None =>
         log ERROR LogNoBetId;;
         ret None
     | Some id =>
         let! bet_info := confirm_bet id in
         log INFO (LogFinal (bet_id bet_info) (bet_stake bet_info)
                     (bet_total_odd bet_info) (bet_potential_return bet_info));;
         _persist_bet bet_info;;
         ret None
     end)
    (fun e => log ERROR (LogRunFailed e);; ret None).

End Methods.

End AccumulatorBot.

(** ** Observations on a run *)

(** The durations slept in a trace, in order. *)
Definition sleeps (t : list event) : list float :=
  omap (fun e => match e with EvSleep s => Some s | _ => None end) t.

(** The remote calls of a trace, in order. *)
Definition calls (t : list event) : list remote_call :=
  omap (fun e => match e with EvCall c => Some c | _ => None end) t.

(** The records written to the output file, in order. *)
Definition persisted (t : list event) : list BetInfo :=
  omap (fun e => match e with EvPersist _ b => Some b | _ => None end) t.

(** What of a leg an odds change leaves alone. *)
Definition leg_frame (g : Leg) : string * string * bool :=
  (leg_match_id g, leg_selection g, leg_available g).

(** The placements sent to the service, each as the list of legs it carried. *)
Definition placements (t : list event) : list (list Leg) :=
  omap (fun c => match c with CallPlaceAccumulator _ _ sent _ => Some sent | _ => None end)
       (calls t).

(** The match dict at a location, if there is one. *)
Definition match_at (h : gmap loc obj) (l : loc) : option Match :=
  match h !! l with
  | Some (OMatch m) => Some m
  | _ => None
  end.

Definition is_match (h : gmap loc obj) (l : loc) : Prop := is_Some (match_at h l).

(** The filter of [choose_matches] and its two sort keys, read through the
    heap; the defaults stand for locations that hold no match dict. *)
Definition passes_at (cfg : Config) (h : gmap loc obj) (l : loc) : bool :=
  match match_at h l with
  | Some m => passes cfg m
  | None => false
  end.

Definition odds_at (h : gmap loc obj) (l : loc) : float :=
  match match_at h l with
  | Some m => odds m
  | None => 0%float
  end.

Definition start_time_at (h : gmap loc obj) (l : loc) : string :=
  match match_at h l with
  | Some m => start_time m
  | None => ""
  end.

(** The list [choose_matches] orders before it cuts, in a mode other than
    [random]: the matches that pass the filter, sorted as the mode asks. *)
Definition ordered (h : gmap loc obj) (mode : string) (avail : list loc) : list loc :=
  if String.eqb mode "from_feed"
  then PyList.sorted_by String.ltb (start_time_at h) false avail
  else PyList.sorted_by PrimFloat.ltb (odds_at h) true avail.

(** The list [legs] still holds the leg dicts [ls], each with the identifier,
    selection and availability it has in the heap [h0]. *)
Definition legs_framed {S} (h0 : gmap loc obj) (legs : loc) (ls : list loc)
    (w : World S) : Prop :=
  heap w !! legs = Some (OList ls) /\
  Forall (fun l => exists g g0,
              heap w !! l = Some (OLeg g) /\ h0 !! l = Some (OLeg g0) /\
              leg_frame g = leg_frame g0) ls.

(** A placement call carries the list and the stake of [placement], and legs
    that differ from those of the heap [h0] in their odds at most. *)
Definition resends (h0 : gmap loc obj) (placement : Placement) (c : remote_call) : Prop :=
  match c with
  | CallPlaceAccumulator _ legs sent stake =>
      legs = p_legs placement /\ stake = p_stake placement /\
      map leg_frame sent = map leg_frame (sent_legs h0 (p_legs placement))
  | _ => True
  end.

(** An invariant of the world that a computation keeps, whatever it returns
    or raises. *)
Definition keeps {S A} (I : World S -> Prop) (c : M S A) : Prop :=
  forall w, I w -> I (snd (c w)).

(** The trace only grows from [t0]. *)
Definition grows_from {S} (t0 : list event) (w : World S) : Prop :=
  t0 `prefix_of` trace w.

(** An operation run beside a counter of its invocations: the counter is the
    first component of the remote state and the operation sees the second. *)
Definition counting {S A} (fn : M S A) : M (nat * S) A :=
  fun w =>
    match fn (mkWorld (heap w) (rng w) (clock w) (trace w) (session_token w)
                (snd (remote w))) with
    | (r, w') =>
        (r, mkWorld (heap w') (rng w') (clock w') (trace w') (session_token w')
              (Datatypes.S (fst (remote w)), remote w'))
    end.

Definition invocations {S} (w : World (nat * S)) : nat := fst (remote w).

(** ** Scenarios *)

Module Scenario.

Fixpoint pow_nat (b : float) (n : nat) : float :=
  match n with
  | O => 1%float
  | Datatypes.S n' => (b * pow_nat b n')%float
  end.

(** A platform whose [pow] multiplies repeatedly and whose [isoformat]
    prints the microsecond count. *)
Definition platform : Platform :=
  mkPlatform (fun b k => pow_nat b (Z.to_nat k)) (fun t => pretty t).

(** A clock that advances one microsecond per reading. *)
Definition clock0 : Clock := mkClock (fun n => Z.of_nat n) O.

(** A random source that always draws [0.5] and [0]: no simulated network
    failure, no odds change, every match available at odds [2.33]. *)
Definition calm : Random := mkRandom (fun _ => 0.5%float) (fun _ => O) O O.

Definition start {S} (r : Random) (s : S) : World S :=
  mkWorld ∅ r clock0 [] None s.

(** Six matches behind the list at location 0: two tie at odds 2.5, one is
    unavailable and one is below the minimum odds. *)
Definition feed_heap : gmap loc obj :=
  list_to_map
    [(0%nat, OList [1; 2; 3; 4; 5; 6]%nat);
     (1%nat, OMatch (mkMatch "M001" ("A1", "B1") "2026-01-01T12:00:00" 1.5%float true));
     (2%nat, OMatch (mkMatch "M002" ("A2", "B2") "2026-01-01T09:00:00" 2.5%float true));
     (3%nat, OMatch (mkMatch "M003" ("A3", "B3") "2026-01-01T09:00:00" 2.5%float true));
     (4%nat, OMatch (mkMatch "M004" ("A4", "B4") "2026-01-01T08:00:00" 3.0%float false));
     (5%nat, OMatch (mkMatch "M005" ("A5", "B5") "2026-01-01T07:00:00" 1.1%float true));
     (6%nat, OMatch (mkMatch "M006" ("A6", "B6") "2026-01-01T10:00:00" 1.75%float true))].

Definition feed : World unit := mkWorld feed_heap calm clock0 [] None tt.

(** What [choose_matches] returns on the feed: the elements of the list it
    hands back. *)
Definition chosen (mode : string) (max_legs : Z) : option (list loc) :=
  match choose_matches default_config O mode max_legs feed with
  | (Ok r, w') => match heap w' !! r with Some (OList sel) => Some sel | _ => None end
  | (Raise _, _) => None
  end.

(** Two legs at odds 1.25 and 1.75 behind the list at location 0, and a
    service that knows the session ["tok"]. *)
Definition legs_heap : gmap loc obj :=
  list_to_map
    [(0%nat, OList [1; 2]%nat);
     (1%nat, OLeg (mkLeg "M001" "A1 vs B1" 1.25%float true));
     (2%nat, OLeg (mkLeg "M002" "A2 vs B2" 1.75%float true))].

Definition signed_in : MockBettingAPI.State :=
  MockBettingAPI.mkState {["tok" := mkSession "test_user" 0]} ∅ 1000.

Definition ready (r : Random) : World MockBettingAPI.State :=
  mkWorld legs_heap r clock0 [] (Some "tok") signed_in.

(** What the mock answers for these legs and a stake of 5. *)
Definition accepted : PlacementResult :=
  mkPlacementResult (Some "B1000") "ACCEPTED" 2.19%float 10.94%float.

(** A random source under which the first placement attempt changes the
    odds and is rejected, and the second goes through: the second float
    drawn triggers the change, the fifth the rejection. *)
Definition odds_change_then_calm : Random :=
  mkRandom (fun n => match n with
                     | 1%nat => 0.01%float
                     | 4%nat => 0.1%float
                     | _ => 0.5%float
                     end)
           (fun _ => O) O O.


Definition mock_bot (user pass : string) : AccumulatorBot.Bot MockBettingAPI.State :=
  AccumulatorBot.mkBot _ (MockBettingAPI.client platform default_config) user pass.

(** The world after a login and a build with a stake of zero, and the
    placement that was built. *)
Definition zero_stake_setup : Outcome Placement * World MockBettingAPI.State :=
  (AccumulatorBot.login platform default_config (mock_bot "test_user" "test_pass");;
   AccumulatorBot.build_accumulator platform default_config
     (mock_bot "test_user" "test_pass") 0%float "top" 4)
    (start calm MockBettingAPI.init).

Definition zero_stake_placement : Placement :=
  match fst zero_stake_setup with
  | Ok p => p
  | Raise _ => mkPlacement O 0%float
  end.

(** A client whose placement call answers without a bet id. *)
Definition no_id_result : PlacementResult :=
  mkPlacementResult None "PENDING" 1%float 0%float.

Definition no_id_bot : AccumulatorBot.Bot MockBettingAPI.State :=
  AccumulatorBot.mkBot _
    (mkBettingAPI _
       (MockBettingAPI.authenticate default_config)
       (MockBettingAPI.get_available_matches platform default_config)
       (fun _ _ _ => ret no_id_result)
       (MockBettingAPI.get_bet default_config))
    "test_user" "test_pass".

End Scenario.

(** ** Further observations and cases *)

(** The next draw of [random.random()] lets a call to the mock service past
    its simulated network failure. *)
Definition network_up {S} (cfg : Config) (w : World S) : Prop :=
  (floats (rng w) (fpos (rng w)) <? SIMULATED_NETWORK_FAILURE_RATE cfg)%float = false.

(** The world after one draw of [random.random()]. *)
Definition drawn {S} (w : World S) : World S :=
  set_rng (mkRandom (floats (rng w)) (ints (rng w)) (Datatypes.S (fpos (rng w)))
             (ipos (rng w))) w.

(** The match dict that turn [i] of the loop of [get_available_matches]
    builds from the clock reading [now] and the next two random floats. *)
Definition match_of_turn (lib : Platform) (now : Z) (i : Z) (r : Random) : Match :=
  mkMatch ("M" ++ MockBettingAPI.pad3 i)
    ("Team" ++ pretty i ++ "A", "Team" ++ pretty i ++ "B")
    (isoformat lib (now + MockBettingAPI.minutes (30 + i * 10)))
    (PyFloat.round2 (1.15 + (3.5 - 1.15) * floats r (fpos r)))
    (PyFloat.gtb (floats r (Datatypes.S (fpos r))) 0.02).

(** A leg dict stands at the location. *)
Definition is_leg (h : gmap loc obj) (l : loc) : Prop :=
  exists g, h !! l = Some (OLeg g).

(** What the mock service asks of a leg before it places: available, and
    odds not below the minimum. *)
Definition leg_accepted (cfg : Config) (g : Leg) : bool :=
  leg_available g && negb (leg_odds g <? MIN_ODDS cfg)%float.

(** The error the validation raises for a leg it refuses. *)
Definition leg_refusal (cfg : Config) (g : Leg) : exn :=
  if negb (leg_available g)
  then MockAPIError ("Leg " ++ leg_match_id g ++ " unavailable at placement")
  else MockAPIError ("Leg " ++ leg_match_id g ++ " odds too low").

(** Every bet is stored under an id [B n] with [n] below the next id to be
    given out. *)
Definition ids_below (s : MockBettingAPI.State) : Prop :=
  forall id, is_Some (MockBettingAPI._bets s !! id) ->
    exists n, id = "B" ++ pretty n /\ n < MockBettingAPI._next_bet_id s.


Definition is_placement (c : remote_call) : Prop :=
  match c with CallPlaceAccumulator _ _ _ _ => True | _ => False end.

Definition is_get_bet (c : remote_call) : Prop :=
  match c with CallGetBet _ => True | _ => False end.

(** What a computation adds to the remote calls of the trace: at most [n]
    calls, all of kind [P], and at least one when it returns a value. *)
Definition calls_added {S A} (P : remote_call -> Prop) (n : nat) (c : M S A)
    (w : World S) : Prop :=
  exists l,
    calls (trace (snd (c w))) = (calls (trace w) ++ l)%list /\
    Forall P l /\ (length l <= n)%nat /\
    (forall a, fst (c w) = Ok a -> l <> []).

(** A client that leaves the record of remote calls to its caller. *)
Definition records_no_call {S} (api : BettingAPI S) : Prop :=
  (forall u p w, calls (trace (snd (api_authenticate api u p w))) = calls (trace w)) /\
  (forall w, calls (trace (snd (api_get_available_matches api w))) = calls (trace w)) /\
  (forall token legs stake w,
     calls (trace (snd (api_place_accumulator api token legs stake w))) = calls (trace w)) /\
  (forall id w, calls (trace (snd (api_get_bet api id w))) = calls (trace w)).

Module Cases.

(** An operation that fails until it has been tried [k] times, counting its
    tries in the remote state, and then returns the count. *)
Definition flaky (k : nat) : M nat nat :=
  fun w =>
    if (remote w <? k)%nat
    then (Raise (MockAPIError "not yet"), set_remote (Datatypes.S (remote w)) w)
    else (Ok (remote w), w).

(** A world for an operation run beside a counter of its invocations. *)
Definition counted {S} (s : S) : World (nat * S) :=
  mkWorld ∅ Scenario.calm Scenario.clock0 [] None (O, s).

End Cases.

(** ** The lock file and the entry point *)

(** The file operations the module uses, on a state [F] of the file system:
    [os.path.exists], writing a file anew ([open(path, "w")] and [write]) and
    [os.remove]. Writing and removing may fail with an [OSError], which is
    [None] here. *)
Record FileSystem (F : Type) := mkFileSystem {
  path_exists : string -> F -> bool;
  write_file : string -> string -> F -> option F;
  remove_file : string -> F -> option F
}.
Arguments path_exists {F}.
Arguments write_file {F}.
Arguments remove_file {F}.

Definition LOCKFILE : string := "accumulator_bot.lock".

(** The records [main] logs itself. *)
Inductive main_record :=
| LogOtherInstance
| LogStarting (now : string)
| LogRunCompleted.

(** What a run of [main] shows: its own log records and, between them, the
    events of the bot. *)
Inductive main_event :=
| EvMain (lvl : level) (r : main_record)
| EvBot (e : event).

(** How [main] ends: with an exception or without, the files it leaves and
    what it has shown. *)
Record Exit (F : Type) := mkExit {
  raised : option exn;
  files_after : F;
  shown : list main_event
}.
Arguments mkExit {F}.
Arguments raised {F}.
Arguments files_after {F}.
Arguments shown {F}.

Section EntryPoint.
Context {F : Type}.
Variable os : FileSystem F.
(** [os.getpid()]. *)
Variable pid : Z.
Variable lib : Platform.
Variable cfg : Config.
(** The random source as [random.seed(42)] leaves it. *)
Variable seeded : Random.

(** [None]: the [OSError] of a failed write, which nothing catches. *)
Definition acquire_lock (fs : F) : option (bool * F) :=
  if path_exists os LOCKFILE fs then Some (false, fs)
  else
    match write_file os LOCKFILE (pretty pid) fs with
    | Some fs' => Some (true, fs')
    | None => None
    end.

(** A failed removal is swallowed by [except Exception: pass]. *)
Definition release_lock (fs : F) : F :=
  if path_exists os LOCKFILE fs then
    match remove_file os LOCKFILE fs with
    | Some fs' => fs'
    | None => fs
    end
  else fs.

(** [main] in a process whose heap and clock are those of [w]: the new
    [MockBettingAPI] seeds the random source, the new bot has no session
    token, and the lock is released on the way out of the [try] block
    however it is left. [None]: the lock file could not be written. *)
Definition main (fs : F) (w : World unit) : option (Exit F) :=
  match acquire_lock fs with
  | None => None
  | Some (false, fs1) => Some (mkExit None fs1 [EvMain ERROR LogOtherInstance])
  | Some (true, fs1) =>
      let w1 := mkWorld (heap w) seeded (clock w) [] None MockBettingAPI.init in
      let bot := AccumulatorBot.mkBot _ (MockBettingAPI.client lib cfg)
                   (USERNAME cfg) (PASSWORD cfg) in
      match utcnow w1 with
      | (Raise e, _) => Some (mkExit (Some e) (release_lock fs1) [])
      | (Ok now, w2) =>
          let starting := EvMain INFO (LogStarting (isoformat lib now)) in
          match AccumulatorBot.run_once lib cfg bot (DEFAULT_STAKE cfg) w2 with
          | (Raise e, w3) =>
              Some (mkExit (Some e) (release_lock fs1)
                      (starting :: map EvBot (trace w3)))
          | (Ok _, w3) =>
              Some (mkExit None (release_lock fs1)
                      (starting :: map EvBot (trace w3) ++ [EvMain INFO LogRunCompleted]))
          end
      end
  end.

End EntryPoint.

Module Disk.

(** A file system that is a map from paths to contents and never fails. *)
Definition files : FileSystem (gmap string string) :=
  mkFileSystem _
    (fun p fs => bool_decide (is_Some (fs !! p)))
    (fun p c fs => Some (<[p := c]> fs))
    (fun p fs => Some (delete p fs)).

End Disk.

(** * Reasoning about runs *)

Section MonadFacts.
Context {S : Type}.

Lemma bind_ok_inv {A B} (c : M S A) (k : A -> M S B) w b w' :
  bind c k w = (Ok b, w') ->
  exists a w1, c w = (Ok a, w1) /\ k a w1 = (Ok b, w').
Proof.
  unfold bind. destruct (c w) as [[a|e] w1]; [eauto | discriminate].
Qed.

Lemma bind_ok {A B} (c : M S A) (k : A -> M S B) w a w1 :
  c w = (Ok a, w1) -> bind c k w = k a w1.
Proof. unfold bind. now intros ->. Qed.

Lemma bind_raise {A B} (c : M S A) (k : A -> M S B) w e w1 :
  c w = (Raise e, w1) -> bind c k w = (Raise e, w1).
Proof. unfold bind. now intros ->. Qed.

Lemma bind_assoc {A B C} (c : M S A) (k : A -> M S B) (k' : B -> M S C) w :
  bind (bind c k) k' w = bind c (fun a => bind (k a) k') w.
Proof. unfold bind. destruct (c w) as [[a|e] w1]; reflexivity. Qed.

Lemma try_except_ok {A} (c : M S A) h w a w1 :
  c w = (Ok a, w1) -> try_except c h w = (Ok a, w1).
Proof. unfold try_except. now intros ->. Qed.

Lemma try_except_raise {A} (c : M S A) h w e w1 :
  c w = (Raise e, w1) -> try_except c h w = h e w1.
Proof. unfold try_except. now intros ->. Qed.
End MonadFacts.

(** Invariants of the world that a computation keeps, whatever it returns or
    raises. *)
Section Keeps.
Context {S : Type}.
Variable I : World S -> Prop.

Lemma keeps_ret {A} (a : A) : keeps I (ret a).
Proof. intros w H. exact H. Qed.

Lemma keeps_raise {A} e : keeps I (raise (A := A) e).
Proof. intros w H. exact H. Qed.

Lemma keeps_read {A} (f : World S -> Outcome A) : keeps I (fun w => (f w, w)).
Proof. intros w H. exact H. Qed.

Lemma keeps_bind {A B} (c : M S A) (k : A -> M S B) :
  keeps I c -> (forall a, keeps I (k a)) -> keeps I (bind c k).
Proof.
  intros Hc Hk w H. unfold bind. specialize (Hc w H).
  destruct (c w) as [[a|e] w1]; cbn in *; [apply Hk|]; assumption.
Qed.

Lemma keeps_try_except {A} (c : M S A) h :
  keeps I c -> (forall e, keeps I (h e)) -> keeps I (try_except c h).
Proof.
  intros Hc Hh w H. unfold try_except. specialize (Hc w H).
  destruct (c w) as [[a|e] w1]; cbn in *; [|apply Hh]; assumption.
Qed.

Lemma keeps_mapM {A B} (f : A -> M S B) xs :
  (forall x, keeps I (f x)) -> keeps I (mapM f xs).
Proof.
  intros Hf. induction xs as [|x xs IH]; cbn.
  - apply keeps_ret.
  - apply keeps_bind; [apply Hf|]. intros y.
    apply keeps_bind; [apply IH|]. intros ys. apply keeps_ret.
Qed.

Lemma keeps_forM_ {A} (f : A -> M S unit) xs :
  (forall x, keeps I (f x)) -> keeps I (forM_ f xs).
Proof.
  intros Hf. induction xs as [|x xs IH]; cbn.
  - apply keeps_ret.
  - apply keeps_bind; [apply Hf|]. intros _. apply IH.
Qed.

Lemma keeps_read_list l : keeps I (read_list l).
Proof. intros w H. unfold read_list. now destruct (heap w !! l) as [[| |]|]. Qed.

Lemma keeps_read_match l : keeps I (read_match l).
Proof. intros w H. unfold read_match. now destruct (heap w !! l) as [[| |]|]. Qed.

Lemma keeps_read_leg l : keeps I (read_leg l).
Proof. intros w H. unfold read_leg. now destruct (heap w !! l) as [[| |]|]. Qed.

(** What the invariant must tolerate for the runtime's own effects. *)
Section Effects.
Hypothesis I_rng : forall w r, I w -> I (set_rng r w).
Hypothesis I_log : forall w lvl r, I w -> I (set_trace (trace w ++ [EvLog lvl r]) w).
Hypothesis I_sleep : forall w s, I w -> I (set_trace (trace w ++ [EvSleep s]) w).

Lemma keeps_random_random : keeps I random_random.
Proof. intros w H. apply I_rng, H. Qed.

Lemma keeps_randbelow n : keeps I (randbelow n).
Proof. intros w H. apply I_rng, H. Qed.

Lemma keeps_random_uniform a b : keeps I (random_uniform a b).
Proof.
  apply keeps_bind; [apply keeps_random_random|]. intros r. apply keeps_ret.
Qed.

Lemma keeps_random_randint a b : keeps I (random_randint a b).
Proof.
  apply keeps_bind; [apply keeps_randbelow|]. intros r. apply keeps_ret.
Qed.

Lemma keeps_log lvl r : keeps I (log lvl r).
Proof. intros w H. apply I_log, H. Qed.

Lemma keeps_sleep s : keeps I (sleep s).
Proof. intros w H. apply I_sleep, H. Qed.

Lemma keeps_exponential_backoff lib cfg attempt :
  keeps I (exponential_backoff lib cfg attempt).
Proof.
  apply keeps_bind; [apply keeps_random_random|]. intros r. apply keeps_ret.
Qed.

Lemma keeps_retry_loop {A} lib cfg (fn : M S A) max n :
  keeps I fn -> forall attempt last, keeps I (retry_loop lib cfg fn max n attempt last).
Proof.
  intros Hfn. induction n as [|n IH]; intros attempt last; cbn [retry_loop].
  - apply keeps_bind; [apply keeps_log|]. intros _.
    destruct last; apply keeps_raise.
  - apply keeps_try_except; [exact Hfn|]. intros e.
    apply keeps_bind; [apply keeps_exponential_backoff|]. intros wait.
    apply keeps_bind; [apply keeps_log|]. intros _.
    apply keeps_bind; [apply keeps_sleep|]. intros _. apply IH.
Qed.

Lemma keeps_retry_on_exception {A} lib cfg (fn : M S A) max :
  keeps I fn -> keeps I (retry_on_exception lib cfg fn max).
Proof. intros Hfn. apply keeps_retry_loop, Hfn. Qed.
End Effects.

End Keeps.

(** * Retry executor *)

Section RetryFacts.
Context {S : Type}.
Variable lib : Platform.
Variable cfg : Config.

Lemma exponential_backoff_run (attempt : Z) (w : World S) :
  exponential_backoff lib cfg attempt w =
    (Ok (float_pow lib (RETRY_BACKOFF_BASE cfg) (attempt - 1)
         + floats (rng w) (fpos (rng w)) * 0.5)%float,
     set_rng (mkRandom (floats (rng w)) (ints (rng w)) (Datatypes.S (fpos (rng w)))
                (ipos (rng w))) w).
Proof. reflexivity. Qed.

(** One failed attempt: the warning is logged, the delay is slept and the
    loop goes on with one iteration less. *)
Lemma retry_loop_failed {A} (fn : M S A) max n attempt last w e w1 :
  fn w = (Raise e, w1) ->
  retry_loop lib cfg fn max (Datatypes.S n) attempt last w =
    let wait := (float_pow lib (RETRY_BACKOFF_BASE cfg) (attempt - 1)
                 + floats (rng w1) (fpos (rng w1)) * 0.5)%float in
    retry_loop lib cfg fn max n (attempt + 1) (Some e)
      (mkWorld (heap w1)
         (mkRandom (floats (rng w1)) (ints (rng w1)) (Datatypes.S (fpos (rng w1)))
            (ipos (rng w1)))
         (clock w1)
         ((trace w1 ++ [EvLog WARNING (LogAttemptFailed attempt max e wait)])
            ++ [EvSleep wait])
         (session_token w1) (remote w1)).
Proof.
  intros Hfn. cbn [retry_loop]. unfold try_except. rewrite Hfn.
  reflexivity.
Qed.

Lemma retry_loop_succeeded {A} (fn : M S A) max n attempt last w a w1 :
  fn w = (Ok a, w1) ->
  retry_loop lib cfg fn max (Datatypes.S n) attempt last w = (Ok a, w1).
Proof.
  intros Hfn. cbn [retry_loop]. unfold try_except. now rewrite Hfn.
Qed.

Lemma retry_loop_exhausted {A} (fn : M S A) max attempt e w :
  retry_loop lib cfg fn max O attempt (Some e) w =
    (Raise e, set_trace (trace w ++ [EvLog ERROR (LogAllFailed max (Some e))]) w).
Proof. reflexivity. Qed.

End RetryFacts.

Section Exhaustion.
Context {S A : Type}.
Variable lib : Platform.
Variable cfg : Config.
Variable fn : M S A.
Hypothesis always_fails : forall w, exists e w', fn w = (Raise e, w').



End Exhaustion.




Section Backoff.
Context {S A : Type}.
Variable lib : Platform.
Variable cfg : Config.
Variable fn : M S A.

(** The operation fails every time, leaves the random oracle's future as it
    was (it may draw from it) and does not sleep itself. *)
Hypothesis fails_quietly : forall w, exists e w',
  fn w = (Raise e, w') /\
  floats (rng w') = floats (rng w) /\
  sleeps (trace w') = sleeps (trace w).



End Backoff.



(** * The bot *)

Section RunOnce.
Context {S : Type}.
Variable lib : Platform.
Variable cfg : Config.
Variable self : AccumulatorBot.Bot S.

(** [run_once] read as its first three steps followed by the rest. *)
Lemma run_once_steps stake w :
  AccumulatorBot.run_once lib cfg self stake w =
    try_except
      (let! placement_result := AccumulatorBot.steps_to_placement lib cfg self stake in
       match AccumulatorBot.truthy (pr_bet_id placement_result) with
       | None => log ERROR LogNoBetId;; ret None
       | Some id =>
           let! bet_info := AccumulatorBot.confirm_bet lib cfg self id in
           log INFO (LogFinal (bet_id bet_info) (bet_stake bet_info)
                       (bet_total_odd bet_info) (bet_potential_return bet_info));;
           AccumulatorBot._persist_bet bet_info;;
           ret None
       end)
      (fun e => log ERROR (LogRunFailed e);; ret None) w.
Proof.
  unfold AccumulatorBot.run_once, AccumulatorBot.steps_to_placement, try_except, bind.
  destruct (AccumulatorBot.login lib cfg self w) as [[[]|e] w1]; [|reflexivity].
  now destruct (AccumulatorBot.build_accumulator lib cfg self stake
                  (MATCH_SELECTION_MODE cfg) (MAX_LEGS cfg) w1) as [[p|e] w2].
Qed.

(** Whatever the body of [run_once] returns, it returns [None]. *)
Lemma run_once_body_none stake w v w' :
  (let! placement_result := AccumulatorBot.steps_to_placement lib cfg self stake in
   match AccumulatorBot.truthy (pr_bet_id placement_result) with
   | None => log ERROR LogNoBetId;; ret None
   | Some id =>
       let! bet_info := AccumulatorBot.confirm_bet lib cfg self id in
       log INFO (LogFinal (bet_id bet_info) (bet_stake bet_info)
                   (bet_total_odd bet_info) (bet_potential_return bet_info));;
       AccumulatorBot._persist_bet bet_info;;
       ret None
   end) w = (Ok v, w') ->
  v = @None BetInfo.
Proof.
  intros H. apply bind_ok_inv in H as (pr & w1 & _ & H).
  destruct (AccumulatorBot.truthy (pr_bet_id pr)).
  - apply bind_ok_inv in H as (info & w2 & _ & H).
    apply bind_ok_inv in H as (? & w3 & _ & H).
    apply bind_ok_inv in H as (? & w4 & _ & H).
    now inversion H.
  - apply bind_ok_inv in H as (? & w2 & _ & H). now inversion H.
Qed.

End RunOnce.



(** C5, as stated, fails: when the placement call returns no bet id,
    [run_once] does not raise; it logs an error and returns [None], with no
    confirmation call and nothing persisted. *)
Lemma missing_bet_id_not_raised :
  let run := AccumulatorBot.run_once Scenario.platform default_config
               Scenario.no_id_bot 5.0%float
               (Scenario.start Scenario.calm MockBettingAPI.init) in
  fst run = Ok None /\
  last (trace (snd run)) = Some (EvLog ERROR LogNoBetId) /\
  persisted (trace (snd run)) = [] /\
  ~ (exists e, fst run = Raise e).
Proof.
  vm_compute. repeat split. intros [e H]; discriminate.
Qed.

(** C5 (amended). If login, building and placement go through and the
    placement result has no bet id ([None] or the empty string), [run_once]
    logs one error record and returns [None] at once: it does not raise, makes
    no confirmation call and persists nothing. *)
Theorem missing_bet_id_logged_and_dropped {S} (lib : Platform) (cfg : Config)
    (self : AccumulatorBot.Bot S) (stake : float) (w : World S)
    (placement_result : PlacementResult) (w1 : World S) :
  AccumulatorBot.steps_to_placement lib cfg self stake w = (Ok placement_result, w1) ->
  AccumulatorBot.truthy (pr_bet_id placement_result) = None ->
  AccumulatorBot.run_once lib cfg self stake w =
    (Ok None, set_trace (trace w1 ++ [EvLog ERROR LogNoBetId]) w1).
Proof.
  intros Hsteps Hid. rewrite run_once_steps.
  apply try_except_ok. rewrite (bind_ok _ _ _ _ _ Hsteps), Hid. reflexivity.
Qed.

Lemma missing_bet_id_logged_and_dropped_witness :
  let w := Scenario.start Scenario.calm MockBettingAPI.init in
  let r := AccumulatorBot.steps_to_placement Scenario.platform default_config
             Scenario.no_id_bot 5.0%float w in
  AccumulatorBot.run_once Scenario.platform default_config Scenario.no_id_bot 5.0%float w =
    (Ok None, set_trace (trace (snd r) ++ [EvLog ERROR LogNoBetId]) (snd r)).
Proof.
  cbv zeta.
  apply (missing_bet_id_logged_and_dropped Scenario.platform default_config
           Scenario.no_id_bot 5.0%float _ Scenario.no_id_result).
  - vm_compute. reflexivity.
  - reflexivity.
Defined.

(** ** The placement guard *)

Section PlacementGuard.
Context {S : Type}.
Variable lib : Platform.
Variable cfg : Config.
Variable self : AccumulatorBot.Bot S.

(** The service may add to the trace but not rewrite it. *)
Hypothesis service_appends : forall token legs stake (w : World S),
  trace w `prefix_of` trace (snd (api_place_accumulator (AccumulatorBot.api self) token legs stake w)).

Lemma grows_rng t0 (w : World S) r : grows_from t0 w -> grows_from t0 (set_rng r w).
Proof. exact id. Qed.

Lemma grows_emit t0 (w : World S) e :
  grows_from t0 w -> grows_from t0 (set_trace (trace w ++ [e]) w).
Proof. unfold grows_from. cbn. intros H. now apply prefix_app_r. Qed.

Lemma keeps_service t0 token legs stake :
  keeps (grows_from t0) (api_place_accumulator (AccumulatorBot.api self) token legs stake).
Proof.
  intros w H. unfold grows_from in *. etrans; [exact H|]. apply service_appends.
Qed.

Lemma keeps_call_place t0 token legs stake :
  keeps (grows_from t0) (AccumulatorBot.call_place_accumulator self token legs stake).
Proof.
  apply keeps_bind.
  - intros w H. now apply grows_emit.
  - intros _. apply keeps_service.
Qed.

Lemma keeps_after_placement t0 h (K : PlacementResult -> M S PlacementResult)
    token legs stake :
  (forall e, keeps (grows_from t0) (h e)) ->
  (forall r, keeps (grows_from t0) (K r)) ->
  keeps (grows_from t0)
    (bind (try_except (api_place_accumulator (AccumulatorBot.api self) token legs stake) h) K).
Proof.
  intros Hh HK. apply keeps_bind; [|exact HK].
  apply keeps_try_except; [apply keeps_service | exact Hh].
Qed.

Lemma place_accumulator_calls_service placement token ls (w : World S) :
  AccumulatorBot.truthy (session_token w) = Some token ->
  heap w !! p_legs placement = Some (OList ls) ->
  1 <= MAX_RETRIES cfg ->
  (trace w ++
     [EvLog INFO (LogPlacing (p_stake placement) (length ls));
      EvCall (CallPlaceAccumulator token (p_legs placement)
                (sent_legs (heap w) (p_legs placement))
                (p_stake placement))])%list
    `prefix_of` trace (snd (AccumulatorBot.place_accumulator lib cfg self placement w)).
Proof.
  intros Htok Hlegs Hmax.
  set (t0 := (trace w ++ _)%list).
  unfold AccumulatorBot.place_accumulator.
  unfold bind at 1. rewrite Htok.
  unfold bind at 1. unfold read_list at 1. rewrite Hlegs.
  unfold bind at 1. cbn [log emit].
  unfold retry_on_exception.
  destruct (Z.to_nat (MAX_RETRIES cfg)) as [|n] eqn:Hn; [lia|].
  cbn [retry_loop].
  match goal with |- context [bind (try_except _ ?h) ?K ?w2] =>
    pose proof (keeps_after_placement t0 h K token (p_legs placement) (p_stake placement))
      as Hkeep;
    set (w3 := set_trace (trace w2 ++
                  [EvCall (CallPlaceAccumulator token (p_legs placement)
                             (sent_legs (heap w) (p_legs placement))
                             (p_stake placement))]) w2);
    change (t0 `prefix_of`
              trace (snd (bind (try_except
                                  (api_place_accumulator (AccumulatorBot.api self) token
                                     (p_legs placement) (p_stake placement)) h) K w3)))
  end.
  apply Hkeep.
  - intros e.
    apply keeps_bind; [apply keeps_exponential_backoff, grows_rng|]. intros wait.
    apply keeps_bind; [apply keeps_log; intros; now apply grows_emit|]. intros _.
    apply keeps_bind; [apply keeps_sleep; intros; now apply grows_emit|]. intros _.
    apply keeps_retry_loop;
      [apply grows_rng | intros; now apply grows_emit | intros; now apply grows_emit
      | apply keeps_call_place].
  - intros r. apply keeps_bind; [apply keeps_log; intros; now apply grows_emit|].
    intros _. apply keeps_ret.
  - unfold grows_from, w3, t0. cbn. now rewrite <- app_assoc.
Qed.
End PlacementGuard.

(** ** What the mock service touches *)

Ltac keeps_step :=
  lazymatch goal with
  | |- keeps _ (bind _ _) => apply keeps_bind; [|intros ?]
  | |- keeps _ (ret _) => apply keeps_ret
  | |- keeps _ (raise _) => apply keeps_raise
  | |- keeps _ (forM_ _ _) => apply keeps_forM_; intros ?
  | |- keeps _ (mapM _ _) => apply keeps_mapM; intros ?
  | |- keeps _ (read_list _) => apply keeps_read_list
  | |- keeps _ (read_leg _) => apply keeps_read_leg
  | |- keeps _ (read_match _) => apply keeps_read_match
  | |- keeps _ (if ?b then _ else _) => destruct b
  | |- keeps _ (match ?x with _ => _ end) => destruct x
  end.

Section MockKeeps.
Variable I : World MockBettingAPI.State -> Prop.
Variable lib : Platform.
Variable cfg : Config.
Hypothesis I_rng : forall w r, I w -> I (set_rng r w).
Hypothesis I_clock : forall w c, I w -> I (set_clock c w).
Hypothesis I_remote : forall w s, I w -> I (set_remote s w).
Hypothesis I_odds : forall l v, keeps I (set_leg_odds l v).

Lemma keeps_utcnow : keeps I utcnow.
Proof. intros w H. apply I_clock, H. Qed.

Lemma keeps_network_failure : keeps I (MockBettingAPI._maybe_network_failure cfg).
Proof.
  unfold MockBettingAPI._maybe_network_failure.
  keeps_step; [apply keeps_random_random, I_rng|]. repeat keeps_step.
Qed.

Lemma keeps_validate_leg l : keeps I (MockBettingAPI.validate_leg cfg l).
Proof. unfold MockBettingAPI.validate_leg. repeat keeps_step. Qed.

Lemma keeps_change_odds l : keeps I (MockBettingAPI.change_odds l).
Proof.
  unfold MockBettingAPI.change_odds. keeps_step; [keeps_step|].
  keeps_step; [apply keeps_random_uniform, I_rng|]. apply I_odds.
Qed.

Lemma keeps_mock_place token legs stake :
  keeps I (MockBettingAPI.place_accumulator lib cfg token legs stake).
Proof.
  unfold MockBettingAPI.place_accumulator.
  keeps_step; [apply keeps_network_failure|].
  keeps_step; [apply keeps_read|].
  keeps_step; [|keeps_step].
  keeps_step; [keeps_step|].
  keeps_step; [keeps_step; apply keeps_validate_leg|].
  keeps_step; [apply keeps_random_random, I_rng|].
  keeps_step.
  { keeps_step; [|keeps_step].
    keeps_step; [keeps_step; apply keeps_change_odds|].
    keeps_step; [apply keeps_random_random, I_rng|]. repeat keeps_step. }
  keeps_step; [apply keeps_read|].
  keeps_step; [intros w H; apply I_remote, H|].
  keeps_step; [repeat keeps_step|].
  keeps_step; [apply keeps_utcnow|].
  keeps_step; [intros w H; apply I_remote, H|].
  keeps_step.
Qed.
End MockKeeps.

(** The mock placement records nothing in the trace. *)
Lemma mock_place_trace lib cfg token legs stake (w : World MockBettingAPI.State) :
  trace (snd (MockBettingAPI.place_accumulator lib cfg token legs stake w)) = trace w.
Proof.
  apply (keeps_mock_place (fun w' => trace w' = trace w)); auto.
  intros l v w' H. unfold set_leg_odds. now destruct (heap w' !! l) as [[| |]|].
Qed.

(** C2, as stated, fails: with a session open, a placement whose stake is zero
    is sent to the service (and the mock accepts it); no local guard looks at
    the stake. *)
Lemma zero_stake_reaches_service :
  let w := snd Scenario.zero_stake_setup in
  let p := Scenario.zero_stake_placement in
  let run := AccumulatorBot.place_accumulator Scenario.platform default_config
               (Scenario.mock_bot "test_user" "test_pass") p w in
  p_stake p = 0%float /\
  calls (trace w) = [CallAuthenticate "test_user" "test_pass"; CallGetAvailableMatches] /\
  calls (trace (snd run)) =
    [CallAuthenticate "test_user" "test_pass"; CallGetAvailableMatches;
     CallPlaceAccumulator "session-10000" (p_legs p)
       (sent_legs (heap w) (p_legs p)) 0%float] /\
  fst run = Ok (mkPlacementResult (Some "B1000") "ACCEPTED" 29.47%float 0%float).
Proof. vm_compute. repeat split. Qed.

(** C2 (amended). The only local guard of [place_accumulator] is on the
    session token: without one it raises [RuntimeError] and leaves the world
    as it was; with one, and at least one attempt allowed, the placement is
    sent to the service whatever its stake (zero and negative stakes
    included), right after the bot logs that it is placing. *)
Theorem place_accumulator_guards_session_only {S} (lib : Platform) (cfg : Config)
    (self : AccumulatorBot.Bot S) (placement : Placement) (ls : list loc) (w : World S) :
  heap w !! p_legs placement = Some (OList ls) ->
  1 <= MAX_RETRIES cfg ->
  (forall token legs stake (w0 : World S),
      trace w0 `prefix_of`
        trace (snd (api_place_accumulator (AccumulatorBot.api self) token legs stake w0))) ->
  match AccumulatorBot.truthy (session_token w) with
  | None =>
      AccumulatorBot.place_accumulator lib cfg self placement w =
        (Raise (RuntimeError "Not authenticated"), w)
  | Some token =>
      (trace w ++
         [EvLog INFO (LogPlacing (p_stake placement) (length ls));
          EvCall (CallPlaceAccumulator token (p_legs placement)
                    (sent_legs (heap w) (p_legs placement))
                    (p_stake placement))])%list
        `prefix_of` trace (snd (AccumulatorBot.place_accumulator lib cfg self placement w))
  end.
Proof.
  intros Hlegs Hmax Happ.
  destruct (AccumulatorBot.truthy (session_token w)) as [token|] eqn:Htok.
  - now apply place_accumulator_calls_service.
  - unfold AccumulatorBot.place_accumulator, bind. now rewrite Htok.
Qed.

Lemma place_accumulator_guards_session_only_witness :
  let w := snd Scenario.zero_stake_setup in
  let p := Scenario.zero_stake_placement in
  (trace w ++
     [EvLog INFO (LogPlacing 0%float 4);
      EvCall (CallPlaceAccumulator "session-10000" (p_legs p)
                (sent_legs (heap w) (p_legs p)) 0%float)])%list
    `prefix_of`
    trace (snd (AccumulatorBot.place_accumulator Scenario.platform default_config
                  (Scenario.mock_bot "test_user" "test_pass") p w)).
Proof.
  cbv zeta.
  refine (place_accumulator_guards_session_only Scenario.platform default_config
            (Scenario.mock_bot "test_user" "test_pass") Scenario.zero_stake_placement
            [23; 24; 25; 26]%nat (snd Scenario.zero_stake_setup) _ _ _).
  - vm_compute. reflexivity.
  - vm_compute. discriminate.
  - intros token legs stake w0. cbn. now rewrite mock_place_trace.
Defined.

(** ** Placement by the mock service *)

Section MockPlacement.
Variable lib : Platform.
Variable cfg : Config.

Lemma read_list_inv {S} (w w' : World S) x xs :
  read_list x w = (Ok xs, w') -> heap w !! x = Some (OList xs) /\ w' = w.
Proof.
  unfold read_list. destruct (heap w !! x) as [[| |]|]; intros H; inversion H. auto.
Qed.

Lemma read_leg_inv {S} (w w' : World S) l g :
  read_leg l w = (Ok g, w') -> heap w !! l = Some (OLeg g) /\ w' = w.
Proof.
  unfold read_leg. destruct (heap w !! l) as [[| |]|]; intros H; inversion H. auto.
Qed.

(** Reading every leg returns the legs as the heap has them. *)
Lemma mapM_read_leg_inv {S} (w : World S) ls : forall gs w',
  mapM read_leg ls w = (Ok gs, w') ->
  w' = w /\
  omap (fun l => match heap w !! l with Some (OLeg g) => Some g | _ => None end) ls = gs.
Proof.
  induction ls as [|l ls IH]; intros gs w' H.
  - inversion H. auto.
  - cbn [mapM] in H. apply bind_ok_inv in H as (g & w1 & Hg & H).
    apply read_leg_inv in Hg as [Hg ->].
    apply bind_ok_inv in H as (gs' & w2 & Hgs & H).
    apply IH in Hgs as [-> Hgs]. inversion H. subst. split; [reflexivity|].
    cbn. now rewrite Hg.
Qed.

(** The list object passed as [legs] stays the list it was. *)
Lemma mock_place_keeps_list token legs stake ls :
  keeps (fun w => heap w !! legs = Some (OList ls))
    (MockBettingAPI.place_accumulator lib cfg token legs stake).
Proof.
  apply keeps_mock_place; auto.
  intros l v w H. unfold set_leg_odds.
  destruct (heap w !! l) as [[| |]|] eqn:Hl; auto. cbn.
  rewrite lookup_insert_ne; [exact H|]. intros ->. congruence.
Qed.

(** The mock service leaves the heap alone once it has read the legs for the
    total, and answers from what it read. *)
Lemma mock_place_accepted token legs stake (w : World MockBettingAPI.State) r w' :
  MockBettingAPI.place_accumulator lib cfg token legs stake w = (Ok r, w') ->
  exists ls gs (n : Z),
    heap w' !! legs = Some (OList ls) /\
    omap (fun l => match heap w' !! l with Some (OLeg g) => Some g | _ => None end) ls = gs /\
    r = mkPlacementResult (Some ("B" ++ pretty n)) "ACCEPTED"
          (PyFloat.round2 (MockBettingAPI.product (map leg_odds gs)))
          (PyFloat.round2 (stake * MockBettingAPI.product (map leg_odds gs))%float).
Proof.
  intros H.
  assert (Hkeep := fun ls => mock_place_keeps_list token legs stake ls w).
  rewrite H in Hkeep. cbn [snd] in Hkeep.
  unfold MockBettingAPI.place_accumulator in H.
  apply bind_ok_inv in H as ([] & w1 & Hnet & H).
  apply bind_ok_inv in H as (sessions & w2 & Hs & H).
  destruct (sessions !! token) as [session|]; [|discriminate].
  apply bind_ok_inv in H as (ls & w3 & Hls & H).
  apply bind_ok_inv in H as ([] & w4 & Hval & H).
  apply bind_ok_inv in H as (r0 & w5 & Hr0 & H).
  apply bind_ok_inv in H as ([] & w6 & Hchange & H).
  apply bind_ok_inv in H as (n & w7 & Hn & H).
  apply bind_ok_inv in H as ([] & w8 & Hincr & H).
  apply bind_ok_inv in H as (gs & w9 & Hgs & H).
  apply bind_ok_inv in H as (now & w10 & Hnow & H).
  apply bind_ok_inv in H as ([] & w11 & Hstore & H).
  apply mapM_read_leg_inv in Hgs as [-> Hgs].
  inversion Hnow; subst; clear Hnow. inversion Hstore; subst; clear Hstore.
  inversion H; subst; clear H. cbn [heap set_remote set_clock] in *.
  exists ls, (omap (fun l => match heap w8 !! l with Some (OLeg g) => Some g | _ => None end) ls), n.
  split; [|split; reflexivity].
  apply Hkeep. apply read_list_inv in Hls as [Hls _].
  inversion Hs; subst; clear Hs.
  unfold MockBettingAPI._maybe_network_failure, bind, random_random in Hnet.
  destruct (PrimFloat.ltb _ _) in Hnet; inversion Hnet; subst. exact Hls.
Qed.
End MockPlacement.

(** C9, as stated, fails: for legs at odds 1.25 and 1.75 the product is
    2.1875, and the accepted result carries combined odds of 2.19, the product
    rounded to two decimals. *)
Lemma combined_odds_rounded_not_exact :
  let w := Scenario.ready Scenario.calm in
  let run := MockBettingAPI.place_accumulator Scenario.platform default_config
               "tok" O 5.0%float w in
  let submitted := MockBettingAPI.product (map leg_odds (sent_legs (heap w) O)) in
  fst run = Ok (mkPlacementResult (Some "B1000") "ACCEPTED" 2.19%float 10.94%float) /\
  submitted = 2.1875%float /\
  (2.19 =? submitted)%float = false.
Proof. vm_compute. repeat split. Qed.

(** C9 (amended). For every placement the mock service accepts, the combined
    odds of the result are the product of the legs' odds rounded to two
    decimals, and the potential return is the stake times the unrounded
    product, rounded to two decimals; the odds that enter the product are
    those the leg dicts hold when the call returns, that is, after any odds
    change the service applied during the call. *)
Theorem accepted_placement_amounts (lib : Platform) (cfg : Config)
    (token : string) (legs : loc) (stake : float)
    (w : World MockBettingAPI.State) (r : PlacementResult) (w' : World MockBettingAPI.State) :
  MockBettingAPI.place_accumulator lib cfg token legs stake w = (Ok r, w') ->
  let total_odd :=
    MockBettingAPI.product (map leg_odds (sent_legs (heap w') legs)) in
  pr_status r = "ACCEPTED" /\
  pr_total_odd r = PyFloat.round2 total_odd /\
  pr_potential_return r = PyFloat.round2 (stake * total_odd)%float.
Proof.
  intros H. apply mock_place_accepted in H as (ls & gs & n & Hls & Hgs & ->).
  unfold sent_legs. rewrite Hls, Hgs. cbn. auto.
Qed.

Lemma accepted_placement_amounts_witness :
  let run := MockBettingAPI.place_accumulator Scenario.platform default_config
               "tok" O 5.0%float (Scenario.ready Scenario.calm) in
  let total_odd :=
    MockBettingAPI.product (map leg_odds (sent_legs (heap (snd run)) O)) in
  pr_status Scenario.accepted = "ACCEPTED" /\
  pr_total_odd Scenario.accepted = PyFloat.round2 total_odd /\
  pr_potential_return Scenario.accepted = PyFloat.round2 (5.0 * total_odd)%float.
Proof.
  cbv zeta.
  apply (accepted_placement_amounts Scenario.platform default_config "tok" O 5.0%float
           (Scenario.ready Scenario.calm)).
  vm_compute. reflexivity.
Defined.

(** ** Retried placements *)

Lemma framed_map (h h0 : gmap loc obj) (xs : list loc) :
  Forall (fun l => exists g g0,
              h !! l = Some (OLeg g) /\ h0 !! l = Some (OLeg g0) /\
              leg_frame g = leg_frame g0) xs ->
  map leg_frame (omap (fun l => match h !! l with Some (OLeg g) => Some g | _ => None end) xs) =
  map leg_frame (omap (fun l => match h0 !! l with Some (OLeg g) => Some g | _ => None end) xs).
Proof.
  induction 1 as [|l xs' (g & g0 & Hg & Hg0 & Hframe) _ IH]; [reflexivity|].
  cbn. rewrite Hg, Hg0. cbn. now rewrite Hframe, IH.
Qed.

Section Resend.
Variable lib : Platform.
Variable cfg : Config.
Variable h0 : gmap loc obj.
Variable placement : Placement.
Variable ls : list loc.
Variable t0 : list event.
Hypothesis legs_listed : h0 !! p_legs placement = Some (OList ls).

(** The legs keep their frame and every call added to the trace resends
    them. *)
Let inv (w : World MockBettingAPI.State) : Prop :=
  legs_framed h0 (p_legs placement) ls w /\
  exists t, trace w = (t0 ++ t)%list /\ Forall (resends h0 placement) (calls t).

Lemma framed_sent (w : World MockBettingAPI.State) :
  legs_framed h0 (p_legs placement) ls w ->
  map leg_frame (sent_legs (heap w) (p_legs placement)) =
  map leg_frame (sent_legs h0 (p_legs placement)).
Proof.
  intros [Hlist Hlegs]. unfold sent_legs. rewrite Hlist, legs_listed.
  now apply framed_map.
Qed.

Lemma inv_trace_free (w : World MockBettingAPI.State) (e : event) :
  match e with EvCall _ => False | _ => True end ->
  inv w -> inv (set_trace (trace w ++ [e]) w).
Proof.
  intros He [Hf (t & Ht & Hcalls)]. split; [exact Hf|].
  exists (t ++ [e])%list. cbn. split; [now rewrite Ht, app_assoc|].
  unfold calls. rewrite omap_app. destruct e; try contradiction; cbn;
    now rewrite app_nil_r.
Qed.

Lemma inv_set_leg_odds l v : keeps inv (set_leg_odds l v).
Proof.
  intros w [[Hlist Hlegs] Htrace]. unfold set_leg_odds.
  destruct (heap w !! l) as [[|g|]|] eqn:Hl; try (split; [split|]; assumption).
  split; [split|exact Htrace]; cbn.
  - rewrite lookup_insert_ne; [exact Hlist|]. intros ->. congruence.
  - eapply Forall_impl; [exact Hlegs|]. intros l' (g' & g0 & Hg' & Hg0 & Hframe).
    destruct (decide (l = l')) as [->|Hne].
    + rewrite lookup_insert_eq. eexists _, g0. split; [reflexivity|]. split; [exact Hg0|].
      rewrite Hl in Hg'. inversion Hg'. subst g'. exact Hframe.
    + rewrite lookup_insert_ne by exact Hne. eauto.
Qed.

Lemma inv_mock_place token legs stake :
  keeps inv (MockBettingAPI.place_accumulator lib cfg token legs stake).
Proof.
  apply keeps_mock_place; auto using inv_set_leg_odds.
Qed.

Lemma inv_call_place (self : AccumulatorBot.Bot MockBettingAPI.State) token :
  AccumulatorBot.api self = MockBettingAPI.client lib cfg ->
  keeps inv (AccumulatorBot.call_place_accumulator self token
               (p_legs placement) (p_stake placement)).
Proof.
  intros Hapi. unfold AccumulatorBot.call_place_accumulator. rewrite Hapi.
  apply keeps_bind; [|intros _; apply inv_mock_place].
  intros w [Hf (t & Ht & Hcalls)]. split; [exact Hf|]. cbn.
  eexists (t ++ [_])%list. split; [now rewrite Ht, app_assoc|].
  unfold calls. rewrite omap_app. apply Forall_app. split; [exact Hcalls|].
  cbn. repeat constructor. now apply framed_sent.
Qed.

Lemma inv_place_accumulator (self : AccumulatorBot.Bot MockBettingAPI.State) :
  AccumulatorBot.api self = MockBettingAPI.client lib cfg ->
  keeps inv (AccumulatorBot.place_accumulator lib cfg self placement).
Proof.
  intros Hapi. unfold AccumulatorBot.place_accumulator.
  apply keeps_bind; [apply keeps_read|]. intros token.
  destruct (AccumulatorBot.truthy token) as [tok|]; [|apply keeps_raise].
  apply keeps_bind; [apply keeps_read_list|]. intros legs.
  apply keeps_bind; [apply keeps_log; intros; now apply inv_trace_free|]. intros _.
  apply keeps_bind.
  - apply keeps_retry_on_exception; auto.
    + intros. now apply inv_trace_free.
    + intros. now apply inv_trace_free.
    + now apply inv_call_place.
  - intros r. apply keeps_bind; [apply keeps_log; intros; now apply inv_trace_free|].
    intros _. apply keeps_ret.
Qed.

Lemma resend_invariant (self : AccumulatorBot.Bot MockBettingAPI.State)
    (w : World MockBettingAPI.State) :
  AccumulatorBot.api self = MockBettingAPI.client lib cfg ->
  legs_framed h0 (p_legs placement) ls w ->
  trace w = t0 ->
  exists t,
    trace (snd (AccumulatorBot.place_accumulator lib cfg self placement w)) = (t0 ++ t)%list /\
    Forall (resends h0 placement) (calls t).
Proof.
  intros Hapi Hf Ht.
  apply (inv_place_accumulator self Hapi w). split; [exact Hf|].
  exists []. rewrite app_nil_r. split; [exact Ht | constructor].
Qed.
End Resend.

(** C3, as stated, fails: the first attempt changes the odds of the shared
    leg dicts and is rejected, and the retry sends the changed odds (1.26 and
    1.77), not the odds selected (1.25 and 1.75). *)
Lemma retry_sends_changed_odds :
  let run := AccumulatorBot.place_accumulator Scenario.platform default_config
               (Scenario.mock_bot "test_user" "test_pass")
               (mkPlacement O 5.0%float)
               (Scenario.ready Scenario.odds_change_then_calm) in
  map (map leg_odds) (placements (trace (snd run))) =
    [[1.25; 1.75]; [1.26; 1.77]]%float /\
  map (map leg_match_id) (placements (trace (snd run))) =
    [["M001"; "M002"]; ["M001"; "M002"]] /\
  fst run = Ok (mkPlacementResult (Some "B1000") "ACCEPTED" 2.23%float 11.15%float).
Proof. vm_compute. repeat split. Qed.

(** C3 (amended). Every attempt of [place_accumulator], first or retried,
    passes the service the same list object and stake, and that list holds
    the same leg dicts in the same order with the identifiers, selections and
    availability flags they had when the placement began; the odds sent are
    the ones these shared dicts hold at the time of the attempt, so they are
    the selected odds only until an attempt changes them. *)
Theorem retries_resend_same_legs (lib : Platform) (cfg : Config)
    (self : AccumulatorBot.Bot MockBettingAPI.State) (placement : Placement)
    (ls : list loc) (w : World MockBettingAPI.State) :
  AccumulatorBot.api self = MockBettingAPI.client lib cfg ->
  heap w !! p_legs placement = Some (OList ls) ->
  Forall (fun l => exists g, heap w !! l = Some (OLeg g)) ls ->
  exists t,
    trace (snd (AccumulatorBot.place_accumulator lib cfg self placement w)) =
      (trace w ++ t)%list /\
    Forall (resends (heap w) placement) (calls t).
Proof.
  intros Hapi Hlist Hlegs.
  apply (resend_invariant lib cfg (heap w) placement ls (trace w) Hlist self w Hapi);
    [|reflexivity].
  split; [exact Hlist|]. eapply Forall_impl; [exact Hlegs|].
  intros l [g Hg]. now exists g, g.
Qed.

Lemma retries_resend_same_legs_witness :
  let w := Scenario.ready Scenario.odds_change_then_calm in
  exists t,
    trace (snd (AccumulatorBot.place_accumulator Scenario.platform default_config
                  (Scenario.mock_bot "test_user" "test_pass") (mkPlacement O 5.0%float) w)) =
      (trace w ++ t)%list /\
    Forall (resends (heap w) (mkPlacement O 5.0%float)) (calls t).
Proof.
  cbv zeta.
  apply (retries_resend_same_legs Scenario.platform default_config
           (Scenario.mock_bot "test_user" "test_pass") (mkPlacement O 5.0%float)
           [1; 2]%nat).
  - reflexivity.
  - vm_compute. reflexivity.
  - repeat constructor; eexists; vm_compute; reflexivity.
Defined.

(** * Sorting *)

Section SortFacts.
Context {K A : Type} (ltb : K -> K -> bool) (key : A -> K).

Lemma insert_decorated x ys :
  PyList.insert ltb (key x, x) (map (fun a => (key a, a)) ys) =
  map (fun a => (key a, a)) (PyList.insert_by ltb key x ys).
Proof.
  induction ys as [|y ys IH]; cbn; [reflexivity|].
  destruct (ltb (key y) (key x)); cbn; [now rewrite IH | reflexivity].
Qed.

Lemma sort_by_cons x xs :
  PyList.sort_by ltb key (x :: xs) =
  PyList.insert_by ltb key x (PyList.sort_by ltb key xs).
Proof. reflexivity. Qed.

Lemma stable_sort_decorated xs :
  PyList.stable_sort ltb (map (fun a => (key a, a)) xs) =
  map (fun a => (key a, a)) (PyList.sort_by ltb key xs).
Proof.
  induction xs as [|x xs IH]; [reflexivity|].
  rewrite sort_by_cons, <- insert_decorated, <- IH. reflexivity.
Qed.

Lemma zip_decorated xs : zip (map key xs) xs = map (fun a => (key a, a)) xs.
Proof. induction xs as [|x xs IH]; cbn; [reflexivity | now rewrite IH]. Qed.

(** Sorting the decorated list and dropping the keys is sorting by key. *)
Lemma sorted_decorated reverse xs :
  PyList.sorted ltb reverse (zip (map key xs) xs) = PyList.sorted_by ltb key reverse xs.
Proof.
  unfold PyList.sorted, PyList.sorted_by. rewrite zip_decorated.
  destruct reverse.
  - rewrite <- map_rev, stable_sort_decorated, <- map_rev, map_map. cbn. apply map_id.
  - rewrite stable_sort_decorated, map_map. cbn. apply map_id.
Qed.

Lemma insert_by_perm x ys : PyList.insert_by ltb key x ys ≡ₚ x :: ys.
Proof.
  induction ys as [|y ys IH]; cbn; [reflexivity|].
  destruct (ltb (key y) (key x)); [|reflexivity].
  rewrite IH. apply Permutation_swap.
Qed.

Lemma sort_by_perm xs : PyList.sort_by ltb key xs ≡ₚ xs.
Proof.
  induction xs as [|x xs IH]; [reflexivity|].
  rewrite sort_by_cons, insert_by_perm. now constructor.
Qed.

Lemma sorted_by_perm reverse xs : PyList.sorted_by ltb key reverse xs ≡ₚ xs.
Proof.
  unfold PyList.sorted_by. destruct reverse; [|apply sort_by_perm].
  rewrite <- Permutation_rev, sort_by_perm. symmetry. apply Permutation_rev.
Qed.

(** Keys on which [<] is a strict weak order. *)
Variable good : K -> Prop.
Hypothesis lt_asym : forall a b, good a -> good b -> ltb a b = true -> ltb b a = false.
Hypothesis le_trans : forall a b c, good a -> good b -> good c ->
  ltb b a = false -> ltb c b = false -> ltb c a = false.












End SortFacts.

(** * Order on floats and on strings *)

Module FloatFacts.
Import FloatOrder.














End FloatFacts.

Module StringFacts.








End StringFacts.

(** * Match selection *)

Section Selection.
Context {S : Type}.
Variable cfg : Config.

Lemma is_match_lookup h l : is_match h l -> exists m, h !! l = Some (OMatch m).
Proof.
  unfold is_match, match_at. intros [m H].
  destruct (h !! l) as [[| |]|]; try discriminate. eauto.
Qed.

Lemma read_match_run (w : World S) l m :
  match_at (heap w) l = Some m -> read_match l w = (Ok m, w).
Proof.
  unfold match_at, read_match. destruct (heap w !! l) as [[| |]|]; congruence.
Qed.

Lemma comprehension_run (w : World S) ms :
  Forall (is_match (heap w)) ms ->
  comprehension cfg ms w = (Ok (filter (fun l => passes_at cfg (heap w) l = true) ms), w).
Proof.
  induction 1 as [|l ms [m Hl] Hms IH]; [reflexivity|].
  cbn [comprehension]. rewrite (bind_ok _ _ _ _ _ (read_match_run w l m Hl)).
  rewrite (bind_ok _ _ _ _ _ IH). unfold ret.
  destruct (passes cfg m) eqn:Hp.
  - now rewrite filter_cons_True by (unfold passes_at; now rewrite Hl).
  - now rewrite filter_cons_False by (unfold passes_at; rewrite Hl; congruence).
Qed.

Lemma mapM_key_run {K} (key : loc -> M S K) (at_ : loc -> K) (w : World S) xs :
  Forall (fun l => key l w = (Ok (at_ l), w)) xs ->
  mapM key xs w = (Ok (map at_ xs), w).
Proof.
  induction 1 as [|l xs Hl Hxs IH]; [reflexivity|].
  cbn [mapM]. rewrite (bind_ok _ _ _ _ _ Hl), (bind_ok _ _ _ _ _ IH). reflexivity.
Qed.

Lemma key_odds_run (w : World S) l :
  is_match (heap w) l -> key_odds l w = (Ok (odds_at (heap w) l), w).
Proof.
  intros [m Hl]. unfold key_odds, odds_at.
  rewrite (bind_ok _ _ _ _ _ (read_match_run w l m Hl)), Hl. reflexivity.
Qed.

Lemma key_start_time_run (w : World S) l :
  is_match (heap w) l -> key_start_time l w = (Ok (start_time_at (heap w) l), w).
Proof.
  intros [m Hl]. unfold key_start_time, start_time_at.
  rewrite (bind_ok _ _ _ _ _ (read_match_run w l m Hl)), Hl. reflexivity.
Qed.

Lemma read_list_run (w : World S) x xs :
  heap w !! x = Some (OList xs) -> read_list x w = (Ok xs, w).
Proof. unfold read_list. now intros ->. Qed.

Lemma write_list_run (w : World S) x xs ys :
  heap w !! x = Some (OList xs) ->
  write_list x ys w = (Ok tt, set_heap (<[x := OList ys]> (heap w)) w).
Proof. unfold write_list. now intros ->. Qed.

Lemma list_sort_run {K} (ltb : K -> K -> bool) (key : loc -> M S K) (at_ : loc -> K)
    reverse (w : World S) x xs :
  heap w !! x = Some (OList xs) ->
  Forall (fun l => key l w = (Ok (at_ l), w)) xs ->
  list_sort ltb key reverse x w =
    (Ok tt, set_heap (<[x := OList (PyList.sorted_by ltb at_ reverse xs)]> (heap w)) w).
Proof.
  intros Hx Hkeys. unfold list_sort.
  rewrite (bind_ok _ _ _ _ _ (read_list_run w x xs Hx)).
  rewrite (bind_ok _ _ _ _ _ (mapM_key_run key at_ w xs Hkeys)).
  rewrite sorted_decorated. apply (write_list_run w x xs), Hx.
Qed.

Lemma take_slice_run (w : World S) x xs k :
  heap w !! x = Some (OList xs) ->
  take_slice x k w =
    (Ok (fresh (dom (heap w))),
     set_heap (<[fresh (dom (heap w)) := OList (PyList.slice_to xs k)]> (heap w)) w).
Proof.
  intros Hx. unfold take_slice.
  rewrite (bind_ok _ _ _ _ _ (read_list_run w x xs Hx)). reflexivity.
Qed.

Lemma randbelow_run n (w : World S) :
  randbelow n w =
    (Ok (ints (rng w) (ipos (rng w)) mod n)%nat,
     set_rng (mkRandom (floats (rng w)) (ints (rng w)) (fpos (rng w))
                (Datatypes.S (ipos (rng w)))) w).
Proof. reflexivity. Qed.

(** A swap inside the list keeps it a list of the same length whose
    elements all come from the old one. *)
Lemma swap_run (w : World S) x xs i j :
  heap w !! x = Some (OList xs) -> (i < length xs)%nat -> (j < length xs)%nat ->
  exists ys,
    swap x i j w = (Ok tt, set_heap (<[x := OList ys]> (heap w)) w) /\
    length ys = length xs /\
    (forall P : loc -> Prop, Forall P xs -> Forall P ys).
Proof.
  intros Hx Hi Hj. unfold swap.
  rewrite (bind_ok _ _ _ _ _ (read_list_run w x xs Hx)).
  destruct (lookup_lt_is_Some_2 xs j Hj) as [a Ha].
  destruct (lookup_lt_is_Some_2 xs i Hi) as [b Hb].
  rewrite Ha, Hb. eexists. split; [now apply (write_list_run w x xs)|]. split.
  - now rewrite !length_insert.
  - intros P HP. rewrite Forall_forall in HP.
    apply Forall_insert; [apply Forall_insert|].
    + now apply Forall_forall.
    + eapply HP, list_elem_of_lookup_2, Ha.
    + eapply HP, list_elem_of_lookup_2, Hb.
Qed.

Lemma shuffle_from_run n : forall (w : World S) x xs,
  heap w !! x = Some (OList xs) -> (n < length xs)%nat ->
  exists ys w',
    shuffle_from x n w = (Ok tt, w') /\
    heap w' = <[x := OList ys]> (heap w) /\
    length ys = length xs /\
    (forall P : loc -> Prop, Forall P xs -> Forall P ys).
Proof.
  induction n as [|n IH]; intros w x xs Hx Hn.
  - exists xs, w. repeat split; auto.
    symmetry. now apply insert_id.
  - cbn [shuffle_from].
    rewrite (bind_ok _ _ _ _ _ (randbelow_run (Datatypes.S (Datatypes.S n)) w)).
    set (j := (_ mod _)%nat).
    assert (Hj : (j < length xs)%nat).
    { pose proof (Nat.mod_upper_bound (ints (rng w) (ipos (rng w))) (Datatypes.S (Datatypes.S n))
                    ltac:(lia)). unfold j. lia. }
    match goal with |- context [bind (swap x _ j) _ ?w1] =>
      destruct (swap_run w1 x xs (Datatypes.S n) j Hx Hn Hj) as (ys & Hswap & Hlen & HP) end.
    rewrite (bind_ok _ _ _ _ _ Hswap).
    match goal with |- context [shuffle_from x n ?w2] =>
      destruct (IH w2 x ys) as (zs & w' & Hrun & Hheap & Hlen' & HP') end.
    { cbn. apply lookup_insert_eq. }
    { lia. }
    exists zs, w'. split; [exact Hrun|]. split.
    + rewrite Hheap. cbn. apply insert_insert_eq.
    + split; [lia | auto].
Qed.

Lemma random_shuffle_run (w : World S) x xs :
  heap w !! x = Some (OList xs) ->
  exists ys w',
    random_shuffle x w = (Ok tt, w') /\
    heap w' = <[x := OList ys]> (heap w) /\
    length ys = length xs /\
    (forall P : loc -> Prop, Forall P xs -> Forall P ys).
Proof.
  intros Hx. unfold random_shuffle.
  rewrite (bind_ok _ _ _ _ _ (read_list_run w x xs Hx)).
  destruct xs as [|x0 xs].
  - exists [], w. repeat split; auto. symmetry. now apply insert_id.
  - apply shuffle_from_run; [exact Hx | cbn; lia].
Qed.

Lemma slice_to_nil {A} k : PyList.slice_to (@nil A) k = [].
Proof. unfold PyList.slice_to. destruct (0 <=? k); apply firstn_nil. Qed.

Lemma slice_to_take {A} (xs : list A) k :
  exists n, PyList.slice_to xs k = take n xs /\ (0 <= k -> n = Z.to_nat k).
Proof.
  unfold PyList.slice_to. destruct (0 <=? k) eqn:Hk.
  - eauto.
  - eexists. split; [reflexivity|]. lia.
Qed.

(** Allocation picks a location that holds nothing yet. *)
Lemma fresh_unused (h : gmap loc obj) : h !! fresh (dom h) = None.
Proof. apply not_elem_of_dom, is_fresh. Qed.

Lemma is_match_insert_list h a xs l :
  h !! a = None -> is_match h l -> is_match (<[a := OList xs]> h) l.
Proof.
  intros Ha [m Hm]. exists m. unfold match_at in *.
  destruct (decide (a = l)) as [->|Hne].
  - now rewrite Ha in Hm.
  - now rewrite lookup_insert_ne.
Qed.

Lemma match_at_insert_list h a xs l :
  is_match h l -> h !! a = None -> match_at (<[a := OList xs]> h) l = match_at h l.
Proof.
  intros [m Hm] Ha. unfold match_at in *.
  destruct (decide (a = l)) as [->|Hne].
  - now rewrite Ha in Hm.
  - now rewrite lookup_insert_ne.
Qed.

Lemma choose_matches_run (w : World S) matches ms mode k :
  heap w !! matches = Some (OList ms) ->
  Forall (is_match (heap w)) ms ->
  let avail := filter (fun l => passes_at cfg (heap w) l = true) ms in
  exists r order w',
    choose_matches cfg matches mode k w = (Ok r, w') /\
    heap w' !! r = Some (OList (PyList.slice_to order k)) /\
    heap w !! r = None /\
    heap w ⊆ heap w' /\
    length order = length avail /\
    (forall P : loc -> Prop, Forall P avail -> Forall P order) /\
    (mode <> "random" -> order = ordered (heap w) mode avail).
Proof.
  intros Hms Hall avail. unfold choose_matches.
  rewrite (bind_ok _ _ _ _ _ (read_list_run w matches ms Hms)).
  rewrite (bind_ok _ _ _ _ _ (comprehension_run w ms Hall)).
  fold avail.
  assert (Havail : Forall (is_match (heap w)) avail).
  { apply Forall_forall. intros l Hl. apply list_elem_of_filter in Hl as [_ Hl].
    rewrite Forall_forall in Hall. now apply Hall. }
  set (a := fresh (dom (heap w))).
  assert (Ha : heap w !! a = None) by apply fresh_unused.
  unfold bind at 1. cbn [alloc]. fold a.
  set (w1 := set_heap (<[a := OList avail]> (heap w)) w).
  assert (Ha1 : heap w1 !! a = Some (OList avail)) by apply lookup_insert_eq.
  assert (Hsub1 : heap w ⊆ heap w1) by now apply insert_subseteq.
  assert (Hfinal : forall order (w2 : World S),
             heap w2 = <[a := OList order]> (heap w1) ->
             exists r w',
               take_slice a k w2 = (Ok r, w') /\
               heap w' !! r = Some (OList (PyList.slice_to order k)) /\
               heap w !! r = None /\
               heap w ⊆ heap w').
  { intros order w2 Hw2.
    assert (Hw2a : heap w2 !! a = Some (OList order)).
    { rewrite Hw2. apply lookup_insert_eq. }
    rewrite (take_slice_run w2 a order k Hw2a).
    assert (Hsub2 : heap w ⊆ heap w2).
    { rewrite Hw2. unfold w1. cbn. rewrite insert_insert_eq. now apply insert_subseteq. }
    do 2 eexists. split; [reflexivity|]. cbn. split; [apply lookup_insert_eq|]. split.
    - destruct (heap w !! fresh (dom (heap w2))) as [o|] eqn:Hr; [|reflexivity].
      apply (lookup_weaken _ _ _ _ Hr) in Hsub2. now rewrite fresh_unused in Hsub2.
    - etrans; [exact Hsub2|]. apply insert_subseteq, fresh_unused. }
  destruct avail as [|l0 avail'] eqn:Eavail.
  - exists (fresh (dom (heap w1))), [], (set_heap (<[fresh (dom (heap w1)) := OList []]> (heap w1)) w1).
    split; [reflexivity|]. cbn [heap set_heap].
    split; [now rewrite lookup_insert_eq, slice_to_nil|].
    split.
    { destruct (heap w !! fresh (dom (heap w1))) as [o|] eqn:Hr; [|reflexivity].
      apply (lookup_weaken _ _ _ _ Hr) in Hsub1. now rewrite fresh_unused in Hsub1. }
    split; [etrans; [exact Hsub1|]; apply insert_subseteq, fresh_unused|].
    split; [reflexivity|]. split; [auto|].
    intros _. unfold ordered. now destruct (String.eqb mode "from_feed").
  - rewrite <- Eavail in *. clear Eavail.
    destruct (String.eqb mode "random") eqn:Hrandom.
    + destruct (random_shuffle_run w1 a avail Ha1) as (ys & w2 & Hrun & Hheap & Hlen & HP).
      rewrite (bind_ok _ _ _ _ _ Hrun).
      destruct (Hfinal ys w2 Hheap) as (r & w' & Hslice & Hr & Hnew & Hsub).
      exists r, ys, w'. repeat split; auto.
      intros Hmode. apply String.eqb_eq in Hrandom. contradiction.
    + assert (Hall1 : Forall (is_match (heap w1)) avail).
      { eapply Forall_impl; [exact Havail|]. intros l Hl.
        now apply is_match_insert_list. }
      assert (Hperm : forall {K} ltb (key : loc -> K) rev (P : loc -> Prop),
                 Forall P avail -> Forall P (PyList.sorted_by ltb key rev avail)).
      { intros K ltb key rev P HP. now rewrite sorted_by_perm. }
      assert (Hlen : forall {K} ltb (key : loc -> K) rev,
                 length (PyList.sorted_by ltb key rev avail) = length avail).
      { intros K ltb key rev. now rewrite sorted_by_perm. }
      destruct (String.eqb mode "from_feed") eqn:Hfeed.
      * rewrite (bind_ok _ _ _ _ _
                   (list_sort_run String.ltb key_start_time (start_time_at (heap w))
                      false w1 a avail Ha1
                      ltac:(eapply Forall_impl; [exact Havail|]; intros l Hl;
                            rewrite key_start_time_run by (now apply is_match_insert_list);
                            unfold start_time_at; cbn [heap w1 set_heap];
                            now rewrite match_at_insert_list))).
        match goal with |- context [take_slice a k ?w2] =>
          destruct (Hfinal (PyList.sorted_by String.ltb (start_time_at (heap w)) false avail)
                      w2 eq_refl) as (r & w' & Hslice & Hr & Hnew & Hsub) end.
        exists r, (PyList.sorted_by String.ltb (start_time_at (heap w)) false avail), w'.
        repeat split; auto. intros _. unfold ordered. now rewrite Hfeed.
      * rewrite (bind_ok _ _ _ _ _
                   (list_sort_run PrimFloat.ltb key_odds (odds_at (heap w))
                      true w1 a avail Ha1
                      ltac:(eapply Forall_impl; [exact Havail|]; intros l Hl;
                            rewrite key_odds_run by (now apply is_match_insert_list);
                            unfold odds_at; cbn [heap w1 set_heap];
                            now rewrite match_at_insert_list))).
        match goal with |- context [take_slice a k ?w2] =>
          destruct (Hfinal (PyList.sorted_by PrimFloat.ltb (odds_at (heap w)) true avail)
                      w2 eq_refl) as (r & w' & Hslice & Hr & Hnew & Hsub) end.
        exists r, (PyList.sorted_by PrimFloat.ltb (odds_at (heap w)) true avail), w'.
        repeat split; auto. intros _. unfold ordered. now rewrite Hfeed.
Qed.

End Selection.

Section ListFacts.
Context {A : Type}.





End ListFacts.

Section SelectionClaims.
Context {S : Type}.
Variable cfg : Config.

Lemma passes_at_spec h l :
  passes_at cfg h l = true ->
  exists m, h !! l = Some (OMatch m) /\
            available m = true /\ PyFloat.geb (odds m) (MIN_ODDS cfg) = true.
Proof.
  unfold passes_at, match_at, passes.
  destruct (h !! l) as [[m| |]|]; try discriminate.
  intros H. apply andb_true_iff in H. eauto.
Qed.





End SelectionClaims.

Section SelectionTheorems.
Context {S : Type}.
Variable cfg : Config.

(** A match dict that was there before is the same after. *)
Lemma match_at_weaken (h h' : gmap loc obj) l :
  h ⊆ h' -> is_match h l -> match_at h' l = match_at h l.
Proof.
  intros Hsub [m Hm]. unfold match_at in *.
  destruct (h !! l) as [o|] eqn:Hl; [|discriminate].
  now rewrite (lookup_weaken _ _ _ _ Hl Hsub).
Qed.

(** What every mode returns: a new list object holding a prefix of a
    reordering of the matches that pass the filter, the heap of before
    still in place. *)
Lemma choose_matches_selected (w : World S) matches ms mode k :
  heap w !! matches = Some (OList ms) ->
  Forall (is_match (heap w)) ms ->
  let avail := filter (fun l => passes_at cfg (heap w) l = true) ms in
  exists r n order w',
    choose_matches cfg matches mode k w = (Ok r, w') /\
    heap w' !! r = Some (OList (take n order)) /\
    heap w !! r = None /\
    heap w ⊆ heap w' /\
    (0 <= k -> n = Z.to_nat k) /\
    length order = length avail /\
    Forall (fun l => passes_at cfg (heap w) l = true /\
                     match_at (heap w') l = match_at (heap w) l) order /\
    (mode <> "random" -> order = ordered (heap w) mode avail).
Proof.
  intros Hms Hall avail.
  destruct (choose_matches_run cfg w matches ms mode k Hms Hall)
    as (r & order & w' & Hrun & Hr & Hnew & Hsub & Hlen & HP & Hord).
  destruct (slice_to_take order k) as (n & Hn & Hk).
  exists r, n, order, w'. rewrite <- Hn. repeat split; auto.
  apply HP. apply Forall_forall. intros l Hl.
  apply list_elem_of_filter in Hl as [Hp Hin]. split; [exact Hp|].
  apply match_at_weaken; [exact Hsub|].
  rewrite Forall_forall in Hall. now apply Hall.
Qed.
End SelectionTheorems.

(** C7. On a list of match dicts and with [max_legs >= 0], [choose_matches]
    returns, in every mode, a list of at most [max_legs] elements, each of
    them available and with odds at least [MIN_ODDS]; when no match passes
    the filter the list is empty. *)
Theorem choose_matches_bounded_and_eligible {S} (cfg : Config) (w : World S)
    (matches : loc) (ms : list loc) (mode : string) (max_legs : Z) :
  heap w !! matches = Some (OList ms) ->
  Forall (is_match (heap w)) ms ->
  0 <= max_legs ->
  exists r sel w',
    choose_matches cfg matches mode max_legs w = (Ok r, w') /\
    heap w' !! r = Some (OList sel) /\
    Z.of_nat (length sel) <= max_legs /\
    Forall (fun l => exists m, heap w' !! l = Some (OMatch m) /\
                               available m = true /\
                               PyFloat.geb (odds m) (MIN_ODDS cfg) = true) sel /\
    (Forall (fun l => passes_at cfg (heap w) l = false) ms -> sel = []).
Proof.
  intros Hms Hall Hk.
  destruct (choose_matches_selected cfg w matches ms mode max_legs Hms Hall)
    as (r & n & order & w' & Hrun & Hr & _ & Hsub & Hn & Hlen & Hord & _).
  exists r, (take n order), w'. split; [exact Hrun|]. split; [exact Hr|]. split; [|split].
  - rewrite length_take, (Hn Hk). lia.
  - apply Forall_take. eapply Forall_impl; [exact Hord|].
    intros l [Hp _]. destruct (passes_at_spec cfg _ _ Hp) as (m & Hm & Ha & Ho).
    exists m. split; [|auto]. exact (lookup_weaken _ _ _ _ Hm Hsub).
  - intros Hnone.
    assert (Hnil : filter (fun l => passes_at cfg (heap w) l = true) ms = []).
    { clear -Hnone. induction Hnone as [|l ms Hl _ IH]; [reflexivity|].
      rewrite filter_cons_False by congruence. exact IH. }
    rewrite Hnil in Hlen. destruct order; [|discriminate]. apply take_nil.
Qed.


(** C10. In every mode, [random] included, [choose_matches] leaves its input
    as it was: the list object passed in holds the same elements in the same
    order, every match dict in it is unchanged (as is every other object that
    existed before the call), and the list returned is a new object. *)
Theorem choose_matches_leaves_input {S} (cfg : Config) (w : World S)
    (matches : loc) (ms : list loc) (mode : string) (max_legs : Z) :
  heap w !! matches = Some (OList ms) ->
  Forall (is_match (heap w)) ms ->
  exists r w',
    choose_matches cfg matches mode max_legs w = (Ok r, w') /\
    heap w' !! matches = Some (OList ms) /\
    Forall (fun l => heap w' !! l = heap w !! l) ms /\
    heap w ⊆ heap w' /\
    heap w !! r = None.
Proof.
  intros Hms Hall.
  destruct (choose_matches_selected cfg w matches ms mode max_legs Hms Hall)
    as (r & n & order & w' & Hrun & _ & Hnew & Hsub & _).
  exists r, w'. split; [exact Hrun|]. split; [exact (lookup_weaken _ _ _ _ Hms Hsub)|].
  split; [|auto].
  eapply Forall_impl; [exact Hall|]. intros l Hl.
  destruct (is_match_lookup _ _ Hl) as [m Hm].
  now rewrite Hm, (lookup_weaken _ _ _ _ Hm Hsub).
Qed.

(** The feed of the scenario, selected in each mode. *)
Example chosen_top : Scenario.chosen "top" 3 = Some [2; 3; 6]%nat.
Proof. vm_compute. reflexivity. Qed.

Example chosen_from_feed : Scenario.chosen "from_feed" 4 = Some [2; 3; 6; 1]%nat.
Proof. vm_compute. reflexivity. Qed.

Example chosen_random : Scenario.chosen "random" 2 = Some [2; 3]%nat.
Proof. vm_compute. reflexivity. Qed.

(** A negative [max_legs] cuts from the end, as Python slices do. *)
Example chosen_negative : Scenario.chosen "top" (-1) = Some [2; 3; 6]%nat.
Proof. vm_compute. reflexivity. Qed.

Lemma feed_is_list : heap Scenario.feed !! O = Some (OList [1; 2; 3; 4; 5; 6]%nat).
Proof. vm_compute. reflexivity. Defined.

Lemma feed_matches : Forall (is_match (heap Scenario.feed)) [1; 2; 3; 4; 5; 6]%nat.
Proof. repeat constructor; eexists; vm_compute; reflexivity. Defined.

Lemma choose_matches_bounded_and_eligible_witness :
  exists r sel w',
    choose_matches default_config O "top" 3 Scenario.feed = (Ok r, w') /\
    heap w' !! r = Some (OList sel) /\
    Z.of_nat (length sel) <= 3 /\
    Forall (fun l => exists m, heap w' !! l = Some (OMatch m) /\
                               available m = true /\
                               PyFloat.geb (odds m) (MIN_ODDS default_config) = true) sel /\
    (Forall (fun l => passes_at default_config (heap Scenario.feed) l = false)
       [1; 2; 3; 4; 5; 6]%nat -> sel = []).
Proof.
  apply (choose_matches_bounded_and_eligible default_config Scenario.feed O
           [1; 2; 3; 4; 5; 6]%nat "top" 3).
  - exact feed_is_list.
  - exact feed_matches.
  - lia.
Defined.


Lemma choose_matches_leaves_input_witness :
  exists r w',
    choose_matches default_config O "random" 3 Scenario.feed = (Ok r, w') /\
    heap w' !! O = Some (OList [1; 2; 3; 4; 5; 6]%nat) /\
    Forall (fun l => heap w' !! l = heap Scenario.feed !! l) [1; 2; 3; 4; 5; 6]%nat /\
    heap Scenario.feed ⊆ heap w' /\
    heap Scenario.feed !! r = None.
Proof.
  apply (choose_matches_leaves_input default_config Scenario.feed O
           [1; 2; 3; 4; 5; 6]%nat "random" 3).
  - exact feed_is_list.
  - exact feed_matches.
Defined.

(** * More on the retry executor *)

Section RetryOutcomes.
Context {S A : Type}.
Variable lib : Platform.
Variable cfg : Config.
Variable fn : M S A.

Lemma counting_invocations (w : World (nat * S)) :
  invocations (snd (counting fn w)) = Datatypes.S (invocations w).
Proof. unfold counting, invocations. now destruct (fn _) as [r w']. Qed.

Lemma counting_sleeps (w : World (nat * S)) :
  (forall w0, sleeps (trace (snd (fn w0))) = sleeps (trace w0)) ->
  sleeps (trace (snd (counting fn w))) = sleeps (trace w).
Proof.
  intros Hfn. unfold counting.
  specialize (Hfn (mkWorld (heap w) (rng w) (clock w) (trace w) (session_token w)
                     (snd (remote w)))).
  now destruct (fn _) as [r w'].
Qed.

(** A value that comes out of the loop is the value of the loop's last
    invocation, and the world is the one that invocation left. *)
Lemma retry_loop_ok_inv max n : forall attempt last (w : World S) a w',
  retry_loop lib cfg fn max n attempt last w = (Ok a, w') ->
  exists w0, fn w0 = (Ok a, w').
Proof.
  induction n as [|n IH]; intros attempt last w a w' H.
  - cbn in H. unfold bind, log, emit in H. destruct last; discriminate.
  - destruct (fn w) as [[a0|e] w1] eqn:Hfn.
    + rewrite (retry_loop_succeeded _ _ _ _ _ _ _ _ _ _ Hfn) in H.
      inversion H; subst. now exists w.
    + rewrite (retry_loop_failed _ _ _ _ _ _ _ _ _ _ Hfn) in H. cbn zeta in H.
      now apply IH in H.
Qed.

Lemma retry_ok_inv max (w : World S) a w' :
  retry_on_exception lib cfg fn max w = (Ok a, w') ->
  exists w0, fn w0 = (Ok a, w').
Proof. apply retry_loop_ok_inv. Qed.

(** An error that comes out of the loop after at least one attempt is the
    error of an invocation. *)
Lemma retry_loop_raise_inv max n : forall attempt last (w : World S) e w',
  retry_loop lib cfg fn max (Datatypes.S n) attempt last w = (Raise e, w') ->
  exists w0 w1, fn w0 = (Raise e, w1).
Proof.
  induction n as [|n IH]; intros attempt last w e w' H.
  - destruct (fn w) as [[a0|e0] w1] eqn:Hfn.
    + rewrite (retry_loop_succeeded _ _ _ _ _ _ _ _ _ _ Hfn) in H. discriminate.
    + rewrite (retry_loop_failed _ _ _ _ _ _ _ _ _ _ Hfn) in H. cbn zeta in H.
      rewrite retry_loop_exhausted in H. inversion H; subst. eauto.
  - destruct (fn w) as [[a0|e0] w1] eqn:Hfn.
    + rewrite (retry_loop_succeeded _ _ _ _ _ _ _ _ _ _ Hfn) in H. discriminate.
    + rewrite (retry_loop_failed _ _ _ _ _ _ _ _ _ _ Hfn) in H. cbn zeta in H.
      now apply IH in H.
Qed.

(** Success after [k - 1] failures: [k] invocations and [k - 1] delays. *)
Lemma retry_loop_ok_counts max n : forall attempt last (w : World (nat * S)) a w',
  (forall w0, sleeps (trace (snd (fn w0))) = sleeps (trace w0)) ->
  retry_loop lib cfg (counting fn) max n attempt last w = (Ok a, w') ->
  exists k w_last,
    (1 <= k <= n)%nat /\
    invocations w' = (invocations w + k)%nat /\
    counting fn w_last = (Ok a, w') /\
    length (sleeps (trace w')) = (length (sleeps (trace w)) + (k - 1))%nat.
Proof.
  intros attempt last w a w' Hquiet. revert attempt last w.
  induction n as [|n IH]; intros attempt last w H.
  - cbn in H. unfold bind, log, emit in H. destruct last; discriminate.
  - assert (Hinv := counting_invocations w). assert (Hsl := counting_sleeps w Hquiet).
    destruct (counting fn w) as [[a0|e] w1] eqn:Hfn; cbn [snd] in Hinv, Hsl.
    + rewrite (retry_loop_succeeded _ _ _ _ _ _ _ _ _ _ Hfn) in H.
      inversion H; subst. exists 1%nat, w. rewrite Hsl. repeat split; auto; lia.
    + rewrite (retry_loop_failed _ _ _ _ _ _ _ _ _ _ Hfn) in H. cbn zeta in H.
      apply IH in H as (k & wl & Hk & Hn & Hlast & Hlen).
      exists (Datatypes.S k), wl. unfold invocations in *. cbn [remote] in Hn.
      cbn [trace] in Hlen. unfold sleeps in Hlen. rewrite !omap_app in Hlen.
      cbn in Hlen. rewrite !length_app in Hlen. cbn in Hlen.
      fold (sleeps (trace w1)) in Hlen. rewrite Hsl in Hlen.
      unfold sleeps in *. repeat split; auto; lia.
Qed.

(** Whatever the operation does, the loop invokes it at most once per
    iteration, and at least once when there is an iteration. *)
Lemma retry_loop_bounds max n : forall attempt last (w : World (nat * S)),
  let w' := snd (retry_loop lib cfg (counting fn) max n attempt last w) in
  (invocations w + Nat.min 1 n <= invocations w' <= invocations w + n)%nat.
Proof.
  induction n as [|n IH]; intros attempt last w; cbn zeta.
  - cbn. unfold bind, log, emit. destruct last; cbn; unfold invocations; cbn; lia.
  - assert (Hinv := counting_invocations w).
    destruct (counting fn w) as [[a0|e] w1] eqn:Hfn; cbn [snd] in Hinv.
    + rewrite (retry_loop_succeeded _ _ _ _ _ _ _ _ _ _ Hfn). cbn [snd]. lia.
    + rewrite (retry_loop_failed _ _ _ _ _ _ _ _ _ _ Hfn). cbn zeta.
      match goal with |- context [retry_loop _ _ _ _ _ ?a ?l ?w2] =>
        specialize (IH a l w2) end.
      cbn zeta in IH. unfold invocations in *. cbn [remote] in IH. lia.
Qed.

End RetryOutcomes.

(** X1. With no attempt allowed ([max_retries <= 0]) the operation is never
    invoked: the exhaustion is logged with no last error, and raising
    [last_exc], which is still [None], is a [TypeError]. *)
Theorem retry_without_attempts {S A} (lib : Platform) (cfg : Config)
    (fn : M S A) (max_retries : Z) (w : World S) :
  max_retries <= 0 ->
  retry_on_exception lib cfg fn max_retries w =
    (Raise (TypeError "exceptions must derive from BaseException"),
     set_trace (trace w ++ [EvLog ERROR (LogAllFailed max_retries None)]) w).
Proof.
  intros Hmax. unfold retry_on_exception.
  destruct (Z.to_nat max_retries) eqn:Hn; [reflexivity | lia].
Qed.

Lemma retry_without_attempts_witness :
  retry_on_exception Scenario.platform default_config (Cases.flaky 0) 0
    (Scenario.start Scenario.calm O) =
    (Raise (TypeError "exceptions must derive from BaseException"),
     set_trace [EvLog ERROR (LogAllFailed 0 None)] (Scenario.start Scenario.calm O)).
Proof.
  apply (retry_without_attempts Scenario.platform default_config (Cases.flaky 0) 0
           (Scenario.start Scenario.calm O)).
  lia.
Defined.

(** X2. When [retry_on_exception] returns a value, the value and the final world
    are those of its last invocation of the operation: nothing is logged,
    slept or drawn after a success. That invocation is the [n]-th, with
    [1 <= n <= max_retries], and (for an operation that does not sleep
    itself) exactly [n - 1] delays were slept, one per failed attempt. *)
Theorem retry_success_after_failures {S A} (lib : Platform) (cfg : Config)
    (fn : M S A) (max_retries : Z) (w : World (nat * S)) (a : A) (w' : World (nat * S)) :
  (forall w0, sleeps (trace (snd (fn w0))) = sleeps (trace w0)) ->
  retry_on_exception lib cfg (counting fn) max_retries w = (Ok a, w') ->
  exists n w_last,
    (1 <= n)%nat /\ Z.of_nat n <= max_retries /\
    invocations w' = (invocations w + n)%nat /\
    counting fn w_last = (Ok a, w') /\
    length (sleeps (trace w')) = (length (sleeps (trace w)) + (n - 1))%nat.
Proof.
  intros Hquiet H. unfold retry_on_exception in H.
  apply retry_loop_ok_counts in H as (k & wl & Hk & Hn & Hlast & Hlen); [|exact Hquiet].
  exists k, wl. repeat split; auto; lia.
Qed.

Lemma retry_success_after_failures_witness :
  let run := retry_on_exception Scenario.platform default_config
               (counting (Cases.flaky 2)) 5 (Cases.counted O) in
  exists n w_last,
    (1 <= n)%nat /\ Z.of_nat n <= 5 /\
    invocations (snd run) = (invocations (Cases.counted O) + n)%nat /\
    counting (Cases.flaky 2) w_last = (Ok 2%nat, snd run) /\
    length (sleeps (trace (snd run))) =
      (length (sleeps (trace (Cases.counted O))) + (n - 1))%nat.
Proof.
  cbv zeta.
  apply (retry_success_after_failures Scenario.platform default_config (Cases.flaky 2) 5
           (Cases.counted O) 2%nat).
  - intros w0. unfold Cases.flaky. now destruct (remote w0 <? 2)%nat.
  - vm_compute. reflexivity.
Defined.

(** X3. Whatever the operation does and however the call ends,
    [retry_on_exception] invokes it at most [max_retries] times, and at least
    once when [max_retries >= 1]. *)
Theorem retry_invocations_bounded {S A} (lib : Platform) (cfg : Config)
    (fn : M S A) (max_retries : Z) (w : World (nat * S)) :
  let w' := snd (retry_on_exception lib cfg (counting fn) max_retries w) in
  (invocations w + Nat.min 1 (Z.to_nat max_retries) <= invocations w')%nat /\
  (invocations w' <= invocations w + Z.to_nat max_retries)%nat.
Proof. apply retry_loop_bounds. Qed.

(** * More on the mock service *)

Lemma Ok_pair_inv {S A} (a b : A) (w w' : World S) :
  (Ok a, w) = (Ok b, w') -> a = b /\ w = w'.
Proof. intros H. inversion H. auto. Qed.

Section MockService.
Variable lib : Platform.
Variable cfg : Config.

Lemma network_failure_run (w : World MockBettingAPI.State) :
  MockBettingAPI._maybe_network_failure cfg w =
    (if (floats (rng w) (fpos (rng w)) <? SIMULATED_NETWORK_FAILURE_RATE cfg)%float
     then Raise (MockAPIError "Simulated transient network error")
     else Ok tt,
     drawn w).
Proof.
  unfold MockBettingAPI._maybe_network_failure, bind, random_random, drawn.
  now destruct (_ <? _)%float.
Qed.

Lemma authenticate_run username password (w : World MockBettingAPI.State) :
  MockBettingAPI.authenticate cfg username password w =
    if (floats (rng w) (fpos (rng w)) <? SIMULATED_NETWORK_FAILURE_RATE cfg)%float
    then (Raise (MockAPIError "Simulated transient network error"), drawn w)
    else if String.eqb username "" || String.eqb password ""
    then (Raise (MockAPIError "Invalid credentials"), drawn w)
    else
      let n := 10000 + Z.of_nat (ints (rng w) (ipos (rng w))
                                 mod Z.to_nat (99999 - 10000 + 1)) in
      let token := "session-" ++ pretty n in
      let now := times (clock w) (ticks (clock w)) in
      (Ok token,
       mkWorld (heap w)
         (mkRandom (floats (rng w)) (ints (rng w)) (Datatypes.S (fpos (rng w)))
            (Datatypes.S (ipos (rng w))))
         (mkClock (times (clock w)) (Datatypes.S (ticks (clock w))))
         (trace w) (session_token w)
         (MockBettingAPI.mkState
            (<[token := mkSession username now]> (MockBettingAPI._sessions (remote w)))
            (MockBettingAPI._bets (remote w))
            (MockBettingAPI._next_bet_id (remote w)))).
Proof.
  unfold MockBettingAPI.authenticate. unfold bind at 1. rewrite network_failure_run.
  destruct (_ <? _)%float; [reflexivity|].
  destruct (String.eqb username "" || String.eqb password ""); reflexivity.
Qed.

Lemma get_bet_run id (w : World MockBettingAPI.State) :
  MockBettingAPI.get_bet cfg id w =
    (if (floats (rng w) (fpos (rng w)) <? SIMULATED_NETWORK_FAILURE_RATE cfg)%float
     then Raise (MockAPIError "Simulated transient network error")
     else match MockBettingAPI._bets (remote w) !! id with
          | Some info => Ok info
          | None => Raise (MockAPIError "Bet not found")
          end,
     drawn w).
Proof.
  unfold MockBettingAPI.get_bet. unfold bind at 1. rewrite network_failure_run.
  destruct (_ <? _)%float; [reflexivity|]. unfold bind. cbn.
  now destruct (_ !! id).
Qed.

End MockService.

(** X4. [authenticate] refuses an empty user name or an empty password: it raises
    a [MockAPIError] ([Invalid credentials], unless the simulated network
    failed first) and creates no session; only the random cursor moves. *)
Theorem authenticate_rejects_empty (cfg : Config) (username password : string)
    (w : World MockBettingAPI.State) :
  username = "" \/ password = "" ->
  exists msg,
    MockBettingAPI.authenticate cfg username password w =
      (Raise (MockAPIError msg), drawn w) /\
    (network_up cfg w -> msg = "Invalid credentials").
Proof.
  intros Hempty. rewrite authenticate_run. unfold network_up.
  destruct (_ <? _)%float.
  - eexists. split; [reflexivity|]. discriminate.
  - assert (String.eqb username "" || String.eqb password "" = true) as ->.
    { destruct Hempty as [-> | ->]; [reflexivity|]. apply orb_true_r. }
    eexists. split; reflexivity.
Qed.

Lemma authenticate_rejects_empty_witness :
  exists msg,
    MockBettingAPI.authenticate default_config "test_user" ""
      (Scenario.start Scenario.calm MockBettingAPI.init) =
      (Raise (MockAPIError msg), drawn (Scenario.start Scenario.calm MockBettingAPI.init)) /\
    (network_up default_config (Scenario.start Scenario.calm MockBettingAPI.init) ->
     msg = "Invalid credentials").
Proof.
  apply (authenticate_rejects_empty default_config "test_user" "").
  right. reflexivity.
Defined.

(** X5. A successful [authenticate] had non-empty credentials, returns a token
    [session-n] with [10000 <= n <= 99999], and records under that token a
    session for the user, issued at the clock reading of the call; the other
    sessions, the bets and the next bet id are as before. A session already
    stored under the same token is replaced. *)
Theorem authenticate_registers_session (cfg : Config) (username password : string)
    (w : World MockBettingAPI.State) (token : string) (w' : World MockBettingAPI.State) :
  MockBettingAPI.authenticate cfg username password w = (Ok token, w') ->
  username <> "" /\ password <> "" /\
  (exists n, token = "session-" ++ pretty n /\ 10000 <= n <= 99999) /\
  MockBettingAPI._sessions (remote w') =
    <[token := mkSession username (times (clock w) (ticks (clock w)))]>
      (MockBettingAPI._sessions (remote w)) /\
  MockBettingAPI._bets (remote w') = MockBettingAPI._bets (remote w) /\
  MockBettingAPI._next_bet_id (remote w') = MockBettingAPI._next_bet_id (remote w) /\
  heap w' = heap w /\ trace w' = trace w.
Proof.
  rewrite authenticate_run. destruct (_ <? _)%float; [discriminate|].
  destruct (String.eqb username "") eqn:Hu; [discriminate|].
  destruct (String.eqb password "") eqn:Hp; [discriminate|].
  cbn [orb]. cbn zeta. intros H. apply Ok_pair_inv in H as [<- <-].
  cbn [remote heap trace MockBettingAPI._sessions MockBettingAPI._bets
       MockBettingAPI._next_bet_id].
  apply String.eqb_neq in Hu, Hp. repeat split; auto.
  eexists. split; [reflexivity|].
  pose proof (Nat.mod_upper_bound (ints (rng w) (ipos (rng w)))
                (Z.to_nat (99999 - 10000 + 1))).
  lia.
Qed.

Lemma authenticate_registers_session_witness :
  let w := Scenario.start Scenario.calm MockBettingAPI.init in
  let w' := snd (MockBettingAPI.authenticate default_config "test_user" "test_pass" w) in
  "test_user" <> "" /\ "test_pass" <> "" /\
  (exists n, "session-10000" = "session-" ++ pretty n /\ 10000 <= n <= 99999) /\
  MockBettingAPI._sessions (remote w') =
    <["session-10000" := mkSession "test_user" (times (clock w) (ticks (clock w)))]>
      (MockBettingAPI._sessions (remote w)) /\
  MockBettingAPI._bets (remote w') = MockBettingAPI._bets (remote w) /\
  MockBettingAPI._next_bet_id (remote w') = MockBettingAPI._next_bet_id (remote w) /\
  heap w' = heap w /\ trace w' = trace w.
Proof.
  cbv zeta.
  apply (authenticate_registers_session default_config "test_user" "test_pass").
  vm_compute. reflexivity.
Defined.


(** ** The feed of matches *)

Section Feed.
Variable lib : Platform.
Variable cfg : Config.

Lemma add_match_run now matches i (w : World MockBettingAPI.State) xs :
  heap w !! matches = Some (OList xs) ->
  let l := fresh (dom (heap w)) in
  MockBettingAPI.add_match lib now matches i w =
    (Ok tt,
     mkWorld (<[matches := OList (xs ++ [l])]>
                (<[l := OMatch (match_of_turn lib now i (rng w))]> (heap w)))
       (mkRandom (floats (rng w)) (ints (rng w))
          (Datatypes.S (Datatypes.S (fpos (rng w)))) (ipos (rng w)))
       (clock w) (trace w) (session_token w) (remote w)).
Proof.
  intros Hxs l.
  assert (Hl : heap w !! l = None) by apply fresh_unused.
  assert (Hne : l <> matches) by (intros ->; congruence).
  unfold MockBettingAPI.add_match, random_uniform, bind, random_random, ret, alloc,
    read_list, write_list, set_heap, set_rng.
  cbn [heap rng floats ints fpos ipos clock trace session_token remote].
  fold l. rewrite lookup_insert_ne by exact Hne. rewrite Hxs.
  cbn [heap rng floats ints fpos ipos clock trace session_token remote].
  rewrite lookup_insert_ne by exact Hne. rewrite Hxs. reflexivity.
Qed.

(** The turns [idx] of the loop append one new match dict each and leave
    every other object alone. *)
Lemma add_matches_run now matches idx : forall (w : World MockBettingAPI.State) xs,
  heap w !! matches = Some (OList xs) ->
  exists ls ms w',
    forM_ (MockBettingAPI.add_match lib now matches) idx w = (Ok tt, w') /\
    heap w' !! matches = Some (OList (xs ++ ls)) /\
    Forall2 (fun l m => heap w' !! l = Some (OMatch m) /\ heap w !! l = None) ls ms /\
    NoDup ls /\
    Forall2 (fun i m => exists r, m = match_of_turn lib now i r) idx ms /\
    (forall l, l <> matches -> is_Some (heap w !! l) -> heap w' !! l = heap w !! l) /\
    clock w' = clock w /\ trace w' = trace w /\
    session_token w' = session_token w /\ remote w' = remote w.
Proof.
  induction idx as [|i idx IH]; intros w xs Hxs.
  - exists [], [], w. rewrite app_nil_r. repeat split; auto; constructor.
  - pose proof (add_match_run now matches i w xs Hxs) as Hrun. cbn zeta in Hrun.
    set (l := fresh (dom (heap w))) in *.
    assert (Hl : heap w !! l = None) by apply fresh_unused.
    assert (Hne : l <> matches) by (intros ->; congruence).
    match type of Hrun with _ = (_, ?w1) =>
      destruct (IH w1 (xs ++ [l])%list) as
        (ls & ms & w' & Hloop & Hlist & Hnew & Hdup & Hms & Hframe & Hc & Ht & Hs & Hr);
      [cbn [heap]; apply lookup_insert_eq|] end.
    cbn [heap clock trace session_token remote] in *.
    exists (l :: ls), (match_of_turn lib now i (rng w) :: ms), w'.
    split; [cbn [forM_]; now rewrite (bind_ok _ _ _ _ _ Hrun)|].
    split; [now rewrite Hlist, <- app_assoc|].
    assert (Hold : forall l0, (<[matches := OList (xs ++ [l])]>
                    (<[l := OMatch (match_of_turn lib now i (rng w))]> (heap w))) !! l0 = None ->
                  l0 <> l /\ l0 <> matches /\ heap w !! l0 = None).
    { intros l0 H0. destruct (decide (l0 = matches)) as [->|H1];
        [now rewrite lookup_insert_eq in H0|].
      rewrite lookup_insert_ne in H0 by congruence.
      destruct (decide (l0 = l)) as [->|H2]; [now rewrite lookup_insert_eq in H0|].
      rewrite lookup_insert_ne in H0 by congruence. auto. }
    split; [|split; [|split; [|split]]].
    + constructor.
      * split; [|exact Hl]. rewrite Hframe; [|exact Hne|].
        -- rewrite lookup_insert_ne by congruence. apply lookup_insert_eq.
        -- rewrite lookup_insert_ne by congruence. rewrite lookup_insert_eq. eauto.
      * eapply Forall2_impl; [exact Hnew|]. intros l0 m [Hm H0]. split; [exact Hm|].
        now apply Hold in H0.
    + constructor; [|exact Hdup]. intros Hin.
      destruct (list_elem_of_lookup_1 _ _ Hin) as [k Hk].
      destruct (Forall2_lookup_l _ _ _ _ _ Hnew Hk) as (m & _ & _ & H0).
      apply Hold in H0. tauto.
    + constructor; [eauto | exact Hms].
    + intros l0 H1 H2. destruct (decide (l0 = l)) as [->|H3].
      { rewrite Hl in H2. now destruct H2. }
      rewrite Hframe; [|exact H1|].
      * rewrite lookup_insert_ne by congruence. now rewrite lookup_insert_ne by congruence.
      * rewrite lookup_insert_ne by congruence. now rewrite lookup_insert_ne by congruence.
    + auto.
Qed.

(** [get_available_matches] once the network check is passed. *)
Lemma get_available_matches_run (w : World MockBettingAPI.State) :
  (floats (rng w) (fpos (rng w)) <? SIMULATED_NETWORK_FAILURE_RATE cfg)%float = false ->
  let now := times (clock w) (ticks (clock w)) in
  exists l ls ms w',
    MockBettingAPI.get_available_matches lib cfg w = (Ok l, w') /\
    heap w !! l = None /\
    heap w' !! l = Some (OList ls) /\
    Forall2 (fun x m => heap w' !! x = Some (OMatch m) /\ heap w !! x = None) ls ms /\
    NoDup ls /\
    Forall2 (fun i m => exists r, m = match_of_turn lib now i r) (map Z.of_nat (seq 1 20)) ms /\
    heap w ⊆ heap w' /\
    trace w' = trace w /\ session_token w' = session_token w /\ remote w' = remote w.
Proof.
  intros Hup now.
  set (l := fresh (dom (heap w))).
  assert (Hl : heap w !! l = None) by apply fresh_unused.
  set (w0 := mkWorld (<[l := OList []]> (heap w))
               (rng (drawn w : World MockBettingAPI.State))
               (mkClock (times (clock w)) (Datatypes.S (ticks (clock w))))
               (trace w) (session_token w) (remote w)).
  destruct (add_matches_run now l (map Z.of_nat (seq 1 20)) w0 [])
    as (ls & ms & w' & Hloop & Hlist & Hnew & Hdup & Hms & Hframe & Hc & Ht & Hs & Hr);
    [apply lookup_insert_eq|].
  cbn [heap clock trace session_token remote w0] in *.
  exists l, ls, ms, w'.
  assert (Hold : forall l0, (<[l := OList []]> (heap w)) !! l0 = None -> heap w !! l0 = None).
  { intros l0 H0. destruct (decide (l0 = l)) as [->|H1]; [exact Hl|].
    now rewrite lookup_insert_ne in H0 by congruence. }
  split; [|repeat split; auto].
  - unfold MockBettingAPI.get_available_matches. unfold bind at 1.
    rewrite network_failure_run, Hup.
    unfold bind at 1. unfold utcnow at 1. cbn [clock drawn set_rng].
    unfold bind at 1. unfold alloc at 1. cbn [heap set_clock set_heap].
    fold l. fold now.
    unfold bind at 1.
    change (forM_ _ _ _) with
      (forM_ (MockBettingAPI.add_match lib now l) (map Z.of_nat (seq 1 20)) w0).
    now rewrite Hloop.
  - eapply Forall2_impl; [exact Hnew|]. intros x m [Hm H0]. split; [exact Hm|].
    now apply Hold.
  - apply map_subseteq_spec. intros l0 o H0.
    assert (l0 <> l) by (intros ->; congruence).
    rewrite Hframe; [|assumption|].
    + now rewrite lookup_insert_ne by congruence.
    + rewrite lookup_insert_ne by congruence. eauto.
Qed.

(** Either the network fails and nothing else happens, or the list comes
    back and the service's state is as before. *)
Lemma feed_network_cases (w : World MockBettingAPI.State) :
  if (floats (rng w) (fpos (rng w)) <? SIMULATED_NETWORK_FAILURE_RATE cfg)%float
  then MockBettingAPI.get_available_matches lib cfg w =
         (Raise (MockAPIError "Simulated transient network error"), drawn w)
  else exists l w', MockBettingAPI.get_available_matches lib cfg w = (Ok l, w') /\
                    remote w' = remote w.
Proof.
  destruct (_ <? _)%float eqn:Hup.
  - unfold MockBettingAPI.get_available_matches. unfold bind at 1.
    now rewrite network_failure_run, Hup.
  - destruct (get_available_matches_run w Hup)
      as (l & ls & ms & w' & Hrun & _ & _ & _ & _ & _ & _ & _ & _ & Hr).
    eauto.
Qed.

End Feed.

(** X7. A successful [get_available_matches] returns a new list of 20 new match
    dicts, all different objects, and changes no object that existed before
    the call, nor the service's state, nor the trace. Turn [i] of 1..20 gives
    the match [M00i] between [Teami A] and [Teami B] that starts [30 + 10 i]
    minutes after the one clock reading of the call, with odds rounded to two
    decimals. *)
Theorem get_available_matches_builds_feed (lib : Platform) (cfg : Config)
    (w : World MockBettingAPI.State) (l : loc) (w' : World MockBettingAPI.State) :
  MockBettingAPI.get_available_matches lib cfg w = (Ok l, w') ->
  let now := times (clock w) (ticks (clock w)) in
  exists ls ms,
    heap w !! l = None /\
    heap w' !! l = Some (OList ls) /\
    length ls = 20%nat /\ NoDup ls /\
    Forall2 (fun x m => heap w' !! x = Some (OMatch m) /\ heap w !! x = None) ls ms /\
    Forall2 (fun i m =>
               match_id m = "M" ++ MockBettingAPI.pad3 i /\
               teams m = ("Team" ++ pretty i ++ "A", "Team" ++ pretty i ++ "B") /\
               start_time m = isoformat lib (now + MockBettingAPI.minutes (30 + i * 10)) /\
               exists u, odds m = PyFloat.round2 u)
      (map Z.of_nat (seq 1 20)) ms /\
    heap w ⊆ heap w' /\ trace w' = trace w /\ remote w' = remote w.
Proof.
  intros H now.
  destruct (floats (rng w) (fpos (rng w)) <? SIMULATED_NETWORK_FAILURE_RATE cfg)%float eqn:Hup.
  { unfold MockBettingAPI.get_available_matches in H. unfold bind at 1 in H.
    rewrite network_failure_run, Hup in H. discriminate. }
  destruct (get_available_matches_run lib cfg w Hup)
    as (l0 & ls & ms & w0 & Hrun & Hl & Hlist & Hnew & Hdup & Hms & Hsub & Ht & _ & Hr).
  rewrite Hrun in H. apply Ok_pair_inv in H as [<- <-].
  exists ls, ms. repeat split; auto.
  - rewrite (Forall2_length _ _ _ Hnew), <- (Forall2_length _ _ _ Hms).
    now rewrite length_map, length_seq.
  - eapply Forall2_impl; [exact Hms|]. intros i m [r ->]. cbn. eauto.
Qed.

Lemma get_available_matches_builds_feed_witness :
  let w := Scenario.start Scenario.calm MockBettingAPI.init in
  let w' := snd (MockBettingAPI.get_available_matches Scenario.platform default_config w) in
  let now := times (clock w) (ticks (clock w)) in
  exists ls ms,
    heap w !! O = None /\
    heap w' !! O = Some (OList ls) /\
    length ls = 20%nat /\ NoDup ls /\
    Forall2 (fun x m => heap w' !! x = Some (OMatch m) /\ heap w !! x = None) ls ms /\
    Forall2 (fun i m =>
               match_id m = "M" ++ MockBettingAPI.pad3 i /\
               teams m = ("Team" ++ pretty i ++ "A", "Team" ++ pretty i ++ "B") /\
               start_time m =
                 isoformat Scenario.platform (now + MockBettingAPI.minutes (30 + i * 10)) /\
               exists u, odds m = PyFloat.round2 u)
      (map Z.of_nat (seq 1 20)) ms /\
    heap w ⊆ heap w' /\ trace w' = trace w /\ remote w' = remote w.
Proof.
  cbv zeta.
  apply (get_available_matches_builds_feed Scenario.platform default_config
           (Scenario.start Scenario.calm MockBettingAPI.init) O).
  vm_compute. reflexivity.
Defined.

(** X8. [get_available_matches] fails in one way only: when the simulated network
    fails, before the clock is read or any object is built. Otherwise it
    returns the list. *)
Theorem get_available_matches_fails_on_network_only (lib : Platform) (cfg : Config)
    (w : World MockBettingAPI.State) :
  if (floats (rng w) (fpos (rng w)) <? SIMULATED_NETWORK_FAILURE_RATE cfg)%float
  then MockBettingAPI.get_available_matches lib cfg w =
         (Raise (MockAPIError "Simulated transient network error"), drawn w)
  else exists l w', MockBettingAPI.get_available_matches lib cfg w = (Ok l, w').
Proof.
  destruct (_ <? _)%float eqn:Hup.
  - unfold MockBettingAPI.get_available_matches. unfold bind at 1.
    now rewrite network_failure_run, Hup.
  - destruct (get_available_matches_run lib cfg w Hup) as (l & ls & ms & w' & Hrun & _).
    eauto.
Qed.

(** ** Placement at the mock service *)

Section MockPlace.
Variable lib : Platform.
Variable cfg : Config.

Lemma read_list_world {S} x (w : World S) : snd (read_list x w) = w.
Proof. unfold read_list. now destruct (heap w !! x) as [[| |]|]. Qed.

Lemma validate_leg_run l (w : World MockBettingAPI.State) g :
  heap w !! l = Some (OLeg g) ->
  MockBettingAPI.validate_leg cfg l w =
    (if leg_accepted cfg g then Ok tt else Raise (leg_refusal cfg g), w).
Proof.
  intros Hl. unfold MockBettingAPI.validate_leg, bind, read_leg, leg_accepted, leg_refusal.
  rewrite Hl. destruct (leg_available g); cbn; [|reflexivity].
  now destruct (_ <? _)%float.
Qed.

Lemma validate_leg_world l (w : World MockBettingAPI.State) :
  snd (MockBettingAPI.validate_leg cfg l w) = w.
Proof.
  destruct (heap w !! l) as [[| g |]|] eqn:Hl;
    try (unfold MockBettingAPI.validate_leg, bind, read_leg; now rewrite Hl).
  rewrite (validate_leg_run _ _ _ Hl). reflexivity.
Qed.

Lemma validate_all_world ls : forall (w : World MockBettingAPI.State),
  snd (forM_ (MockBettingAPI.validate_leg cfg) ls w) = w.
Proof.
  induction ls as [|l ls IH]; intros w; [reflexivity|].
  cbn [forM_]. unfold bind. assert (Hw := validate_leg_world l w).
  destruct (MockBettingAPI.validate_leg cfg l w) as [[[]|e] w1]; cbn in Hw; subst w1;
    [apply IH | reflexivity].
Qed.

Lemma validate_all_ok ls : forall (w : World MockBettingAPI.State),
  fst (forM_ (MockBettingAPI.validate_leg cfg) ls w) = Ok tt ->
  Forall (fun l => exists g, heap w !! l = Some (OLeg g) /\ leg_accepted cfg g = true) ls.
Proof.
  induction ls as [|l ls IH]; intros w H; [constructor|].
  cbn [forM_] in H. unfold bind in H. assert (Hw := validate_leg_world l w).
  destruct (MockBettingAPI.validate_leg cfg l w) as [[[]|e] w1] eqn:Hv; cbn in Hw; subst w1;
    [|discriminate].
  constructor; [|now apply IH].
  destruct (heap w !! l) as [[| g |]|] eqn:Hl;
    try (unfold MockBettingAPI.validate_leg, bind, read_leg in Hv; rewrite Hl in Hv;
         discriminate).
  rewrite (validate_leg_run _ _ _ Hl) in Hv. exists g. split; [reflexivity|].
  now destruct (leg_accepted cfg g).
Qed.

(** The validation stops at the first leg it refuses. *)
Lemma validate_all_refused pre l post g (w : World MockBettingAPI.State) :
  Forall (fun l => exists g, heap w !! l = Some (OLeg g) /\ leg_accepted cfg g = true) pre ->
  heap w !! l = Some (OLeg g) -> leg_accepted cfg g = false ->
  forM_ (MockBettingAPI.validate_leg cfg) (pre ++ l :: post)%list w =
    (Raise (leg_refusal cfg g), w).
Proof.
  intros Hpre Hl Hbad. induction Hpre as [|l0 pre (g0 & Hg0 & Hok) _ IH].
  - cbn [app forM_]. unfold bind. now rewrite (validate_leg_run _ _ _ Hl), Hbad.
  - cbn [app forM_]. unfold bind. rewrite (validate_leg_run _ _ _ Hg0), Hok. exact IH.
Qed.

Lemma change_odds_run l (w : World MockBettingAPI.State) g :
  heap w !! l = Some (OLeg g) ->
  MockBettingAPI.change_odds l w =
    (Ok tt,
     mkWorld
       (<[l := OLeg (mkLeg (leg_match_id g) (leg_selection g)
                       (PyFloat.round2
                          (PyFloat.max 1.05
                             (leg_odds g * (0.90 + (1.12 - 0.90) * floats (rng w) (fpos (rng w))))))
                       (leg_available g))]> (heap w))
       (rng (drawn w)) (clock w) (trace w) (session_token w) (remote w)).
Proof.
  intros Hl.
  unfold MockBettingAPI.change_odds, bind, read_leg, random_uniform, bind, random_random,
    ret, set_leg_odds, set_heap, set_rng, drawn.
  rewrite Hl. cbn [heap rng clock trace session_token remote]. now rewrite Hl.
Qed.

Lemma is_leg_insert h l g l0 : is_leg h l0 -> is_leg (<[l := OLeg g]> h) l0.
Proof.
  intros [g0 H0]. destruct (decide (l0 = l)) as [->|Hne].
  - exists g. apply lookup_insert_eq.
  - exists g0. now rewrite lookup_insert_ne by congruence.
Qed.

(** An odds change goes through every leg and touches nothing but the heap
    and the random cursor. *)
Lemma change_all_run ls : forall (w : World MockBettingAPI.State),
  Forall (is_leg (heap w)) ls ->
  exists w',
    forM_ MockBettingAPI.change_odds ls w = (Ok tt, w') /\
    (forall l0, is_leg (heap w) l0 -> is_leg (heap w') l0) /\
    clock w' = clock w /\ trace w' = trace w /\
    session_token w' = session_token w /\ remote w' = remote w.
Proof.
  induction ls as [|l ls IH]; intros w Hls.
  - exists w. repeat split; auto.
  - apply Forall_cons in Hls as [[g Hl] Hls].
    pose proof (change_odds_run l w g Hl) as Hrun.
    match type of Hrun with _ = (_, ?w1) =>
      destruct (IH w1) as (w' & Hloop & Hlegs & Hc & Ht & Hs & Hr) end.
    { cbn [heap]. eapply Forall_impl; [exact Hls|]. intros l0. apply is_leg_insert. }
    cbn [heap clock trace session_token remote] in *.
    exists w'. split; [cbn [forM_]; now rewrite (bind_ok _ _ _ _ _ Hrun)|].
    repeat split; auto. intros l0 H0. apply Hlegs. now apply is_leg_insert.
Qed.

Lemma mapM_read_leg_total {S} ls (w : World S) :
  Forall (is_leg (heap w)) ls -> exists gs, mapM read_leg ls w = (Ok gs, w).
Proof.
  induction 1 as [|l ls [g Hl] _ [gs IH]].
  - now exists [].
  - exists (g :: gs). cbn [mapM]. unfold bind, read_leg at 1. rewrite Hl.
    now rewrite IH.
Qed.

(** What a placement call leaves behind: nothing on an error, one stored bet
    and one id given out on success. *)
Lemma mock_place_outcome token legs stake (w : World MockBettingAPI.State) out w' :
  MockBettingAPI.place_accumulator lib cfg token legs stake w = (out, w') ->
  match out with
  | Raise e => remote w' = remote w /\ clock w' = clock w
  | Ok r =>
      exists session ls,
        MockBettingAPI._sessions (remote w) !! token = Some session /\
        heap w !! legs = Some (OList ls) /\
        Forall (fun l => exists g, heap w !! l = Some (OLeg g) /\ leg_accepted cfg g = true) ls /\
        let id := "B" ++ pretty (MockBettingAPI._next_bet_id (remote w)) in
        let info := mkBetInfo id (session_user session) legs stake
                      (isoformat lib (times (clock w) (ticks (clock w))))
                      "ACCEPTED" (pr_total_odd r) (pr_potential_return r) in
        pr_bet_id r = Some id /\ pr_status r = "ACCEPTED" /\
        remote w' =
          MockBettingAPI.mkState (MockBettingAPI._sessions (remote w))
            (<[id := info]> (MockBettingAPI._bets (remote w)))
            (MockBettingAPI._next_bet_id (remote w) + 1)
  end.
Proof.
  intros H. unfold MockBettingAPI.place_accumulator in H.
  unfold bind at 1 in H. rewrite network_failure_run in H.
  destruct (_ <? _)%float; [injection H as <- <-; now split|].
  unfold bind at 1 in H. cbn [remote drawn set_rng] in H.
  destruct (MockBettingAPI._sessions (remote w) !! token) as [session|] eqn:Hsession;
    [|injection H as <- <-; now split].
  unfold bind at 1 in H.
  assert (Hw := read_list_world legs (drawn w)).
  destruct (read_list legs (drawn w)) as [[ls|e] w1] eqn:Hls; cbn [snd] in Hw; subst w1;
    [|injection H as <- <-; now split].
  apply read_list_inv in Hls as [Hls _]. cbn [heap drawn set_rng] in Hls.
  unfold bind at 1 in H.
  assert (Hw := validate_all_world ls (drawn w)).
  assert (Hok := validate_all_ok ls (drawn w)).
  destruct (forM_ (MockBettingAPI.validate_leg cfg) ls (drawn w)) as [[[]|e] w1];
    cbn [fst snd] in Hw, Hok; subst w1; [|injection H as <- <-; now split].
  specialize (Hok eq_refl). cbn [heap drawn set_rng] in Hok.
  assert (Hlegs : Forall (is_leg (heap w)) ls).
  { eapply Forall_impl; [exact Hok|]. intros l (g & Hg & _). now exists g. }
  unfold bind at 1 in H. unfold random_random at 1 in H.
  cbn [rng drawn set_rng floats ints fpos ipos] in H.
  set (w2 := set_rng _ (drawn w)) in H.
  assert (Hfinish : forall w3 : World MockBettingAPI.State,
             (forall l0, is_leg (heap w) l0 -> is_leg (heap w3) l0) ->
             clock w3 = clock w -> remote w3 = remote w ->
             (let! n := (fun w => (Ok (MockBettingAPI._next_bet_id (remote w)), w)) in
              let bet_id := "B" ++ pretty n in
              (fun w =>
                 let s := remote w in
                 (Ok tt, set_remote (MockBettingAPI.mkState (MockBettingAPI._sessions s)
                                       (MockBettingAPI._bets s)
                                       (MockBettingAPI._next_bet_id s + 1)) w));;
              let! gs := mapM read_leg ls in
              let total_odd := MockBettingAPI.product (map leg_odds gs) in
              let potential_return := PyFloat.round2 (stake * total_odd)%float in
              let! now := utcnow in
              let info := mkBetInfo bet_id (session_user session) legs stake
                            (isoformat lib now) "ACCEPTED" (PyFloat.round2 total_odd)
                            potential_return in
              (fun w =>
                 let s := remote w in
                 (Ok tt, set_remote (MockBettingAPI.mkState (MockBettingAPI._sessions s)
                                       (<[bet_id := info]> (MockBettingAPI._bets s))
                                       (MockBettingAPI._next_bet_id s)) w));;
              ret (mkPlacementResult (Some bet_id) "ACCEPTED" (PyFloat.round2 total_odd)
                     potential_return)) w3 = (out, w') ->
             exists r, out = Ok r /\
               pr_bet_id r = Some ("B" ++ pretty (MockBettingAPI._next_bet_id (remote w))) /\
               pr_status r = "ACCEPTED" /\
               remote w' =
                 MockBettingAPI.mkState (MockBettingAPI._sessions (remote w))
                   (<["B" ++ pretty (MockBettingAPI._next_bet_id (remote w)) :=
                        mkBetInfo ("B" ++ pretty (MockBettingAPI._next_bet_id (remote w)))
                          (session_user session) legs stake
                          (isoformat lib (times (clock w) (ticks (clock w))))
                          "ACCEPTED" (pr_total_odd r) (pr_potential_return r)]>
                      (MockBettingAPI._bets (remote w)))
                   (MockBettingAPI._next_bet_id (remote w) + 1)).
  { intros w3 Hkeep Hclock Hremote HK.
    unfold bind at 1 in HK. unfold bind at 1 in HK.
    cbn [remote set_remote heap] in HK.
    destruct (mapM_read_leg_total ls
                (set_remote (MockBettingAPI.mkState (MockBettingAPI._sessions (remote w3))
                               (MockBettingAPI._bets (remote w3))
                               (MockBettingAPI._next_bet_id (remote w3) + 1)) w3))
      as [gs Hgs].
    { eapply Forall_impl; [exact Hlegs|]. intros l0 H0. cbn [heap set_remote].
      now apply Hkeep. }
    unfold bind at 1 in HK. rewrite Hgs in HK. cbn zeta in HK.
    unfold bind, utcnow, ret, set_remote, set_clock in HK.
    cbn [fst snd remote clock heap rng trace session_token
         MockBettingAPI._sessions MockBettingAPI._bets MockBettingAPI._next_bet_id] in HK.
    injection HK as <- <-. eexists. split; [reflexivity|].
    cbn [remote pr_bet_id pr_status pr_total_odd pr_potential_return].
    rewrite Hremote, Hclock. repeat split. }
  match goal with |- ?G =>
    assert (Hdone : forall r, out = Ok r ->
             pr_bet_id r = Some ("B" ++ pretty (MockBettingAPI._next_bet_id (remote w))) /\
             pr_status r = "ACCEPTED" /\
             remote w' =
               MockBettingAPI.mkState (MockBettingAPI._sessions (remote w))
                 (<["B" ++ pretty (MockBettingAPI._next_bet_id (remote w)) :=
                      mkBetInfo ("B" ++ pretty (MockBettingAPI._next_bet_id (remote w)))
                        (session_user session) legs stake
                        (isoformat lib (times (clock w) (ticks (clock w))))
                        "ACCEPTED" (pr_total_odd r) (pr_potential_return r)]>
                    (MockBettingAPI._bets (remote w)))
                 (MockBettingAPI._next_bet_id (remote w) + 1) ->
             G) end.
  { intros r -> (Hid & Hst & Hrem). exists session, ls. cbn zeta. auto 10. }
  destruct (_ <? 0.08)%float.
  - destruct (change_all_run ls w2) as (w3 & Hloop & Hkeep & Hc & Ht & Hs & Hr).
    { exact Hlegs. }
    unfold bind at 1 in H. unfold bind at 1 in H. rewrite Hloop in H.
    unfold bind at 1 in H. unfold random_random at 1 in H.
    destruct (_ <? 0.5)%float.
    + injection H as <- <-. cbn [remote clock set_rng]. now rewrite Hr, Hc.
    + unfold ret at 1 in H. apply Hfinish in H as (r & Hout & Hres); auto.
      now apply (Hdone r).
  - unfold bind at 1 in H. unfold ret at 1 in H.
    apply Hfinish in H as (r & Hout & Hres); auto. now apply (Hdone r).
Qed.

End MockPlace.

(** X9. A placement that ends in an error stores no bet and gives out no bet id:
    the service's sessions, bets and next id are what they were, and nothing
    is written to the trace. (The legs may still have had their odds
    changed.) *)
Theorem failed_placement_stores_nothing (lib : Platform) (cfg : Config)
    (token : string) (legs : loc) (stake : float)
    (w : World MockBettingAPI.State) (e : exn) (w' : World MockBettingAPI.State) :
  MockBettingAPI.place_accumulator lib cfg token legs stake w = (Raise e, w') ->
  remote w' = remote w /\ trace w' = trace w /\ clock w' = clock w.
Proof.
  intros H. pose proof (mock_place_trace lib cfg token legs stake w) as Ht.
  rewrite H in Ht. apply mock_place_outcome in H as [Hr Hc]. auto.
Qed.

Lemma failed_placement_stores_nothing_witness :
  let w := Scenario.ready Scenario.odds_change_then_calm in
  let w' := snd (MockBettingAPI.place_accumulator Scenario.platform default_config
                   "tok" O 5.0%float w) in
  remote w' = remote w /\ trace w' = trace w /\ clock w' = clock w.
Proof.
  cbv zeta.
  apply (failed_placement_stores_nothing Scenario.platform default_config "tok" O 5.0%float
           (Scenario.ready Scenario.odds_change_then_calm)
           (MockAPIError "Odds changed during placement - please retry")).
  vm_compute. reflexivity.
Defined.

(** X10. A placement under a token the service has no session for is refused
    before the legs are looked at: it raises [Invalid session] (unless the
    simulated network failed first) and only the random cursor moves. *)
Theorem placement_needs_known_session (lib : Platform) (cfg : Config)
    (token : string) (legs : loc) (stake : float) (w : World MockBettingAPI.State) :
  MockBettingAPI._sessions (remote w) !! token = None ->
  exists msg,
    MockBettingAPI.place_accumulator lib cfg token legs stake w =
      (Raise (MockAPIError msg), drawn w) /\
    (network_up cfg w -> msg = "Invalid session").
Proof.
  intros Hnone. unfold MockBettingAPI.place_accumulator, network_up.
  unfold bind at 1. rewrite network_failure_run.
  destruct (_ <? _)%float.
  - eexists. split; [reflexivity | discriminate].
  - unfold bind at 1. cbn [remote drawn set_rng]. rewrite Hnone.
    eexists. split; reflexivity.
Qed.

Lemma placement_needs_known_session_witness :
  exists msg,
    MockBettingAPI.place_accumulator Scenario.platform default_config "stale" O 5.0%float
      (Scenario.ready Scenario.calm) =
      (Raise (MockAPIError msg), drawn (Scenario.ready Scenario.calm)) /\
    (network_up default_config (Scenario.ready Scenario.calm) -> msg = "Invalid session").
Proof.
  apply (placement_needs_known_session Scenario.platform default_config "stale" O 5.0%float
           (Scenario.ready Scenario.calm)).
  vm_compute. reflexivity.
Defined.

(** X11. An accepted placement was made under a known session, on a list of leg
    dicts each of which, when the call began, was available and did not have
    odds below [MIN_ODDS] (the test is [odds < MIN_ODDS], so odds that are
    not a number are let through). *)
Theorem accepted_placement_was_validated (lib : Platform) (cfg : Config)
    (token : string) (legs : loc) (stake : float)
    (w : World MockBettingAPI.State) (r : PlacementResult) (w' : World MockBettingAPI.State) :
  MockBettingAPI.place_accumulator lib cfg token legs stake w = (Ok r, w') ->
  is_Some (MockBettingAPI._sessions (remote w) !! token) /\
  exists ls,
    heap w !! legs = Some (OList ls) /\
    Forall (fun l => exists g, heap w !! l = Some (OLeg g) /\
                               leg_available g = true /\
                               (leg_odds g <? MIN_ODDS cfg)%float = false) ls.
Proof.
  intros H. apply mock_place_outcome in H as (session & ls & Hs & Hls & Hok & _).
  split; [eauto|]. exists ls. split; [exact Hls|].
  eapply Forall_impl; [exact Hok|]. intros l (g & Hg & Hacc).
  exists g. split; [exact Hg|]. unfold leg_accepted in Hacc.
  apply andb_true_iff in Hacc as [Ha Ho]. now apply negb_true_iff in Ho.
Qed.

Lemma accepted_placement_was_validated_witness :
  let w := Scenario.ready Scenario.calm in
  is_Some (MockBettingAPI._sessions (remote w) !! "tok") /\
  exists ls,
    heap w !! O = Some (OList ls) /\
    Forall (fun l => exists g, heap w !! l = Some (OLeg g) /\
                               leg_available g = true /\
                               (leg_odds g <? MIN_ODDS default_config)%float = false) ls.
Proof.
  cbv zeta.
  apply (accepted_placement_was_validated Scenario.platform default_config "tok" O 5.0%float
           (Scenario.ready Scenario.calm) Scenario.accepted
           (snd (MockBettingAPI.place_accumulator Scenario.platform default_config
                   "tok" O 5.0%float (Scenario.ready Scenario.calm)))).
  vm_compute. reflexivity.
Defined.

(** X12. The validation refuses the first leg that is unavailable or has odds
    below [MIN_ODDS]: the placement raises that leg's error (unavailability
    is tested first), no odds are changed and nothing is stored; only the
    random cursor moves. *)
Theorem placement_refuses_first_bad_leg (lib : Platform) (cfg : Config)
    (token : string) (legs : loc) (stake : float) (w : World MockBettingAPI.State)
    (pre : list loc) (l : loc) (post : list loc) (g : Leg) :
  network_up cfg w ->
  is_Some (MockBettingAPI._sessions (remote w) !! token) ->
  heap w !! legs = Some (OList (pre ++ l :: post)%list) ->
  Forall (fun l => exists g, heap w !! l = Some (OLeg g) /\ leg_accepted cfg g = true) pre ->
  heap w !! l = Some (OLeg g) ->
  leg_accepted cfg g = false ->
  MockBettingAPI.place_accumulator lib cfg token legs stake w =
    (Raise (MockAPIError ("Leg " ++ leg_match_id g ++
                          (if leg_available g then " odds too low"
                           else " unavailable at placement"))),
     drawn w).
Proof.
  unfold network_up. intros Hup [session Hs] Hlegs Hpre Hl Hbad.
  unfold MockBettingAPI.place_accumulator.
  unfold bind at 1. rewrite network_failure_run, Hup.
  unfold bind at 1. cbn [remote drawn set_rng]. rewrite Hs.
  unfold bind at 1. unfold read_list at 1. cbn [heap drawn set_rng]. rewrite Hlegs.
  unfold bind at 1.
  rewrite (validate_all_refused cfg pre l post g); auto.
  unfold leg_refusal. now destruct (leg_available g).
Qed.

Lemma placement_refuses_first_bad_leg_witness :
  let w := set_heap (<[2%nat := OLeg (mkLeg "M002" "A2 vs B2" 1.1%float true)]>
                       Scenario.legs_heap) (Scenario.ready Scenario.calm) in
  MockBettingAPI.place_accumulator Scenario.platform default_config "tok" O 5.0%float w =
    (Raise (MockAPIError "Leg M002 odds too low"), drawn w).
Proof.
  cbv zeta.
  apply (placement_refuses_first_bad_leg Scenario.platform default_config "tok" O 5.0%float
           _ [1%nat] 2%nat [] (mkLeg "M002" "A2 vs B2" 1.1%float true)).
  - reflexivity.
  - eexists. vm_compute. reflexivity.
  - vm_compute. reflexivity.
  - repeat constructor. eexists. split; vm_compute; reflexivity.
  - vm_compute. reflexivity.
  - reflexivity.
Defined.

(** X13. An accepted placement is stored under the bet id it returns, with the
    list of legs, the stake, the status and the amounts of the result and
    the user of the session, and a later [get_bet] on that id returns this
    record whenever the simulated network does not fail. *)
Theorem placed_bet_can_be_confirmed (lib : Platform) (cfg : Config)
    (token : string) (legs : loc) (stake : float)
    (w : World MockBettingAPI.State) (r : PlacementResult) (w' : World MockBettingAPI.State) :
  MockBettingAPI.place_accumulator lib cfg token legs stake w = (Ok r, w') ->
  exists id info,
    pr_bet_id r = Some id /\
    MockBettingAPI._bets (remote w') !! id = Some info /\
    bet_id info = id /\ bet_legs info = legs /\ bet_stake info = stake /\
    bet_status info = "ACCEPTED" /\
    bet_total_odd info = pr_total_odd r /\
    bet_potential_return info = pr_potential_return r /\
    (exists session, MockBettingAPI._sessions (remote w) !! token = Some session /\
                     bet_user info = session_user session) /\
    forall w2 : World MockBettingAPI.State,
      remote w2 = remote w' -> network_up cfg w2 ->
      MockBettingAPI.get_bet cfg id w2 = (Ok info, drawn w2).
Proof.
  intros H. apply mock_place_outcome in H as (session & ls & Hs & _ & _ & Hid & _ & Hrem).
  cbn zeta in Hid, Hrem. eexists _, _. split; [exact Hid|].
  rewrite Hrem. cbn [MockBettingAPI._bets]. rewrite lookup_insert_eq.
  split; [reflexivity|]. cbn [bet_id bet_legs bet_stake bet_status bet_total_odd
                              bet_potential_return bet_user].
  repeat split; eauto.
  intros w2 H2 Hup. unfold network_up in Hup.
  rewrite get_bet_run, Hup, H2. cbn [MockBettingAPI._bets].
  now rewrite lookup_insert_eq.
Qed.

Lemma placed_bet_can_be_confirmed_witness :
  let w := Scenario.ready Scenario.calm in
  let w' := snd (MockBettingAPI.place_accumulator Scenario.platform default_config
                   "tok" O 5.0%float w) in
  exists id info,
    pr_bet_id Scenario.accepted = Some id /\
    MockBettingAPI._bets (remote w') !! id = Some info /\
    bet_id info = id /\ bet_legs info = O /\ bet_stake info = 5.0%float /\
    bet_status info = "ACCEPTED" /\
    bet_total_odd info = pr_total_odd Scenario.accepted /\
    bet_potential_return info = pr_potential_return Scenario.accepted /\
    (exists session, MockBettingAPI._sessions (remote w) !! "tok" = Some session /\
                     bet_user info = session_user session) /\
    forall w2 : World MockBettingAPI.State,
      remote w2 = remote w' -> network_up default_config w2 ->
      MockBettingAPI.get_bet default_config id w2 = (Ok info, drawn w2).
Proof.
  cbv zeta.
  apply (placed_bet_can_be_confirmed Scenario.platform default_config "tok" O 5.0%float
           (Scenario.ready Scenario.calm) Scenario.accepted).
  vm_compute. reflexivity.
Defined.

Section BetIds.
Variable lib : Platform.
Variable cfg : Config.

Lemma ids_below_step (s : MockBettingAPI.State) info :
  ids_below s ->
  let id := "B" ++ pretty (MockBettingAPI._next_bet_id s) in
  MockBettingAPI._bets s !! id = None /\
  ids_below (MockBettingAPI.mkState (MockBettingAPI._sessions s)
               (<[id := info]> (MockBettingAPI._bets s))
               (MockBettingAPI._next_bet_id s + 1)).
Proof.
  intros Hids id. split.
  - destruct (MockBettingAPI._bets s !! id) as [b|] eqn:Hb; [|reflexivity].
    destruct (Hids id) as (n & Hn & Hlt); [eauto|].
    unfold id in Hn. injection Hn as Hn. apply pretty_Z_inj in Hn. lia.
  - intros id' [b Hb]. cbn [MockBettingAPI._bets MockBettingAPI._next_bet_id] in *.
    destruct (decide (id' = id)) as [->|Hne].
    + exists (MockBettingAPI._next_bet_id s). split; [reflexivity | lia].
    + rewrite lookup_insert_ne in Hb by congruence.
      destruct (Hids id') as (n & Hn & Hlt); [eauto|]. exists n. split; [exact Hn | lia].
Qed.

End BetIds.

(** X14. Bets are never overwritten or dropped by a placement. In a service state
    where every bet is stored under an id [B n] with [n] below the next id
    (as in the initial state, where there is none), a placement, however it
    ends, leaves every stored bet as it was and keeps the state of that
    form; the id an accepted placement returns was not in use before. *)
Theorem placement_keeps_earlier_bets (lib : Platform) (cfg : Config)
    (token : string) (legs : loc) (stake : float) (w : World MockBettingAPI.State) :
  ids_below (remote w) ->
  let run := MockBettingAPI.place_accumulator lib cfg token legs stake w in
  ids_below (remote (snd run)) /\
  MockBettingAPI._bets (remote w) ⊆ MockBettingAPI._bets (remote (snd run)) /\
  forall r, fst run = Ok r ->
    exists id, pr_bet_id r = Some id /\ MockBettingAPI._bets (remote w) !! id = None.
Proof.
  intros Hids run.
  destruct (MockBettingAPI.place_accumulator lib cfg token legs stake w) as [out w'] eqn:H.
  subst run. cbn [fst snd]. apply mock_place_outcome in H.
  destruct out as [r|e].
  - destruct H as (session & ls & _ & _ & _ & Hid & _ & Hrem). cbn zeta in Hid, Hrem.
    match type of Hrem with _ = MockBettingAPI.mkState _ (<[_ := ?info]> _) _ =>
      destruct (ids_below_step (remote w) info Hids) as [Hfree Hnext] end.
    rewrite Hrem. split; [exact Hnext|]. cbn [MockBettingAPI._bets].
    split; [now apply insert_subseteq|].
    intros r' [= <-]. eauto.
  - destruct H as [-> _]. split; [exact Hids|]. split; [reflexivity | discriminate].
Qed.

Lemma placement_keeps_earlier_bets_witness :
  let w := Scenario.ready Scenario.calm in
  let run := MockBettingAPI.place_accumulator Scenario.platform default_config
               "tok" O 5.0%float w in
  ids_below (remote (snd run)) /\
  MockBettingAPI._bets (remote w) ⊆ MockBettingAPI._bets (remote (snd run)) /\
  forall r, fst run = Ok r ->
    exists id, pr_bet_id r = Some id /\ MockBettingAPI._bets (remote w) !! id = None.
Proof.
  apply (placement_keeps_earlier_bets Scenario.platform default_config "tok" O 5.0%float
           (Scenario.ready Scenario.calm)).
  intros id [b Hb]. vm_compute in Hb. discriminate.
Defined.

(** X15. No call of the service revokes a session: a token the service knows
    before [authenticate], [get_available_matches], [place_accumulator] or
    [get_bet] is still known after the call, however the call ends. *)
Theorem sessions_are_never_revoked (lib : Platform) (cfg : Config)
    (token : string) (w : World MockBettingAPI.State) :
  is_Some (MockBettingAPI._sessions (remote w) !! token) ->
  (forall username password,
     is_Some (MockBettingAPI._sessions
                (remote (snd (MockBettingAPI.authenticate cfg username password w)))
              !! token)) /\
  is_Some (MockBettingAPI._sessions
             (remote (snd (MockBettingAPI.get_available_matches lib cfg w))) !! token) /\
  (forall token' legs stake,
     is_Some (MockBettingAPI._sessions
                (remote (snd (MockBettingAPI.place_accumulator lib cfg token' legs stake w)))
              !! token)) /\
  (forall id,
     is_Some (MockBettingAPI._sessions (remote (snd (MockBettingAPI.get_bet cfg id w)))
              !! token)).
Proof.
  intros Hs. repeat split.
  - intros username password. rewrite authenticate_run.
    destruct (_ <? _)%float; [exact Hs|].
    destruct (_ || _); [exact Hs|]. cbn [snd remote MockBettingAPI._sessions].
    apply lookup_insert_is_Some'. now right.
  - pose proof (feed_network_cases lib cfg w) as H.
    destruct (_ <? _)%float.
    + now rewrite H.
    + destruct H as (l & w' & -> & Hr). cbn [snd]. now rewrite Hr.
  - intros token' legs stake.
    destruct (MockBettingAPI.place_accumulator lib cfg token' legs stake w) as [out w'] eqn:H.
    apply mock_place_outcome in H. cbn [snd]. destruct out as [r|e].
    + destruct H as (session & ls & _ & _ & _ & _ & _ & ->). exact Hs.
    + destruct H as [-> _]. exact Hs.
  - intros id. now rewrite get_bet_run.
Qed.

Lemma sessions_are_never_revoked_witness :
  let w := Scenario.ready Scenario.calm in
  (forall username password,
     is_Some (MockBettingAPI._sessions
                (remote (snd (MockBettingAPI.authenticate default_config username password w)))
              !! "tok")) /\
  is_Some (MockBettingAPI._sessions
             (remote (snd (MockBettingAPI.get_available_matches Scenario.platform
                             default_config w))) !! "tok") /\
  (forall token' legs stake,
     is_Some (MockBettingAPI._sessions
                (remote (snd (MockBettingAPI.place_accumulator Scenario.platform
                                default_config token' legs stake w)))
              !! "tok")) /\
  (forall id,
     is_Some (MockBettingAPI._sessions
                (remote (snd (MockBettingAPI.get_bet default_config id w))) !! "tok")).
Proof.
  apply (sessions_are_never_revoked Scenario.platform default_config "tok"
           (Scenario.ready Scenario.calm)).
  eexists. vm_compute. reflexivity.
Defined.

(** * More on the selection *)

Section SelectionFrame.
Context {S : Type}.
Variable I : World S -> Prop.
Variable cfg : Config.
Hypothesis I_heap : forall w h, I w -> I (set_heap h w).

Lemma keeps_alloc o : keeps I (alloc o).
Proof. intros w H. apply I_heap, H. Qed.

Lemma keeps_write_list x xs : keeps I (write_list x xs).
Proof.
  intros w H. unfold write_list. destruct (heap w !! x) as [[| |]|]; auto.
  apply I_heap, H.
Qed.

Lemma keeps_comprehension ms : keeps I (comprehension cfg ms).
Proof.
  induction ms as [|l ms IH]; cbn [comprehension]; repeat keeps_step.
  exact IH.
Qed.

Lemma keeps_take_slice x k : keeps I (take_slice x k).
Proof. unfold take_slice. keeps_step; [keeps_step | apply keeps_alloc]. Qed.

Lemma keeps_list_sort {K} (ltb : K -> K -> bool) (key : loc -> M S K) reverse x :
  (forall l, keeps I (key l)) -> keeps I (list_sort ltb key reverse x).
Proof.
  intros Hkey. unfold list_sort. keeps_step; [keeps_step|].
  keeps_step; [keeps_step; apply Hkey | apply keeps_write_list].
Qed.

Lemma keeps_swap x i j : keeps I (swap x i j).
Proof.
  unfold swap. keeps_step; [keeps_step|].
  destruct (_ !! j); [destruct (_ !! i)|]; try apply keeps_raise.
  apply keeps_write_list.
Qed.

Lemma keeps_shuffle_from x n :
  (forall w r, I w -> I (set_rng r w)) -> keeps I (shuffle_from x n).
Proof.
  intros I_rng. induction n as [|n IH]; cbn [shuffle_from]; [apply keeps_ret|].
  keeps_step; [apply keeps_randbelow, I_rng|].
  keeps_step; [apply keeps_swap | exact IH].
Qed.

(** [choose_matches] draws random numbers in mode [random] only. *)
Lemma keeps_choose_matches matches mode k :
  (mode = "random" -> forall w r, I w -> I (set_rng r w)) ->
  keeps I (choose_matches cfg matches mode k).
Proof.
  intros I_rng. unfold choose_matches.
  keeps_step; [keeps_step|].
  keeps_step; [apply keeps_comprehension|].
  keeps_step; [apply keeps_alloc|].
  destruct a0; [apply keeps_alloc|].
  destruct (String.eqb mode "random") eqn:Hrandom.
  - apply String.eqb_eq in Hrandom.
    keeps_step; [|apply keeps_take_slice].
    unfold random_shuffle. keeps_step; [keeps_step|].
    apply keeps_shuffle_from, I_rng, Hrandom.
  - destruct (String.eqb mode "from_feed").
    + keeps_step; [|apply keeps_take_slice].
      apply keeps_list_sort. intros l0. unfold key_start_time. repeat keeps_step.
    + keeps_step; [|apply keeps_take_slice].
      apply keeps_list_sort. intros l0. unfold key_odds. repeat keeps_step.
Qed.

End SelectionFrame.

Section SelectionPerm.
Context {S : Type}.
Variable cfg : Config.

(** Putting [x] where [a] stood and [a] in front is a reordering. *)
Lemma insert_front_perm {A} (xs : list A) j a x :
  xs !! j = Some a -> a :: <[j := x]> xs ≡ₚ x :: xs.
Proof.
  revert j. induction xs as [|y xs IH]; intros [|j] Hj; try discriminate.
  - injection Hj as ->. apply perm_swap.
  - cbn in Hj |- *. rewrite (perm_swap y a), (IH j Hj). apply perm_swap.
Qed.

(** Exchanging two elements of a list is a reordering. *)
Lemma swap_perm {A} (xs : list A) : forall i j a b,
  xs !! j = Some a -> xs !! i = Some b ->
  <[j := b]> (<[i := a]> xs) ≡ₚ xs.
Proof.
  induction xs as [|x xs IH]; intros [|i] [|j] a b Hj Hi; try discriminate.
  - injection Hj as ->. injection Hi as ->. reflexivity.
  - injection Hi as ->. cbn in Hj |- *. now apply insert_front_perm.
  - injection Hj as ->. cbn in Hi |- *. now apply insert_front_perm.
  - cbn in Hi, Hj |- *. f_equiv. now apply IH.
Qed.

Lemma swap_run_perm (w : World S) x xs i j :
  heap w !! x = Some (OList xs) -> (i < length xs)%nat -> (j < length xs)%nat ->
  exists ys,
    swap x i j w = (Ok tt, set_heap (<[x := OList ys]> (heap w)) w) /\ ys ≡ₚ xs.
Proof.
  intros Hx Hi Hj. unfold swap.
  rewrite (bind_ok _ _ _ _ _ (read_list_run w x xs Hx)).
  destruct (lookup_lt_is_Some_2 xs j Hj) as [a Ha].
  destruct (lookup_lt_is_Some_2 xs i Hi) as [b Hb].
  rewrite Ha, Hb. eexists. split; [now apply (write_list_run w x xs)|].
  now apply swap_perm.
Qed.

Lemma shuffle_from_perm n : forall (w : World S) x xs,
  heap w !! x = Some (OList xs) -> (n < length xs)%nat ->
  exists ys w',
    shuffle_from x n w = (Ok tt, w') /\
    heap w' = <[x := OList ys]> (heap w) /\ ys ≡ₚ xs.
Proof.
  induction n as [|n IH]; intros w x xs Hx Hn.
  - exists xs, w. repeat split; auto. symmetry. now apply insert_id.
  - cbn [shuffle_from].
    rewrite (bind_ok _ _ _ _ _ (randbelow_run (Datatypes.S (Datatypes.S n)) w)).
    set (j := (_ mod _)%nat).
    assert (Hj : (j < length xs)%nat).
    { pose proof (Nat.mod_upper_bound (ints (rng w) (ipos (rng w))) (Datatypes.S (Datatypes.S n))
                    ltac:(lia)). unfold j. lia. }
    match goal with |- context [bind (swap x _ j) _ ?w1] =>
      destruct (swap_run_perm w1 x xs (Datatypes.S n) j Hx Hn Hj) as (ys & Hswap & Hperm) end.
    rewrite (bind_ok _ _ _ _ _ Hswap).
    match goal with |- context [shuffle_from x n ?w2] =>
      destruct (IH w2 x ys) as (zs & w' & Hrun & Hheap & Hperm') end.
    { cbn. apply lookup_insert_eq. }
    { rewrite Hperm. lia. }
    exists zs, w'. split; [exact Hrun|]. split.
    + rewrite Hheap. cbn. apply insert_insert_eq.
    + now rewrite Hperm'.
Qed.

Lemma random_shuffle_perm (w : World S) x xs :
  heap w !! x = Some (OList xs) ->
  exists ys w',
    random_shuffle x w = (Ok tt, w') /\
    heap w' = <[x := OList ys]> (heap w) /\ ys ≡ₚ xs.
Proof.
  intros Hx. unfold random_shuffle.
  rewrite (bind_ok _ _ _ _ _ (read_list_run w x xs Hx)).
  destruct xs as [|x0 xs].
  - exists [], w. repeat split; auto. symmetry. now apply insert_id.
  - apply shuffle_from_perm; [exact Hx | cbn; lia].
Qed.

(** In every mode the list that is cut is a reordering of the matches that
    pass the filter. *)
Lemma choose_matches_perm (w : World S) matches ms mode k :
  heap w !! matches = Some (OList ms) ->
  Forall (is_match (heap w)) ms ->
  let avail := filter (fun l => passes_at cfg (heap w) l = true) ms in
  exists r order w',
    choose_matches cfg matches mode k w = (Ok r, w') /\
    heap w' !! r = Some (OList (PyList.slice_to order k)) /\
    order ≡ₚ avail.
Proof.
  intros Hms Hall avail.
  destruct (String.eqb mode "random") eqn:Hrandom.
  - unfold choose_matches.
    rewrite (bind_ok _ _ _ _ _ (read_list_run w matches ms Hms)).
    rewrite (bind_ok _ _ _ _ _ (comprehension_run cfg w ms Hall)).
    fold avail. unfold bind at 1. cbn [alloc].
    set (a := fresh (dom (heap w))).
    set (w1 := set_heap (<[a := OList avail]> (heap w)) w).
    assert (Ha1 : heap w1 !! a = Some (OList avail)) by apply lookup_insert_eq.
    destruct avail as [|l0 avail'] eqn:Eavail.
    + do 3 eexists. split; [reflexivity|]. cbn [heap set_heap].
      split; [rewrite lookup_insert_eq, slice_to_nil; reflexivity | reflexivity].
    + rewrite Hrandom.
      destruct (random_shuffle_perm w1 a _ Ha1) as (ys & w2 & Hrun & Hheap & Hperm).
      rewrite (bind_ok _ _ _ _ _ Hrun).
      assert (Hw2a : heap w2 !! a = Some (OList ys)).
      { rewrite Hheap. apply lookup_insert_eq. }
      rewrite (take_slice_run w2 a ys k Hw2a).
      do 3 eexists. split; [reflexivity|]. cbn [heap set_heap].
      split; [apply lookup_insert_eq | exact Hperm].
  - destruct (choose_matches_run cfg w matches ms mode k Hms Hall)
      as (r & order & w' & Hrun & Hr & _ & _ & _ & _ & Horder).
    exists r, order, w'. split; [exact Hrun|]. split; [exact Hr|].
    rewrite Horder by (intros ->; discriminate).
    unfold ordered. fold avail. destruct (String.eqb mode "from_feed"); apply sorted_by_perm.
Qed.

Lemma slice_to_length {A} (xs : list A) k :
  Z.of_nat (length (PyList.slice_to xs k)) =
    if 0 <=? k then Z.min k (Z.of_nat (length xs))
    else Z.max 0 (Z.of_nat (length xs) + k).
Proof.
  unfold PyList.slice_to. destruct (0 <=? k) eqn:Hk; rewrite length_firstn; lia.
Qed.

End SelectionPerm.

(** X16. How many matches [choose_matches] returns, for every [max_legs]: with
    [n] matches passing the filter, [min(max_legs, n)] when [max_legs >= 0]
    (none for [max_legs = 0]), and [max(0, n + max_legs)] when [max_legs]
    is negative, since the slice [[:max_legs]] then drops the last
    [-max_legs] elements instead of bounding the length by [max_legs]. *)
Theorem choose_matches_count {S} (cfg : Config) (w : World S)
    (matches : loc) (ms : list loc) (mode : string) (max_legs : Z) :
  heap w !! matches = Some (OList ms) ->
  Forall (is_match (heap w)) ms ->
  exists r sel w',
    choose_matches cfg matches mode max_legs w = (Ok r, w') /\
    heap w' !! r = Some (OList sel) /\
    let n := Z.of_nat (length (filter (fun l => passes_at cfg (heap w) l = true) ms)) in
    Z.of_nat (length sel) =
      if 0 <=? max_legs then Z.min max_legs n else Z.max 0 (n + max_legs).
Proof.
  intros Hms Hall.
  destruct (choose_matches_perm cfg w matches ms mode max_legs Hms Hall)
    as (r & order & w' & Hrun & Hr & Hperm).
  exists r, (PyList.slice_to order max_legs), w'.
  split; [exact Hrun|]. split; [exact Hr|]. cbn zeta.
  now rewrite slice_to_length, (Permutation_length Hperm).
Qed.

Lemma choose_matches_count_witness :
  exists r sel w',
    choose_matches default_config O "top" (-1) Scenario.feed = (Ok r, w') /\
    heap w' !! r = Some (OList sel) /\
    let n := Z.of_nat (length (filter (fun l => passes_at default_config
                                                  (heap Scenario.feed) l = true)
                                 [1; 2; 3; 4; 5; 6]%nat)) in
    Z.of_nat (length sel) = if 0 <=? -1 then Z.min (-1) n else Z.max 0 (n + -1).
Proof.
  apply (choose_matches_count default_config Scenario.feed O [1; 2; 3; 4; 5; 6]%nat "top" (-1)).
  - exact feed_is_list.
  - exact feed_matches.
Defined.

(** X17. In every mode, [random] included, the matches returned are a selection
    without repetition from the matches that pass the filter: each eligible
    element of the input is returned at most as often as it occurs there, so
    distinct inputs give distinct legs; and when [max_legs] is at least the
    number of eligible matches, all of them are returned. *)
Theorem choose_matches_selects_without_repetition {S} (cfg : Config) (w : World S)
    (matches : loc) (ms : list loc) (mode : string) (max_legs : Z) :
  heap w !! matches = Some (OList ms) ->
  Forall (is_match (heap w)) ms ->
  exists r sel w',
    choose_matches cfg matches mode max_legs w = (Ok r, w') /\
    heap w' !! r = Some (OList sel) /\
    let eligible := filter (fun l => passes_at cfg (heap w) l = true) ms in
    sel ⊆+ eligible /\
    (NoDup ms -> NoDup sel) /\
    (Z.of_nat (length eligible) <= max_legs -> sel ≡ₚ eligible).
Proof.
  intros Hms Hall.
  destruct (choose_matches_perm cfg w matches ms mode max_legs Hms Hall)
    as (r & order & w' & Hrun & Hr & Hperm).
  exists r, (PyList.slice_to order max_legs), w'.
  split; [exact Hrun|]. split; [exact Hr|]. cbn zeta.
  destruct (slice_to_take order max_legs) as (n & -> & Hn).
  assert (Hsub : take n order ⊆+ filter (fun l => passes_at cfg (heap w) l = true) ms).
  { rewrite <- Hperm. apply sublist_submseteq, sublist_take. }
  split; [exact Hsub|]. split.
  - intros Hnodup. apply (sublist_NoDup _ order); [|apply sublist_take].
    rewrite Hperm. now apply NoDup_filter.
  - intros Hall_in. rewrite <- Hperm. rewrite take_ge; [reflexivity|].
    rewrite Hperm. lia.
Qed.

Lemma choose_matches_selects_without_repetition_witness :
  exists r sel w',
    choose_matches default_config O "random" 2 Scenario.feed = (Ok r, w') /\
    heap w' !! r = Some (OList sel) /\
    let eligible := filter (fun l => passes_at default_config (heap Scenario.feed) l = true)
                      [1; 2; 3; 4; 5; 6]%nat in
    sel ⊆+ eligible /\
    (NoDup [1; 2; 3; 4; 5; 6]%nat -> NoDup sel) /\
    (Z.of_nat (length eligible) <= 2 -> sel ≡ₚ eligible).
Proof.
  apply (choose_matches_selects_without_repetition default_config Scenario.feed O
           [1; 2; 3; 4; 5; 6]%nat "random" 2).
  - exact feed_is_list.
  - exact feed_matches.
Defined.

(** X18. [choose_matches] acts on the heap only: whatever the input and however
    the call ends, it writes nothing to the trace, reads no clock and leaves
    the session token and the service's state alone; in a mode other than
    [random] it leaves the random source as it was too. *)
Theorem choose_matches_touches_heap_only {S} (cfg : Config) (matches : loc)
    (mode : string) (max_legs : Z) (w : World S) :
  let w' := snd (choose_matches cfg matches mode max_legs w) in
  trace w' = trace w /\ clock w' = clock w /\
  session_token w' = session_token w /\ remote w' = remote w /\
  (mode <> "random" -> rng w' = rng w).
Proof.
  cbn zeta. repeat split.
  - exact (keeps_choose_matches (fun w' => trace w' = trace w) cfg (fun _ _ H => H)
             matches mode max_legs (fun _ _ _ H => H) w eq_refl).
  - exact (keeps_choose_matches (fun w' => clock w' = clock w) cfg (fun _ _ H => H)
             matches mode max_legs (fun _ _ _ H => H) w eq_refl).
  - exact (keeps_choose_matches (fun w' => session_token w' = session_token w) cfg
             (fun _ _ H => H) matches mode max_legs (fun _ _ _ H => H) w eq_refl).
  - exact (keeps_choose_matches (fun w' => remote w' = remote w) cfg (fun _ _ H => H)
             matches mode max_legs (fun _ _ _ H => H) w eq_refl).
  - intros Hmode.
    exact (keeps_choose_matches (fun w' => rng w' = rng w) cfg (fun _ _ H => H)
             matches mode max_legs (fun Hr => False_ind _ (Hmode Hr)) w eq_refl).
Qed.

(** * More on the bot *)

(** Invariants of the world that the bot's steps keep when the client's four
    calls keep them. *)
Section BotKeeps.
Context {S : Type}.
Variable I : World S -> Prop.
Variable lib : Platform.
Variable cfg : Config.
Variable self : AccumulatorBot.Bot S.
Hypothesis I_rng : forall w r, I w -> I (set_rng r w).
Hypothesis I_log : forall w lvl r, I w -> I (set_trace (trace w ++ [EvLog lvl r]) w).
Hypothesis I_sleep : forall w s, I w -> I (set_trace (trace w ++ [EvSleep s]) w).
Hypothesis I_call : forall w c, I w -> I (set_trace (trace w ++ [EvCall c]) w).
Hypothesis I_heap : forall w h, I w -> I (set_heap h w).
Hypothesis I_authenticate : forall u p, keeps I (api_authenticate (AccumulatorBot.api self) u p).
Hypothesis I_feed : keeps I (api_get_available_matches (AccumulatorBot.api self)).
Hypothesis I_place : forall token legs stake,
  keeps I (api_place_accumulator (AccumulatorBot.api self) token legs stake).
Hypothesis I_get_bet : forall id, keeps I (api_get_bet (AccumulatorBot.api self) id).

Lemma keeps_call_authenticate : keeps I (AccumulatorBot.call_authenticate self).
Proof.
  unfold AccumulatorBot.call_authenticate. keeps_step; [|apply I_authenticate].
  intros w H. apply I_call, H.
Qed.

Lemma keeps_call_feed : keeps I (AccumulatorBot.call_get_available_matches self).
Proof.
  unfold AccumulatorBot.call_get_available_matches. keeps_step; [|apply I_feed].
  intros w H. apply I_call, H.
Qed.

Lemma keeps_call_placement token legs stake :
  keeps I (AccumulatorBot.call_place_accumulator self token legs stake).
Proof.
  unfold AccumulatorBot.call_place_accumulator. keeps_step; [|apply I_place].
  intros w H. apply I_call, H.
Qed.

Lemma keeps_call_get_bet id : keeps I (AccumulatorBot.call_get_bet self id).
Proof.
  unfold AccumulatorBot.call_get_bet. keeps_step; [|apply I_get_bet].
  intros w H. apply I_call, H.
Qed.

Lemma keeps_leg_of_match l : keeps I (AccumulatorBot.leg_of_match l).
Proof.
  unfold AccumulatorBot.leg_of_match. keeps_step; [keeps_step|].
  apply keeps_alloc, I_heap.
Qed.

(** What follows the fetch in [build_accumulator]. *)
Lemma keeps_build_rest stake mode legs_target matches :
  keeps I
    (let! selected := choose_matches cfg matches mode legs_target in
     let! sel := read_list selected in
     if (length sel <? 2)%nat
     then raise (RuntimeError "Not enough valid legs available to form an accumulator")
     else
       let! ms := mapM read_match sel in
       log INFO (LogSelected (map match_id ms));;
       let! legs := mapM AccumulatorBot.leg_of_match sel in
       let! legs_payload := alloc (OList legs) in
       ret (mkPlacement legs_payload stake)).
Proof.
  keeps_step; [apply keeps_choose_matches; [exact I_heap | intros _; exact I_rng]|].
  keeps_step; [keeps_step|].
  keeps_step; [keeps_step|].
  keeps_step; [keeps_step; keeps_step|].
  keeps_step; [apply keeps_log, I_log|].
  keeps_step; [keeps_step; apply keeps_leg_of_match|].
  keeps_step; [apply keeps_alloc, I_heap | keeps_step].
Qed.

Lemma keeps_build_accumulator stake mode legs_target :
  keeps I (AccumulatorBot.build_accumulator lib cfg self stake mode legs_target).
Proof.
  unfold AccumulatorBot.build_accumulator.
  keeps_step; [apply keeps_log, I_log|].
  keeps_step; [apply keeps_retry_on_exception; auto using keeps_call_feed|].
  apply keeps_build_rest.
Qed.

Lemma keeps_bot_place placement :
  keeps I (AccumulatorBot.place_accumulator lib cfg self placement).
Proof.
  unfold AccumulatorBot.place_accumulator.
  keeps_step; [apply keeps_read|].
  destruct (AccumulatorBot.truthy a) as [token|]; [|apply keeps_raise].
  keeps_step; [keeps_step|].
  keeps_step; [apply keeps_log, I_log|].
  keeps_step; [apply keeps_retry_on_exception; auto using keeps_call_placement|].
  keeps_step; [apply keeps_log, I_log | keeps_step].
Qed.

Lemma keeps_confirm_bet id : keeps I (AccumulatorBot.confirm_bet lib cfg self id).
Proof.
  unfold AccumulatorBot.confirm_bet.
  keeps_step; [apply keeps_log, I_log|].
  keeps_step; [apply keeps_retry_on_exception; auto using keeps_call_get_bet|].
  keeps_step; [apply keeps_log, I_log | keeps_step].
Qed.

Section Login.
Hypothesis I_token : forall w t, I w -> I (set_session_token t w).

Lemma keeps_login : keeps I (AccumulatorBot.login lib cfg self).
Proof.
  unfold AccumulatorBot.login.
  keeps_step; [apply keeps_log, I_log|].
  keeps_step; [apply keeps_retry_on_exception; auto using keeps_call_authenticate|].
  keeps_step; [intros w H; apply I_token, H|].
  apply keeps_log, I_log.
Qed.

Lemma keeps_steps_to_placement stake :
  keeps I (AccumulatorBot.steps_to_placement lib cfg self stake).
Proof.
  unfold AccumulatorBot.steps_to_placement.
  keeps_step; [apply keeps_login|].
  keeps_step; [apply keeps_build_accumulator | apply keeps_bot_place].
Qed.
End Login.

End BotKeeps.

Section Persistence.
Context {S : Type}.
Variable lib : Platform.
Variable cfg : Config.
Variable self : AccumulatorBot.Bot S.

Lemma confirm_bet_ok_inv id (w : World S) info w' :
  AccumulatorBot.confirm_bet lib cfg self id w = (Ok info, w') ->
  exists w0 w1, api_get_bet (AccumulatorBot.api self) id w0 = (Ok info, w1).
Proof.
  unfold AccumulatorBot.confirm_bet. intros H.
  apply bind_ok_inv in H as ([] & w1 & _ & H).
  apply bind_ok_inv in H as (info' & w2 & Hretry & H).
  apply bind_ok_inv in H as ([] & w3 & _ & H).
  apply Ok_pair_inv in H as [<- <-].
  apply retry_ok_inv in Hretry as [w0 Hcall].
  unfold AccumulatorBot.call_get_bet in Hcall.
  apply bind_ok_inv in Hcall as ([] & w4 & _ & Hcall). eauto.
Qed.

End Persistence.

(** X19. A run writes at most one record to the output file, and only the record
    a [get_bet] call of the run returned: for a client whose calls write
    nothing to the file themselves, the records persisted after [run_once]
    are those persisted before, followed by nothing or by that one record.
    A run that fails at any step persists nothing. *)
Theorem run_once_persists_confirmed_bet_only {S} (lib : Platform) (cfg : Config)
    (self : AccumulatorBot.Bot S) (stake : float) (w : World S) :
  (forall u p w0, persisted (trace (snd (api_authenticate (AccumulatorBot.api self) u p w0)))
                  = persisted (trace w0)) ->
  (forall w0, persisted (trace (snd (api_get_available_matches (AccumulatorBot.api self) w0)))
              = persisted (trace w0)) ->
  (forall token legs stake0 w0,
     persisted (trace (snd (api_place_accumulator (AccumulatorBot.api self)
                              token legs stake0 w0))) = persisted (trace w0)) ->
  (forall id w0, persisted (trace (snd (api_get_bet (AccumulatorBot.api self) id w0)))
                 = persisted (trace w0)) ->
  let w' := snd (AccumulatorBot.run_once lib cfg self stake w) in
  persisted (trace w') = persisted (trace w) \/
  exists id info w0 w1,
    api_get_bet (AccumulatorBot.api self) id w0 = (Ok info, w1) /\
    persisted (trace w') = (persisted (trace w) ++ [info])%list /\
    last (trace w') = Some (EvLog INFO (LogPersisted "placed_bets.jsonl")).
Proof.
  intros Hauth Hfeed Hplace Hget. cbn zeta.
  set (I := fun w0 : World S => persisted (trace w0) = persisted (trace w)).
  assert (I_event : forall w0 e, match e with EvPersist _ _ => False | _ => True end ->
                      I w0 -> I (set_trace (trace w0 ++ [e]) w0)).
  { intros w0 e He H0. unfold I in *. cbn [trace set_trace]. unfold persisted in *.
    rewrite omap_app, H0. destruct e; try contradiction; cbn; apply app_nil_r. }
  assert (I_api1 : forall u p, keeps I (api_authenticate (AccumulatorBot.api self) u p)).
  { intros u p w0 H0. unfold I in *. now rewrite Hauth. }
  assert (I_api2 : keeps I (api_get_available_matches (AccumulatorBot.api self))).
  { intros w0 H0. unfold I in *. now rewrite Hfeed. }
  assert (I_api3 : forall token legs stake0,
             keeps I (api_place_accumulator (AccumulatorBot.api self) token legs stake0)).
  { intros token legs stake0 w0 H0. unfold I in *. now rewrite Hplace. }
  assert (I_api4 : forall id, keeps I (api_get_bet (AccumulatorBot.api self) id)).
  { intros id w0 H0. unfold I in *. now rewrite Hget. }
  assert (Hsteps := keeps_steps_to_placement I lib cfg self
                      (fun _ _ H => H) (fun w0 lvl r => I_event w0 (EvLog lvl r) Logic.I)
                      (fun w0 s => I_event w0 (EvSleep s) Logic.I)
                      (fun w0 c => I_event w0 (EvCall c) Logic.I)
                      (fun _ _ H => H) I_api1 I_api2 I_api3 (fun _ _ H => H) stake w eq_refl).
  remember (AccumulatorBot.run_once lib cfg self stake w) as run eqn:Hrun.
  rewrite run_once_steps in Hrun. unfold try_except in Hrun. unfold bind at 1 in Hrun.
  destruct (AccumulatorBot.steps_to_placement lib cfg self stake w) as [[pr|e] w1];
    cbn [snd] in Hsteps.
  - destruct (AccumulatorBot.truthy (pr_bet_id pr)) as [id|].
    + assert (Hconfirm := keeps_confirm_bet I lib cfg self
                            (fun _ _ H => H) (fun w0 lvl r => I_event w0 (EvLog lvl r) Logic.I)
                            (fun w0 s => I_event w0 (EvSleep s) Logic.I)
                            (fun w0 c => I_event w0 (EvCall c) Logic.I)
                            I_api4 id w1 Hsteps).
      unfold bind at 1 in Hrun.
      destruct (AccumulatorBot.confirm_bet lib cfg self id w1) as [[info|e] w2] eqn:Hc;
        cbn [snd] in Hconfirm.
      * right. apply confirm_bet_ok_inv in Hc as (w0 & w3 & Hc).
        exists id, info, w0, w3. split; [exact Hc|].
        subst run. cbn. unfold I, persisted in *. rewrite !omap_app, Hconfirm. cbn.
        rewrite !app_nil_r. split; [reflexivity|].
        apply last_snoc.
      * left. subst run. cbn. now apply (I_event w2 (EvLog _ _) Logic.I).
    + left. subst run. cbn. now apply (I_event w1 (EvLog _ _) Logic.I).
  - left. subst run. cbn. now apply (I_event w1 (EvLog _ _) Logic.I).
Qed.

Lemma run_once_persists_confirmed_bet_only_witness :
  let self := Scenario.mock_bot "test_user" "test_pass" in
  let w := Scenario.start Scenario.calm MockBettingAPI.init in
  let w' := snd (AccumulatorBot.run_once Scenario.platform default_config self 5.0%float w) in
  persisted (trace w') = persisted (trace w) \/
  exists id info w0 w1,
    api_get_bet (AccumulatorBot.api self) id w0 = (Ok info, w1) /\
    persisted (trace w') = (persisted (trace w) ++ [info])%list /\
    last (trace w') = Some (EvLog INFO (LogPersisted "placed_bets.jsonl")).
Proof.
  cbv zeta.
  apply (run_once_persists_confirmed_bet_only Scenario.platform default_config
           (Scenario.mock_bot "test_user" "test_pass") 5.0%float
           (Scenario.start Scenario.calm MockBettingAPI.init)).
  - intros u p w0. cbn [AccumulatorBot.api Scenario.mock_bot MockBettingAPI.client
                        api_authenticate].
    rewrite authenticate_run. destruct (_ <? _)%float; [reflexivity|].
    now destruct (_ || _).
  - intros w0. cbn [AccumulatorBot.api Scenario.mock_bot MockBettingAPI.client
                    api_get_available_matches].
    pose proof (feed_network_cases Scenario.platform
                  default_config w0) as H.
    destruct (_ <? _)%float eqn:Hup; [now rewrite H|].
    destruct (get_available_matches_run Scenario.platform default_config w0 Hup)
      as (l & ls & ms & w1 & -> & _ & _ & _ & _ & _ & _ & Ht & _).
    cbn [snd]. now rewrite Ht.
  - intros token legs stake0 w0.
    cbn [AccumulatorBot.api Scenario.mock_bot MockBettingAPI.client api_place_accumulator].
    now rewrite mock_place_trace.
  - intros id w0. cbn [AccumulatorBot.api Scenario.mock_bot MockBettingAPI.client api_get_bet].
    now rewrite get_bet_run.
Defined.

Section Build.
Context {S : Type}.
Variable lib : Platform.
Variable cfg : Config.
Variable self : AccumulatorBot.Bot S.








End Build.




(** ** The order of the remote calls *)

Section Calls.
Context {S : Type}.
Variable lib : Platform.
Variable cfg : Config.

Lemma calls_snoc (t : list event) (e : event) :
  calls (t ++ [e]) =
    (calls t ++ match e with EvCall c => [c] | _ => [] end)%list.
Proof. unfold calls. rewrite omap_app. now destruct e. Qed.

Lemma retry_loop_calls {A} (fn : M S A) (P : remote_call -> Prop) max n :
  (forall w, exists c, P c /\ calls (trace (snd (fn w))) = (calls (trace w) ++ [c])%list) ->
  forall attempt last w, calls_added P n (retry_loop lib cfg fn max n attempt last) w.
Proof.
  intros Hfn. induction n as [|n IH]; intros attempt last w.
  - exists []. cbn [retry_loop]. unfold bind, log, emit.
    destruct last; cbn; rewrite calls_snoc; repeat split; auto; discriminate.
  - destruct (Hfn w) as (c & Pc & Hc). unfold calls_added.
    destruct (fn w) as [[a|e] w1] eqn:Hw; cbn [snd] in Hc.
    + exists [c]. rewrite (retry_loop_succeeded _ _ _ _ _ _ _ _ _ _ Hw). cbn [fst snd].
      repeat split; auto. cbn. lia.
    + rewrite (retry_loop_failed _ _ _ _ _ _ _ _ _ _ Hw). cbn zeta.
      match goal with |- context [retry_loop _ _ _ _ _ _ _ ?w2] =>
        destruct (IH (attempt + 1) (Some e) w2) as (l & Hl & HP & Hlen & Hok) end.
      cbn [trace] in Hl. rewrite !calls_snoc, !app_nil_r, Hc in Hl.
      exists (c :: l). split; [now rewrite Hl, <- app_assoc|].
      split; [now constructor|]. split; [cbn; lia | discriminate].
Qed.

Lemma retry_calls {A} (fn : M S A) (P : remote_call -> Prop) max w :
  (forall w, exists c, P c /\ calls (trace (snd (fn w))) = (calls (trace w) ++ [c])%list) ->
  calls_added P (Z.to_nat max) (retry_on_exception lib cfg fn max) w.
Proof. intros Hfn. now apply retry_loop_calls. Qed.

(** A step that adds no call, before or after the calls. *)
Lemma calls_added_after {A B} P n (c : M S A) (k : A -> M S B) w :
  calls_added P n c w ->
  (forall a w1, calls (trace (snd (k a w1))) = calls (trace w1)) ->
  calls_added P n (bind c k) w.
Proof.
  intros (l & Hl & HP & Hlen & Hok) Hk. exists l. unfold bind.
  destruct (c w) as [[a|e] w1]; cbn [fst snd] in *.
  - rewrite Hk. repeat split; eauto.
  - repeat split; auto; discriminate.
Qed.

Lemma calls_added_log {A} P n lvl r (k : M S A) w :
  calls_added P n k (set_trace (trace w ++ [EvLog lvl r]) w) ->
  calls_added P n (log lvl r;; k) w.
Proof.
  intros (l & Hl & HP & Hlen & Hok). exists l.
  cbn [trace set_trace] in Hl. rewrite calls_snoc, app_nil_r in Hl.
  unfold bind, log, emit. auto.
Qed.

Variable self : AccumulatorBot.Bot S.
Hypothesis quiet : records_no_call (AccumulatorBot.api self).

Let unchanged (w : World S) (w' : World S) : Prop := calls (trace w') = calls (trace w).

Lemma unchanged_log w w' lvl r :
  unchanged w w' -> unchanged w (set_trace (trace w' ++ [EvLog lvl r]) w').
Proof. unfold unchanged. cbn. rewrite calls_snoc, app_nil_r. auto. Qed.

Lemma login_calls w :
  calls_added (eq (CallAuthenticate (AccumulatorBot.username self)
                     (AccumulatorBot.password self)))
    (Z.to_nat (MAX_RETRIES cfg)) (AccumulatorBot.login lib cfg self) w.
Proof.
  unfold AccumulatorBot.login. apply calls_added_log. apply calls_added_after.
  - apply retry_calls. intros w0. eexists. split; [reflexivity|].
    unfold AccumulatorBot.call_authenticate, bind, emit. cbn [snd].
    destruct quiet as (Hq & _). rewrite Hq. cbn [trace set_trace]. now rewrite calls_snoc.
  - intros token w1. unfold bind, log, emit. cbn. now rewrite calls_snoc, app_nil_r.
Qed.

Lemma build_calls stake mode legs_target w :
  calls_added (eq CallGetAvailableMatches) (Z.to_nat (MAX_RETRIES cfg))
    (AccumulatorBot.build_accumulator lib cfg self stake mode legs_target) w.
Proof.
  unfold AccumulatorBot.build_accumulator. apply calls_added_log. apply calls_added_after.
  - apply retry_calls. intros w0. eexists. split; [reflexivity|].
    unfold AccumulatorBot.call_get_available_matches, bind, emit. cbn [snd].
    destruct quiet as (_ & Hq & _). rewrite Hq. cbn [trace set_trace]. now rewrite calls_snoc.
  - intros matches w1.
    apply (keeps_build_rest (unchanged w1) cfg); unfold unchanged; auto.
    intros w0 lvl r. apply unchanged_log.
Qed.

Lemma calls_added_eq {A} P n (c c' : M S A) w :
  c w = c' w -> calls_added P n c' w -> calls_added P n c w.
Proof. unfold calls_added. now intros ->. Qed.

Lemma calls_added_raise {A} P n e (w : World S) :
  calls_added P n (raise (A := A) e) w.
Proof. exists []. cbn. rewrite app_nil_r. repeat split; auto; try lia; discriminate. Qed.

Lemma place_calls placement w :
  calls_added is_placement (Z.to_nat (MAX_RETRIES cfg))
    (AccumulatorBot.place_accumulator lib cfg self placement) w.
Proof.
  destruct (AccumulatorBot.truthy (session_token w)) as [token|] eqn:Htoken.
  - destruct (read_list (p_legs placement) w) as [[ls|e] w1] eqn:Hls.
    + apply (calls_added_eq _ _ _
               (log INFO (LogPlacing (p_stake placement) (length ls));;
                let! result :=
                  retry_on_exception lib cfg
                    (AccumulatorBot.call_place_accumulator self token (p_legs placement)
                       (p_stake placement)) (MAX_RETRIES cfg) in
                log INFO (LogPlacementResult result);; ret result)).
      { unfold AccumulatorBot.place_accumulator. unfold bind at 1. rewrite Htoken.
        unfold bind at 1. rewrite Hls. apply read_list_inv in Hls as [_ ->]. reflexivity. }
      apply calls_added_log. apply calls_added_after.
      * apply retry_calls. intros w0.
        exists (CallPlaceAccumulator token (p_legs placement)
                  (sent_legs (heap w0) (p_legs placement)) (p_stake placement)).
        split; [exact Logic.I|].
        unfold AccumulatorBot.call_place_accumulator, bind, emit. cbn [snd].
        destruct quiet as (_ & _ & Hq & _). rewrite Hq. cbn [trace set_trace].
        now rewrite calls_snoc.
      * intros r w2. unfold bind, log, emit. cbn. now rewrite calls_snoc, app_nil_r.
    + apply (calls_added_eq _ _ _ (raise e)); [|apply calls_added_raise].
      unfold AccumulatorBot.place_accumulator. unfold bind at 1. rewrite Htoken.
      unfold bind at 1. rewrite Hls.
      pose proof (read_list_world (p_legs placement) w) as Hw. rewrite Hls in Hw.
      cbn in Hw. now subst w1.
  - apply (calls_added_eq _ _ _ (raise (RuntimeError "Not authenticated")));
      [|apply calls_added_raise].
    unfold AccumulatorBot.place_accumulator. unfold bind at 1. now rewrite Htoken.
Qed.

Lemma confirm_calls id w :
  calls_added is_get_bet (Z.to_nat (MAX_RETRIES cfg))
    (AccumulatorBot.confirm_bet lib cfg self id) w.
Proof.
  unfold AccumulatorBot.confirm_bet. apply calls_added_log. apply calls_added_after.
  - apply retry_calls. intros w0. exists (CallGetBet id). split; [exact Logic.I|].
    unfold AccumulatorBot.call_get_bet, bind, emit. cbn [snd].
    destruct quiet as (_ & _ & _ & Hq). rewrite Hq. cbn [trace set_trace]. now rewrite calls_snoc.
  - intros r w1. unfold bind, log, emit. cbn. now rewrite calls_snoc, app_nil_r.
Qed.

End Calls.

(** X21. The remote calls of a run come in a fixed order: for a client that
    leaves the record of calls to the bot, what [run_once] adds to the calls
    of the trace is a run of [authenticate] calls with the bot's credentials,
    then a run of [get_available_matches] calls, then a run of
    [place_accumulator] calls, then a run of [get_bet] calls. Each run has at
    most [MAX_RETRIES] calls (so a run of the bot makes at most four times
    [MAX_RETRIES] calls), and a kind of call is made only if a call of the
    kind before it was made: no placement without a fetch, no fetch without
    an authentication, no confirmation without a placement. *)
Theorem run_once_call_protocol {S} (lib : Platform) (cfg : Config)
    (self : AccumulatorBot.Bot S) (stake : float) (w : World S) :
  records_no_call (AccumulatorBot.api self) ->
  exists la lg lp lb,
    calls (trace (snd (AccumulatorBot.run_once lib cfg self stake w))) =
      (calls (trace w) ++ la ++ lg ++ lp ++ lb)%list /\
    Forall (eq (CallAuthenticate (AccumulatorBot.username self)
                  (AccumulatorBot.password self))) la /\
    Forall (eq CallGetAvailableMatches) lg /\
    Forall is_placement lp /\
    Forall is_get_bet lb /\
    (length la <= Z.to_nat (MAX_RETRIES cfg))%nat /\
    (length lg <= Z.to_nat (MAX_RETRIES cfg))%nat /\
    (length lp <= Z.to_nat (MAX_RETRIES cfg))%nat /\
    (length lb <= Z.to_nat (MAX_RETRIES cfg))%nat /\
    (lg <> [] -> la <> []) /\ (lp <> [] -> lg <> []) /\ (lb <> [] -> lp <> []).
Proof.
  intros Hquiet.
  remember (AccumulatorBot.run_once lib cfg self stake w) as run eqn:Hrun.
  unfold AccumulatorBot.run_once, try_except in Hrun. unfold bind at 1 in Hrun.
  destruct (login_calls lib cfg self Hquiet w) as (la & Hla & Pa & Na & Oa).
  destruct (AccumulatorBot.login lib cfg self w) as [[[]|e] w1]; cbn [fst snd] in *.
  2:{ exists la, [], [], []. subst run. cbn. rewrite calls_snoc, !app_nil_r.
      repeat split; auto; try (cbn; lia); try (intros H; now destruct H). }
  specialize (Oa tt eq_refl).
  unfold bind at 1 in Hrun.
  destruct (build_calls lib cfg self Hquiet stake (MATCH_SELECTION_MODE cfg) (MAX_LEGS cfg) w1)
    as (lg & Hlg & Pg & Ng & Og).
  destruct (AccumulatorBot.build_accumulator lib cfg self stake _ _ w1) as [[p|e] w2];
    cbn [fst snd] in *.
  2:{ exists la, lg, [], []. subst run. cbn. rewrite calls_snoc, !app_nil_r, Hlg, Hla.
      rewrite <- app_assoc.
      repeat split; auto; try (cbn; lia); try (intros H; now destruct H). }
  specialize (Og p eq_refl).
  unfold bind at 1 in Hrun.
  destruct (place_calls lib cfg self Hquiet p w2) as (lp & Hlp & Pp & Np & Op).
  destruct (AccumulatorBot.place_accumulator lib cfg self p w2) as [[r|e] w3];
    cbn [fst snd] in *.
  2:{ exists la, lg, lp, []. subst run. cbn.
      rewrite calls_snoc, !app_nil_r, Hlp, Hlg, Hla, <- !app_assoc.
      repeat split; auto; try (cbn; lia); try (intros H; now destruct H). }
  specialize (Op r eq_refl).
  destruct (AccumulatorBot.truthy (pr_bet_id r)) as [id|].
  2:{ exists la, lg, lp, []. subst run. cbn.
      rewrite calls_snoc, !app_nil_r, Hlp, Hlg, Hla, <- !app_assoc.
      repeat split; auto; try (cbn; lia); try (intros H; now destruct H). }
  unfold bind at 1 in Hrun.
  destruct (confirm_calls lib cfg self Hquiet id w3) as (lb & Hlb & Pb & Nb & Ob).
  destruct (AccumulatorBot.confirm_bet lib cfg self id w3) as [[info|e] w4];
    cbn [fst snd] in *.
  - exists la, lg, lp, lb. subst run. cbn.
    rewrite !calls_snoc, !app_nil_r, Hlb, Hlp, Hlg, Hla, <- !app_assoc.
    repeat split; auto.
  - exists la, lg, lp, lb. subst run. cbn.
    rewrite !calls_snoc, !app_nil_r, Hlb, Hlp, Hlg, Hla, <- !app_assoc.
    repeat split; auto.
Qed.

Lemma mock_records_no_call (lib : Platform) (cfg : Config) :
  records_no_call (MockBettingAPI.client lib cfg).
Proof.
  unfold records_no_call, MockBettingAPI.client. cbn. repeat split.
  - intros u p w. rewrite authenticate_run. destruct (_ <? _)%float; [reflexivity|].
    now destruct (_ || _).
  - intros w.
    pose proof (feed_network_cases lib cfg w) as H.
    destruct (_ <? _)%float eqn:Hup; [now rewrite H|].
    destruct (get_available_matches_run lib cfg w Hup)
      as (l & ls & ms & w1 & -> & _ & _ & _ & _ & _ & _ & Ht & _).
    cbn [snd]. now rewrite Ht.
  - intros token legs stake w. now rewrite mock_place_trace.
  - intros id w. now rewrite get_bet_run.
Qed.

Lemma run_once_call_protocol_witness :
  let self := Scenario.mock_bot "test_user" "test_pass" in
  let w := Scenario.start Scenario.calm MockBettingAPI.init in
  exists la lg lp lb,
    calls (trace (snd (AccumulatorBot.run_once Scenario.platform default_config self
                         5.0%float w))) =
      (calls (trace w) ++ la ++ lg ++ lp ++ lb)%list /\
    Forall (eq (CallAuthenticate (AccumulatorBot.username self)
                  (AccumulatorBot.password self))) la /\
    Forall (eq CallGetAvailableMatches) lg /\
    Forall is_placement lp /\
    Forall is_get_bet lb /\
    (length la <= Z.to_nat (MAX_RETRIES default_config))%nat /\
    (length lg <= Z.to_nat (MAX_RETRIES default_config))%nat /\
    (length lp <= Z.to_nat (MAX_RETRIES default_config))%nat /\
    (length lb <= Z.to_nat (MAX_RETRIES default_config))%nat /\
    (lg <> [] -> la <> []) /\ (lp <> [] -> lg <> []) /\ (lb <> [] -> lp <> []).
Proof.
  cbv zeta.
  apply (run_once_call_protocol Scenario.platform default_config
           (Scenario.mock_bot "test_user" "test_pass") 5.0%float
           (Scenario.start Scenario.calm MockBettingAPI.init)).
  apply mock_records_no_call.
Defined.

(** X22. [login] assigns the session token only when authentication succeeded:
    for a client that does not touch the bot's token, a successful [login]
    leaves the token some [authenticate] call of the bot returned, and logs
    it last; a failed [login] leaves the token the bot had before (none on a
    new bot, the token of an earlier login otherwise). *)
Theorem login_sets_token_on_success_only {S} (lib : Platform) (cfg : Config)
    (self : AccumulatorBot.Bot S) (w : World S) :
  (forall u p w0,
     session_token (snd (api_authenticate (AccumulatorBot.api self) u p w0)) =
       session_token w0) ->
  let run := AccumulatorBot.login lib cfg self w in
  (fst run = Ok tt ->
   exists token w0 w1,
     api_authenticate (AccumulatorBot.api self) (AccumulatorBot.username self)
       (AccumulatorBot.password self) w0 = (Ok token, w1) /\
     session_token (snd run) = Some token /\
     last (trace (snd run)) = Some (EvLog INFO (LogAuthenticated token))) /\
  (forall e, fst run = Raise e -> session_token (snd run) = session_token w).
Proof.
  intros Hapi run. subst run.
  remember (AccumulatorBot.login lib cfg self w) as run eqn:Hrun.
  unfold AccumulatorBot.login in Hrun.
  unfold bind at 1 in Hrun. cbn [log emit] in Hrun.
  set (w1 := set_trace _ w) in Hrun.
  assert (Hkeep : keeps (fun w' => session_token w' = session_token w)
                    (retry_on_exception lib cfg (AccumulatorBot.call_authenticate self)
                       (MAX_RETRIES cfg))).
  { apply keeps_retry_on_exception; auto.
    unfold AccumulatorBot.call_authenticate. keeps_step; [now intros w0 H|].
    intros w0 H. now rewrite Hapi. }
  specialize (Hkeep w1 eq_refl).
  unfold bind at 1 in Hrun.
  destruct (retry_on_exception lib cfg (AccumulatorBot.call_authenticate self)
              (MAX_RETRIES cfg) w1) as [[token|e] w2] eqn:Hretry; cbn [snd] in Hkeep.
  - apply retry_ok_inv in Hretry as [w0 Hcall].
    unfold AccumulatorBot.call_authenticate in Hcall.
    apply bind_ok_inv in Hcall as ([] & w0' & _ & Hcall).
    subst run. cbn. split; [|discriminate]. intros _.
    exists token, w0', w2. split; [exact Hcall|]. split; [reflexivity|].
    apply last_snoc.
  - subst run. cbn. split; [discriminate|]. intros _ _. exact Hkeep.
Qed.

Lemma login_sets_token_on_success_only_witness :
  let self := Scenario.mock_bot "" "test_pass" in
  let w := Scenario.start Scenario.calm MockBettingAPI.init in
  let run := AccumulatorBot.login Scenario.platform default_config self w in
  (fst run = Ok tt ->
   exists token w0 w1,
     api_authenticate (AccumulatorBot.api self) (AccumulatorBot.username self)
       (AccumulatorBot.password self) w0 = (Ok token, w1) /\
     session_token (snd run) = Some token /\
     last (trace (snd run)) = Some (EvLog INFO (LogAuthenticated token))) /\
  (forall e, fst run = Raise e -> session_token (snd run) = session_token w).
Proof.
  refine (login_sets_token_on_success_only Scenario.platform default_config
            (Scenario.mock_bot "" "test_pass")
            (Scenario.start Scenario.calm MockBettingAPI.init) _).
  intros u p w0.
  cbn [AccumulatorBot.api Scenario.mock_bot MockBettingAPI.client api_authenticate].
  rewrite authenticate_run. destruct (_ <? _)%float; [reflexivity|].
  now destruct (_ || _).
Defined.

(** * The lock file and the entry point *)

Section LockFacts.
Context {F : Type}.
Variable os : FileSystem F.

Lemma acquire_lock_held pid (fs : F) :
  path_exists os LOCKFILE fs = true -> acquire_lock os pid fs = Some (false, fs).
Proof. unfold acquire_lock. now intros ->. Qed.

Lemma acquire_lock_free pid (fs : F) :
  path_exists os LOCKFILE fs = false ->
  acquire_lock os pid fs =
    match write_file os LOCKFILE (pretty pid) fs with
    | Some fs' => Some (true, fs')
    | None => None
    end.
Proof. unfold acquire_lock. now intros ->. Qed.

Lemma run_once_ok {S} (lib : Platform) (cfg : Config) (self : AccumulatorBot.Bot S)
    (stake : float) (w : World S) :
  exists w', AccumulatorBot.run_once lib cfg self stake w = (Ok None, w').
Proof.
  rewrite run_once_steps.
  match goal with |- context [try_except ?c ?h w] =>
    destruct (c w) as [[v|e] w1] eqn:Hbody end.
  - apply run_once_body_none in Hbody as Hv. subst v.
    exists w1. apply try_except_ok. exact Hbody.
  - erewrite try_except_raise by exact Hbody. eexists. reflexivity.
Qed.

End LockFacts.



(** X24. Acquire, release, acquire again: on a file system where a removed file
    does not exist, [release_lock] after a successful [acquire_lock] removes
    the lock file (when the removal succeeds), after which the lock is free
    and [acquire_lock] writes it again. [release_lock] does not look at the
    process id in the file: it removes whatever lock file there is. When the
    removal fails the error is swallowed and the lock file stays. *)
Theorem release_lock_frees_the_lock {F} (os : FileSystem F) (pid : Z) (fs : F) :
  (forall fs0 fs', remove_file os LOCKFILE fs0 = Some fs' ->
                   path_exists os LOCKFILE fs' = false) ->
  path_exists os LOCKFILE fs = true ->
  match remove_file os LOCKFILE fs with
  | Some fs' =>
      release_lock os fs = fs' /\
      path_exists os LOCKFILE (release_lock os fs) = false /\
      release_lock os (release_lock os fs) = release_lock os fs /\
      acquire_lock os pid (release_lock os fs) =
        match write_file os LOCKFILE (pretty pid) fs' with
        | Some fs2 => Some (true, fs2)
        | None => None
        end
  | None =>
      release_lock os fs = fs /\ acquire_lock os pid (release_lock os fs) = Some (false, fs)
  end.
Proof.
  intros Hremoved Hexists.
  assert (Hrel : release_lock os fs =
                 match remove_file os LOCKFILE fs with Some fs' => fs' | None => fs end).
  { unfold release_lock. now rewrite Hexists. }
  destruct (remove_file os LOCKFILE fs) as [fs'|] eqn:Hremove; rewrite Hrel.
  - pose proof (Hremoved _ _ Hremove) as Hgone.
    repeat split; auto.
    + unfold release_lock. now rewrite Hgone.
    + now apply acquire_lock_free.
  - split; [reflexivity|]. now apply acquire_lock_held.
Qed.

Lemma release_lock_frees_the_lock_witness :
  release_lock Disk.files ({[LOCKFILE := "4242"]} : gmap string string) =
    delete LOCKFILE {[LOCKFILE := "4242"]} /\
  path_exists Disk.files LOCKFILE (release_lock Disk.files {[LOCKFILE := "4242"]}) = false /\
  release_lock Disk.files (release_lock Disk.files {[LOCKFILE := "4242"]}) =
    release_lock Disk.files {[LOCKFILE := "4242"]} /\
  acquire_lock Disk.files 7 (release_lock Disk.files {[LOCKFILE := "4242"]}) =
    Some (true, <[LOCKFILE := pretty 7]> (delete LOCKFILE {[LOCKFILE := "4242"]})).
Proof.
  apply (release_lock_frees_the_lock Disk.files 7 {[LOCKFILE := "4242"]}).
  - intros fs0 fs' [= <-]. cbn. apply bool_decide_eq_false.
    rewrite lookup_delete_eq. now intros [? ?].
  - vm_compute. reflexivity.
Defined.

(** X25. [main] respects a lock it did not take: when the lock file exists, it
    logs that another instance appears to be running and returns; it builds
    no client, makes no remote call, does not wait ([timeout] is unused) and
    leaves the lock file where it is, so a lock left behind by a process that
    died keeps every later run from starting. *)
Theorem main_respects_existing_lock {F} (os : FileSystem F) (pid : Z) (lib : Platform)
    (cfg : Config) (seeded : Random) (fs : F) (w : World unit) :
  path_exists os LOCKFILE fs = true ->
  main os pid lib cfg seeded fs w =
    Some (mkExit None fs [EvMain ERROR LogOtherInstance]).
Proof.
  intros Hexists. unfold main. now rewrite acquire_lock_held.
Qed.

Lemma main_respects_existing_lock_witness :
  main Disk.files 7 Scenario.platform default_config Scenario.calm
    ({[LOCKFILE := "4242"]} : gmap string string) (Scenario.start Scenario.calm tt) =
    Some (mkExit None {[LOCKFILE := "4242"]} [EvMain ERROR LogOtherInstance]).
Proof.
  apply (main_respects_existing_lock Disk.files 7 Scenario.platform default_config
           Scenario.calm {[LOCKFILE := "4242"]} (Scenario.start Scenario.calm tt)).
  vm_compute. reflexivity.
Defined.

(** X26. When [main] can take the lock it always comes back without an
    exception: it logs the start, runs the bot once on a new mock client
    (whatever the run meets is caught inside [run_once]), logs that the run
    completed, and releases the lock it wrote. What it shows is the start
    record, the events of the run in their order, and the completion
    record. *)
Theorem main_runs_and_releases {F} (os : FileSystem F) (pid : Z) (lib : Platform)
    (cfg : Config) (seeded : Random) (fs fs1 : F) (w : World unit) :
  path_exists os LOCKFILE fs = false ->
  write_file os LOCKFILE (pretty pid) fs = Some fs1 ->
  exists w',
    AccumulatorBot.run_once lib cfg
      (AccumulatorBot.mkBot _ (MockBettingAPI.client lib cfg) (USERNAME cfg) (PASSWORD cfg))
      (DEFAULT_STAKE cfg)
      (mkWorld (heap w) seeded (mkClock (times (clock w)) (Datatypes.S (ticks (clock w))))
         [] None MockBettingAPI.init) = (Ok None, w') /\
    main os pid lib cfg seeded fs w =
      Some (mkExit None (release_lock os fs1)
              (EvMain INFO (LogStarting (isoformat lib (times (clock w) (ticks (clock w)))))
               :: map EvBot (trace w') ++ [EvMain INFO LogRunCompleted])).
Proof.
  intros Hfree Hwrite.
  destruct (run_once_ok lib cfg
              (AccumulatorBot.mkBot _ (MockBettingAPI.client lib cfg) (USERNAME cfg)
                 (PASSWORD cfg))
              (DEFAULT_STAKE cfg)
              (mkWorld (heap w) seeded
                 (mkClock (times (clock w)) (Datatypes.S (ticks (clock w))))
                 [] None MockBettingAPI.init)) as [w' Hrun].
  exists w'. split; [exact Hrun|].
  unfold main. rewrite (acquire_lock_free os pid fs Hfree), Hwrite.
  cbn zeta.
  change (utcnow (mkWorld (heap w) seeded (clock w) [] None MockBettingAPI.init))
    with (Ok (times (clock w) (ticks (clock w))),
          mkWorld (heap w) seeded
            (mkClock (times (clock w)) (Datatypes.S (ticks (clock w))))
            ([] : list event) None MockBettingAPI.init).
  cbn iota. now rewrite Hrun.
Qed.

Lemma main_runs_and_releases_witness :
  exists w',
    AccumulatorBot.run_once Scenario.platform default_config
      (AccumulatorBot.mkBot _ (MockBettingAPI.client Scenario.platform default_config)
         (USERNAME default_config) (PASSWORD default_config))
      (DEFAULT_STAKE default_config)
      (mkWorld (heap (Scenario.start Scenario.calm tt)) Scenario.calm
         (mkClock (times (clock (Scenario.start Scenario.calm tt)))
            (Datatypes.S (ticks (clock (Scenario.start Scenario.calm tt)))))
         [] None MockBettingAPI.init) = (Ok None, w') /\
    main Disk.files 7 Scenario.platform default_config Scenario.calm
      (∅ : gmap string string) (Scenario.start Scenario.calm tt) =
      Some (mkExit None (release_lock Disk.files {[LOCKFILE := pretty 7]})
              (EvMain INFO
                 (LogStarting
                    (isoformat Scenario.platform
                       (times (clock (Scenario.start Scenario.calm tt))
                          (ticks (clock (Scenario.start Scenario.calm tt))))))
               :: map EvBot (trace w') ++ [EvMain INFO LogRunCompleted])).
Proof.
  apply (main_runs_and_releases Disk.files 7 Scenario.platform default_config Scenario.calm
           ∅ {[LOCKFILE := pretty 7]} (Scenario.start Scenario.calm tt)).
  - reflexivity.
  - reflexivity.
Defined.
